(** * Episode: a shallow embedding of [src/Episode.py]

    The chapter ("episode") core of the downloader: the title normaliser
    ([get_default_title], [rename_title]), the image manifest resolver
    ([init_imgsList]), the per-image acquisition engine ([downloadImg]) and
    the staging / teardown paths ([saveToFolder], [clearAfterSave], [clear]),
    the writers ([saveToPDF], [saveTo7z], [saveToZip], [saveToCbz]) and
    their dispatch ([save]).

    Python text is modelled as a list of Unicode code points, byte buffers as
    lists of bytes, dictionaries as finite maps, and every effect (network
    exchange, file system, logger, GUI signal, exception) is explicit. *)

From Stdlib Require Import NArith ZArith List String Ascii Lia Bool.
From Stdlib Require DecimalN.
From Stdlib.Strings Require Import Byte.
From stdpp Require Import base option list gmap.

(** ** Python text *)

Abbreviation char := N (only parsing).
Abbreviation pystr := (list N) (only parsing).

(** Literals are written as UTF-8 and decoded to code points. *)
Fixpoint utf8_decode (bs : list N) : pystr :=
  match bs with
  | [] => []
  | b :: r =>
      if (b <? 0x80)%N then b :: utf8_decode r
      else if (b <? 0xE0)%N then
        match r with
        | b1 :: r' => ((b - 0xC0) * 64 + (b1 - 0x80))%N :: utf8_decode r'
        | _ => []
        end
      else if (b <? 0xF0)%N then
        match r with
        | b1 :: b2 :: r' =>
            ((b - 0xE0) * 4096 + (b1 - 0x80) * 64 + (b2 - 0x80))%N :: utf8_decode r'
        | _ => []
        end
      else
        match r with
        | b1 :: b2 :: b3 :: r' =>
            ((b - 0xF0) * 262144 + (b1 - 0x80) * 4096 + (b2 - 0x80) * 64 + (b3 - 0x80))%N
              :: utf8_decode r'
        | _ => []
        end
  end.

Definition py (s : string) : pystr :=
  utf8_decode (map N_of_ascii (list_ascii_of_string s)).

Definition c_nl : char := 10%N.
Definition c_space : char := 32%N.
Definition c_amp : char := 38%N.
Definition c_plus : char := 43%N.
Definition c_minus : char := 45%N.
Definition c_dot : char := 46%N.
Definition c_zero : char := 48%N.
Definition c_qmark : char := 63%N.
Definition c_di : char := 0x7B2C%N.     (* 第 *)
Definition c_hua : char := 0x8BDD%N.    (* 话 *)
Definition c_te : char := 0x7279%N.     (* 特 *)
Definition c_bie : char := 0x522B%N.    (* 别 *)
Definition c_pian : char := 0x7BC7%N.   (* 篇 *)

Definition tebiepian : pystr := [c_te; c_bie; c_pian].

(** [a == b] on [str]. *)
Definition str_eqb (a b : pystr) : bool := bool_decide (a = b).

(** [x in l] for a list of strings. *)
Definition str_in (x : pystr) (l : list pystr) : bool := bool_decide (x ∈ l).

(** [not s]: the empty string is falsy. *)
Definition is_empty {A} (s : list A) : bool :=
  match s with [] => true | _ => false end.

(** [s.startswith(p)] *)
Fixpoint startswith (s p : pystr) {struct p} : bool :=
  match p, s with
  | [], _ => true
  | c :: p', d :: s' => (c =? d)%N && startswith s' p'
  | _ :: _, [] => false
  end.

(** [s.endswith(p)] *)
Definition endswith (s p : pystr) : bool := startswith (rev s) (rev p).

(** [c in s] for a one-character [c]. *)
Definition has_char (c : char) (s : pystr) : bool := existsb (N.eqb c) s.

(** [s.split(sep)] for a one-character separator: never empty, and
    adjacent separators give empty fields. *)
Fixpoint split_char (sep : char) (s : pystr) : list pystr :=
  match s with
  | [] => [[]]
  | c :: r =>
      if (c =? sep)%N then [] :: split_char sep r
      else match split_char sep r with
           | w :: ws => (c :: w) :: ws
           | [] => [[c]]
           end
  end.

(** [l[-1]] on a list of strings known to be non-empty. *)
Definition last_field (l : list pystr) : pystr := List.last l [].

(** Longest prefix whose characters satisfy [p], and the rest. *)
Fixpoint span (p : char -> bool) (s : pystr) : pystr * pystr :=
  match s with
  | c :: r => if p c then let '(a, b) := span p r in (c :: a, b) else ([], s)
  | [] => ([], [])
  end.

(** [s.replace(old, "")] for a non-empty [old]: left to right, without
    overlap. *)
Fixpoint remove_all_fuel (fuel : nat) (old s : pystr) : pystr :=
  match fuel with
  | O => s
  | S f =>
      match s with
      | [] => []
      | c :: r =>
          if startswith s old then remove_all_fuel f old (drop (length old) s)
          else c :: remove_all_fuel f old r
      end
  end.

Definition remove_all (old s : pystr) : pystr :=
  remove_all_fuel (S (length s)) old s.

(** ** Integers as text *)

Fixpoint uint_chars (u : Decimal.uint) : pystr :=
  match u with
  | Decimal.Nil => []
  | Decimal.D0 u => 48%N :: uint_chars u
  | Decimal.D1 u => 49%N :: uint_chars u
  | Decimal.D2 u => 50%N :: uint_chars u
  | Decimal.D3 u => 51%N :: uint_chars u
  | Decimal.D4 u => 52%N :: uint_chars u
  | Decimal.D5 u => 53%N :: uint_chars u
  | Decimal.D6 u => 54%N :: uint_chars u
  | Decimal.D7 u => 55%N :: uint_chars u
  | Decimal.D8 u => 56%N :: uint_chars u
  | Decimal.D9 u => 57%N :: uint_chars u
  end.

(** [str(n)] for a natural number. *)
Definition str_N (n : N) : pystr := uint_chars (N.to_uint n).

(** [str(z)] for an [int]. *)
Definition str_Z (z : Z) : pystr :=
  match z with
  | Zneg p => c_minus :: str_N (Npos p)
  | _ => str_N (Z.to_N z)
  end.

(** [s.zfill(w)]: pad with zeros on the left, after a leading sign. *)
Definition zfill (w : nat) (s : pystr) : pystr :=
  let pad := replicate (w - length s) c_zero in
  match s with
  | c :: r => if (c =? c_minus)%N || (c =? c_plus)%N then c :: pad ++ r else pad ++ s
  | [] => pad
  end.

(** [f"{z:0wd}"] *)
Definition format_0d (w : nat) (z : Z) : pystr := zfill w (str_Z z).

Definition is_ascii_digit (c : char) : bool := (48 <=? c)%N && (c <=? 57)%N.

Definition digits_value (ds : pystr) : N :=
  fold_left (fun acc c => (acc * 10 + (c - 48))%N) ds 0%N.

(** [int(s)] for the integer texts the core produces: an optional sign and
    ASCII digits; anything else is a [ValueError] ([None]). *)
Definition parse_int (s : pystr) : option Z :=
  let '(neg, ds) :=
    match s with
    | c :: r => if (c =? c_minus)%N then (true, r)
                else if (c =? c_plus)%N then (false, r) else (false, s)
    | [] => (false, [])
    end in
  if is_empty ds then None
  else if forallb is_ascii_digit ds
       then Some (if neg : bool then (- Z.of_N (digits_value ds))%Z else Z.of_N (digits_value ds))
       else None.

(** ** Exceptions

    [requests.RequestException] derives from [IOError], which is [OSError]
    in Python 3; [requests.HTTPError] derives from [RequestException].
    [FileNotFoundError] and [PermissionError] derive from [OSError].
    [piexif.InvalidImageDataError] derives from [ValueError] and
    [struct.error] from [Exception]: neither is an [OSError]. *)

Inductive exn :=
  | RequestException | HTTPError | ConnectionError
  | OSError | FileNotFoundError | PermissionError
  | ValueError | KeyError | IndexError | TypeError | AttributeError
  | InvalidImageDataError
  | StructError.

Definition is_RequestException (e : exn) : bool :=
  match e with
  | RequestException | HTTPError | ConnectionError => true
  | _ => false
  end.

Definition is_OSError (e : exn) : bool :=
  match e with
  | RequestException | HTTPError | ConnectionError
  | OSError | FileNotFoundError | PermissionError => true
  | _ => false
  end.

Inductive outcome (A : Type) :=
  | Returned (a : A)
  | Raised (e : exn).
Arguments Returned {A} a.
Arguments Raised {A} e.

(** ** The chapter object *)

(** [self.ord]: a JSON number, replaced by the text of its integer part once
    an [ord]-family rule has split a fractional ordinal. A float is kept as
    the text Python prints for it: sign, integer part, [.], fraction. *)
Inductive ord_val :=
  | OrdInt (z : Z)
  | OrdFloat (neg : bool) (ip : N) (frac : pystr)
  | OrdStr (s : pystr).

(** [str(self.ord)] *)
Definition str_ord (o : ord_val) : pystr :=
  match o with
  | OrdInt z => str_Z z
  | OrdFloat neg ip frac => (if neg then [c_minus] else []) ++ str_N ip ++ c_dot :: frac
  | OrdStr s => s
  end.

(** [int(self.ord)] *)
Definition int_ord (o : ord_val) : option Z :=
  match o with
  | OrdInt z => Some z
  | OrdFloat neg ip _ => Some (if neg then (- Z.of_N ip)%Z else Z.of_N ip)
  | OrdStr s => parse_int s
  end.

(** One entry of the token reply: [entry.get("complete_url")] and
    [entry.get("url")], [None] when the key is missing. *)
Record token_entry := {
  complete_url : option pystr;
  url : option pystr;
}.

Record Episode := {
  idx : Z;
  ord : ord_val;
  short_title : pystr;
  long_title : pystr;
  title : pystr;
  comic_name : pystr;
  save_path : pystr;
  epi_path : pystr;
  exif_setting : bool;
  imgs_token : option (list token_entry);
}.

Definition set_titles (e : Episode) (s l : pystr) : Episode :=
  {| idx := idx e; ord := ord e; short_title := s; long_title := l;
     title := title e; comic_name := comic_name e; save_path := save_path e;
     epi_path := epi_path e; exif_setting := exif_setting e;
     imgs_token := imgs_token e |}.

Definition set_ord (e : Episode) (o : ord_val) : Episode :=
  {| idx := idx e; ord := o; short_title := short_title e;
     long_title := long_title e; title := title e; comic_name := comic_name e;
     save_path := save_path e; epi_path := epi_path e;
     exif_setting := exif_setting e; imgs_token := imgs_token e |}.

Definition set_imgs_token (e : Episode) (t : list token_entry) : Episode :=
  {| idx := idx e; ord := ord e; short_title := short_title e;
     long_title := long_title e; title := title e; comic_name := comic_name e;
     save_path := save_path e; epi_path := epi_path e;
     exif_setting := exif_setting e; imgs_token := Some t |}.

Definition set_title (e : Episode) (t : pystr) : Episode :=
  {| idx := idx e; ord := ord e; short_title := short_title e;
     long_title := long_title e; title := t; comic_name := comic_name e;
     save_path := save_path e; epi_path := epi_path e;
     exif_setting := exif_setting e; imgs_token := imgs_token e |}.

(** ** Title normaliser

    Python's [re] works on code points: [\d] is any Unicode decimal digit and
    [\s] any Unicode whitespace, the classes of [str.isdecimal] and
    [str.isspace] (the latter is also what [str.strip] removes). The two
    classes are taken as given; every pattern of the source is anchored at
    [^], and every repetition in it is followed by a character outside the
    repeated class, so the greedy match is the longest run. *)

Section TitleNormalizer.

Variable isdecimal : char -> bool.
Variable isspace : char -> bool.

(** [s.strip()] *)
Definition strip (s : pystr) : pystr :=
  rev ((span isspace (rev ((span isspace s).2))).2).

(** A literal at the head of the subject. *)
Definition lit (l s : pystr) : option pystr :=
  if startswith s l then Some (drop (length l) s) else None.

(** [C+] for a character class [C]: the matched run and the rest. *)
Definition many1 (p : char -> bool) (s : pystr) : option (pystr * pystr) :=
  match span p s with
  | ([], _) => None
  | (a, b) => Some (a, b)
  end.

(** [$] without [re.MULTILINE]: the end of the subject, or just before a
    newline that ends it. The rest of the subject is kept. *)
Definition dollar (s : pystr) : option pystr :=
  match s with
  | [] => Some []
  | [c] => if (c =? c_nl)%N then Some s else None
  | _ => None
  end.

(** The class [[0-9\-\.]]. *)
Definition is_numlike (c : char) : bool :=
  is_ascii_digit c || (c =? c_minus)%N || (c =? c_dot)%N.

(** [re.search(r"^(\d+)\s+第(\d+)话", t)]: groups 1 and 2. *)
Definition search_num_di_hua (t : pystr) : option (pystr * pystr) :=
  '(g1, r) ← many1 isdecimal t;
  '(_, r) ← many1 isspace r;
  r ← lit [c_di] r;
  '(g2, r) ← many1 isdecimal r;
  _ ← lit [c_hua] r;
  Some (g1, g2).

(** [re.sub(r"^\d+\s+(第\d+话)", r"\1", t)] *)
Definition sub_num_di_hua (t : pystr) : pystr :=
  default t (
    '(_, r) ← many1 isdecimal t;
    '(_, r) ← many1 isspace r;
    r ← lit [c_di] r;
    '(g, r) ← many1 isdecimal r;
    r ← lit [c_hua] r;
    Some (([c_di] ++ g ++ [c_hua]) ++ r)).

(** [re.search(r"^(\d+)\s+第(\d+)$", t)]: groups 1 and 2. *)
Definition search_num_di (t : pystr) : option (pystr * pystr) :=
  '(g1, r) ← many1 isdecimal t;
  '(_, r) ← many1 isspace r;
  r ← lit [c_di] r;
  '(g2, r) ← many1 isdecimal r;
  _ ← dollar r;
  Some (g1, g2).

(** [re.sub(r"^\d+\s+(第\d+)$", r"\1话", t)] *)
Definition sub_num_di (t : pystr) : pystr :=
  default t (
    '(_, r) ← many1 isdecimal t;
    '(_, r) ← many1 isspace r;
    r ← lit [c_di] r;
    '(g, r) ← many1 isdecimal r;
    r ← dollar r;
    Some ((([c_di] ++ g) ++ [c_hua]) ++ r)).

(** [re.search(r"^特别篇\s+特别篇", t)]: the text after the match. *)
Definition search_special (t : pystr) : option pystr :=
  r ← lit tebiepian t;
  '(_, r) ← many1 isspace r;
  lit tebiepian r.

(** [re.sub(r"^特别篇\s+特别篇", r"特别篇", t)] *)
Definition sub_special (t : pystr) : pystr :=
  default t (r ← search_special t; Some (tebiepian ++ r)).

(** [^[0-9\-\.]+话], [^[0-9\-\.]+ ] and [^[0-9\-\.]+$]: group 1 and the
    text after the match. *)
Definition search_numlike_hua (t : pystr) : option (pystr * pystr) :=
  '(g, r) ← many1 is_numlike t; r ← lit [c_hua] r; Some (g, r).

Definition search_numlike_space (t : pystr) : option (pystr * pystr) :=
  '(g, r) ← many1 is_numlike t; r ← lit [c_space] r; Some (g, r).

Definition search_numlike_end (t : pystr) : option (pystr * pystr) :=
  '(g, r) ← many1 is_numlike t; r ← dollar r; Some (g, r).

(** The first statements of [get_default_title]: the title before the
    regex clean-ups. The first [if] is followed by a second [if], not an
    [elif], so whatever it assigns is overwritten by one of the two
    branches below it. *)
Definition default_base (short long : pystr) : pystr :=
  let title :=
    if str_eqb short long || str_eqb long [] then Some short else None in
  let title :=
    if startswith long short then Some long
    else Some (short ++ [c_space] ++ long) in
  default [] title.

(** The regex clean-ups of [get_default_title], one definition per [if]
    statement, in source order. *)
Definition collapse_num_di_hua (title : pystr) : pystr :=
  match search_num_di_hua title with
  | Some (g1, g2) => if str_eqb g1 g2 then sub_num_di_hua title else title
  | None => title
  end.

Definition collapse_num_di (title : pystr) : pystr :=
  match search_num_di title with
  | Some (g1, g2) => if str_eqb g1 g2 then sub_num_di title else title
  | None => title
  end.

Definition collapse_special (title : pystr) : pystr :=
  match search_special title with
  | Some _ => sub_special title
  | None => title
  end.

Definition cleanup_duplicates (title : pystr) : pystr :=
  collapse_special (collapse_num_di (collapse_num_di_hua title)).

Definition cleanup_numeral (title : pystr) : pystr :=
  match search_numlike_hua title with
  | Some (g, r) => [c_di] ++ g ++ [c_hua] ++ r
  | None =>
      match search_numlike_space title with
      | Some (g, r) => [c_di] ++ g ++ [c_hua; c_space] ++ r
      | None =>
          match search_numlike_end title with
          | Some (g, r) => [c_di] ++ g ++ [c_hua] ++ r
          | None => title
          end
      end
  end.

Definition cleanup (title : pystr) : pystr :=
  cleanup_numeral (cleanup_duplicates title).

Definition get_default_title (e : Episode) : pystr :=
  cleanup (default_base (short_title e) (long_title e)).

(** *** [rename_title] *)

(** One turn of the rule loop. The state is the chapter (its [ord] is
    reassigned by the split), the local [decimal] and the local [title];
    the chapter is returned also when the turn raises. *)
Definition rule_step (e : Episode) (decimal acc : pystr) (rule : pystr)
  : Episode * outcome (pystr * pystr) :=
  (* if rule.endswith("ord") and "." in str(self.ord): split *)
  let split :=
    if endswith rule (py "ord") && has_char c_dot (str_ord (ord e)) then
      match split_char c_dot (str_ord (ord e)) with
      | [a; b] => Returned (set_ord e (OrdStr a), c_dot :: b)
      | _ => Raised ValueError
      end
    else Returned (e, decimal) in
  match split with
  | Raised x => (e, Raised x)
  | Returned (e, decimal) =>
      let add (s : pystr) := (e, Returned (decimal, acc ++ c_space :: s)) in
      let add_int (w : nat) :=
        match int_ord (ord e) with
        | Some z => add (format_0d w z ++ decimal)
        | None => (e, Raised ValueError)
        end in
      if str_eqb (py "default") rule then add (title e)
      else if str_eqb (py "idx") rule then add (str_Z (idx e))
      else if str_eqb (py "3idx") rule then add (format_0d 3 (idx e))
      else if str_eqb (py "4idx") rule then add (format_0d 4 (idx e))
      else if str_eqb (py "ord") rule then add (str_ord (ord e) ++ decimal)
      else if str_eqb (py "3ord") rule then add_int 3
      else if str_eqb (py "4ord") rule then add_int 4
      else if str_eqb (py "short") rule then add (short_title e)
      else if str_eqb (py "long") rule then add (long_title e)
      else (e, Returned (decimal, acc))
  end.

Fixpoint rule_loop (e : Episode) (decimal acc : pystr) (rules : list pystr)
  : Episode * outcome pystr :=
  match rules with
  | [] => (e, Returned acc)
  | rule :: rest =>
      match rule_step e decimal acc rule with
      | (e, Returned (decimal, acc)) => rule_loop e decimal acc rest
      | (e, Raised x) => (e, Raised x)
      end
  end.

(** [rename_title]: the chapter after the call, and whether it raised. The
    fields changed before an exception stay changed. *)
Definition rename_title (rename_rule : option pystr) (e : Episode)
  : Episode * outcome unit :=
  match rename_rule with
  | None => (e, Returned ())
  | Some rename_rule =>
      if is_empty rename_rule || str_eqb (py "default") rename_rule
      then (e, Returned ())
      else
        let rules := split_char c_amp rename_rule in
        let e :=
          if is_empty (long_title e) && str_in (py "long") rules
             && negb (str_in (py "short") rules)
          then set_titles e (short_title e) (short_title e) else e in
        let e :=
          if startswith (long_title e) (short_title e)
             && str_in (py "short&long") rules
          then set_titles e (long_title e) [] else e in
        match rule_loop e [] [] rules with
        | (e, Returned t) => (set_title e (strip t), Returned ())
        | (e, Raised x) => (e, Raised x)
        end
  end.

End TitleNormalizer.

(** The two classes on the Basic Latin block, where [str.isdecimal] holds of
    [0]-[9] and [str.isspace] of TAB..CR, FS..US and the space. *)
Definition latin_isdecimal (c : char) : bool := is_ascii_digit c.
Definition latin_isspace (c : char) : bool :=
  ((9 <=? c)%N && (c <=? 13)%N) || ((28 <=? c)%N && (c <=? 32)%N).

(** ** The world around a chapter

    The file system, the remote endpoints, the logger and the GUI signals
    are one explicit state. Files are a finite map from paths to contents;
    [faults] is the schedule of transient local failures (a lock, a virus
    scan): each file operation takes the next entry, and [true] makes that
    operation raise [PermissionError]. [net] is the schedule of replies,
    one per request: a response, or [None] for a transport failure, which
    [requests] raises as a [RequestException] ([ConnectionError] here).
    [need_sms_verify] is the flag of [mainGUI]. [trace] records what the
    core emitted, oldest first. *)

Inductive site :=
  | ListFetch | TokenFetch | ImgGet | ImgHeader | ImgProcess | Checksum
  | ImgSave | TempRemove | FolderSave | ExifInsert
  | PdfSave | SevenZipSave | ZipSave | CbzSave.

Inductive endpoint := GetImageIndexURL | ImageTokenURL.

Inductive event :=
  | LogWarning (s : site)                (* logger.warning *)
  | LogError (s : site)                  (* logger.error *)
  | LogException (s : site)              (* logger.exception *)
  | WarningBox (s : site)                (* mainGUI.signal_warning_box.emit *)
  | ConfirmBox                           (* mainGUI.signal_confirm_box.emit *)
  | Post (u : endpoint) (urls : list pystr)          (* requests.post *)
  | Get (u : pystr) (session_headers : bool).        (* requests.get *)

(** A reply with status 200 is taken to carry the JSON envelope the two
    endpoints document: [code], [data.images[*].path] and the token list
    [data]. *)
Record response := {
  status_code : Z;
  etag : option pystr;             (* res.headers.get("Etag") *)
  content_type : option pystr;     (* res.headers.get("content-type") *)
  content : list byte;             (* res.content *)
  json_code : Z;                   (* res.json().get("code") *)
  json_images : list pystr;        (* res.json()["data"]["images"][*]["path"] *)
  json_tokens : list token_entry;  (* res.json()["data"] *)
}.

Inductive reply :=
  | NetRaise (e : exn)
  | NetResp (r : response).

Record world := {
  files : gmap pystr (list byte);
  dirs : gset pystr;
  faults : list bool;
  net : list (option response);
  need_sms_verify : bool;
  trace : list event;
}.

Definition emit (ev : event) (w : world) : world :=
  {| files := files w; dirs := dirs w; faults := faults w; net := net w;
     need_sms_verify := need_sms_verify w; trace := trace w ++ [ev] |}.

Definition emits (evs : list event) (w : world) : world :=
  fold_left (fun w ev => emit ev w) evs w.

(** The warning events a caller has received so far. *)
Definition is_warning_box (ev : event) : bool :=
  match ev with
  | WarningBox _ => true
  | _ => false
  end.

Definition warnings (w : world) : nat :=
  length (List.filter is_warning_box (trace w)).

(** The image downloads issued so far. *)
Definition is_get (ev : event) : bool :=
  match ev with
  | Get _ _ => true
  | _ => false
  end.

Definition downloads (w : world) : nat :=
  length (List.filter is_get (trace w)).

(** A step from [w0] to [w] that sent no warning and left the lockout flag
    as it was. *)
Definition quiet (w0 w : world) : Prop :=
  warnings w = warnings w0 /\ need_sms_verify w = need_sms_verify w0.

Definition set_files (f : gmap pystr (list byte)) (w : world) : world :=
  {| files := f; dirs := dirs w; faults := faults w; net := net w;
     need_sms_verify := need_sms_verify w; trace := trace w |}.

Definition set_dirs (d : gset pystr) (w : world) : world :=
  {| files := files w; dirs := d; faults := faults w; net := net w;
     need_sms_verify := need_sms_verify w; trace := trace w |}.

Definition set_need_sms_verify (b : bool) (w : world) : world :=
  {| files := files w; dirs := dirs w; faults := faults w; net := net w;
     need_sms_verify := b; trace := trace w |}.

Definition set_faults (f : list bool) (w : world) : world :=
  {| files := files w; dirs := dirs w; faults := f; net := net w;
     need_sms_verify := need_sms_verify w; trace := trace w |}.

(** The next entry of the fault schedule; no entry means no fault. *)
Definition pop_fault (w : world) : bool * world :=
  match faults w with
  | [] => (false, w)
  | b :: r => (b, set_faults r w)
  end.

(** The next reply; an exhausted schedule is a transport failure. *)
Definition pop_reply (w : world) : reply * world :=
  match net w with
  | [] => (NetRaise ConnectionError, w)
  | r :: rest =>
      (match r with Some res => NetResp res | None => NetRaise ConnectionError end,
       {| files := files w; dirs := dirs w; faults := faults w; net := rest;
          need_sms_verify := need_sms_verify w; trace := trace w |})
  end.

Definition requests_post (u : endpoint) (urls : list pystr) (w : world)
  : reply * world :=
  pop_reply (emit (Post u urls) w).

Definition requests_get (u : pystr) (session_headers : bool) (w : world)
  : reply * world :=
  pop_reply (emit (Get u session_headers) w).

(** [os.path.exists] *)
Definition os_path_exists (p : pystr) (w : world) : bool :=
  bool_decide (is_Some (files w !! p)) || bool_decide (p ∈ dirs w).

(** [os.remove] *)
Definition os_remove (p : pystr) (w : world) : world * outcome unit :=
  let '(f, w) := pop_fault w in
  if f then (w, Raised PermissionError)
  else match files w !! p with
       | None => (w, Raised FileNotFoundError)
       | Some _ => (set_files (delete p (files w)) w, Returned ())
       end.

(** [os.makedirs] *)
Definition os_makedirs (p : pystr) (w : world) : world * outcome unit :=
  let '(f, w) := pop_fault w in
  if f then (w, Raised PermissionError)
  else if os_path_exists p w then (w, Raised OSError)
  else (set_dirs ({[p]} ∪ dirs w) w, Returned ()).

(** [with open(p, "wb") as f: f.write(data)] *)
Definition write_file (p : pystr) (data : list byte) (w : world)
  : world * outcome unit :=
  let '(f, w) := pop_fault w in
  if f then (w, Raised PermissionError)
  else (set_files (<[p := data]> (files w)) w, Returned ()).

(** [shutil.move(src, dst)] for a destination that is a file path. *)
Definition shutil_move (src dst : pystr) (w : world) : world * outcome unit :=
  let '(f, w) := pop_fault w in
  if f then (w, Raised PermissionError)
  else match files w !! src with
       | None => (w, Raised FileNotFoundError)
       | Some data => (set_files (<[dst := data]> (delete src (files w))) w, Returned ())
       end.

(** ** The [retrying] decorator

    [retry] calls the function again after any exception until its stop
    condition holds, and then raises the last exception itself.
    [stop_max_attempt_number = n] gives [n] attempts. [stop_max_delay] is a
    bound on elapsed time; it is abstracted to the number of re-attempts that
    fit in it, so the first attempt is always made. *)
Fixpoint retry {S A} (again : nat) (f : S -> S * outcome A) (s : S)
  : S * outcome A :=
  match f s with
  | (s, Returned a) => (s, Returned a)
  | (s, Raised x) =>
      match again with
      | O => (s, Raised x)
      | S n => retry n f s
      end
  end.

Definition stop_max_attempt_number (n : nat) : nat := pred n.

(** ** Configuration read through [mainGUI.getConfig] *)

Record config := {
  rename_rule : option pystr;
  img_format : option pystr;
  hash_check : bool;
}.

(** ** Helpers on text and bytes *)

(** [sub in s] *)
Fixpoint contains (sub s : pystr) : bool :=
  startswith s sub ||
  match s with
  | [] => false
  | _ :: r => contains sub r
  end.

(** [l.remove(x)]: drops the first occurrence. *)
Fixpoint remove_first (x : pystr) (l : list pystr) : list pystr :=
  match l with
  | [] => []
  | y :: r => if str_eqb x y then r else y :: remove_first x r
  end.

(** [b[i:j]] for [0 <= i <= j]: slices are clamped to the buffer. *)
Definition slice {A} (i j : nat) (b : list A) : list A := take (j - i) (drop i b).

(** [int.from_bytes(b)]: big-endian, the default byte order. *)
Definition int_from_bytes (b : list byte) : N :=
  fold_left (fun acc x => (acc * 256 + Byte.to_N x)%N) b 0%N.

Definition header_window : nat := N.to_nat 20496.

(** A dictionary display: a later binding of a key replaces an earlier one. *)
Definition dict_literal (kvs : list (pystr * pystr)) : gmap pystr pystr :=
  fold_left (fun m kv => <[kv.1 := kv.2]> m) kvs ∅.

Definition img_format_entries : list (pystr * pystr) :=
  [ (py "default", py "");
    (py "jpg", py "@10000w.jpg");
    (py "webp", py "@10000w.webp");
    (py "avif", py "@10000w.avif");
    (py "1700jpg", py "@1700w.jpg");
    (py "1400jpg", py "@1400w.jpg");
    (py "1100jpg", py "@1100w.jpg");
    (py "1700webp", py "@1700w.webp");
    (py "1400webp", py "@1400w.webp");
    (py "1400webp", py "@1100w.webp");
    (py "1700avif", py "@1700w.avif");
    (py "1400avif", py "@1400w.avif");
    (py "1100avif", py "@1100w.avif") ].

Definition img_format_list : gmap pystr pystr := dict_literal img_format_entries.

(** ** The core operations *)

Section Core.

(** What [Episode.py] imports and does not define:
    [MAX_RETRY_SMALL] and [MAX_RETRY_LARGE] (as re-attempts, see [retry]),
    [isCheckSumValid] and [AES_CBCDecrypt] of [src.Utils], and the library
    functions [urllib.parse.unquote], [base64.b64decode], [str.lower],
    [os.path.join] and [piexif.insert] (on the contents of a file: the new
    contents, or the exception it raises, [InvalidImageDataError] for a
    file that is no JPEG and, among others, [struct.error] for a JPEG that
    is cut short). *)
Variable MAX_RETRY_SMALL MAX_RETRY_LARGE : nat.
Variable isCheckSumValid : pystr -> list byte -> bool * pystr.
Variable AES_CBCDecrypt : list byte -> list byte -> list byte -> outcome (list byte).
Variable unquote : pystr -> pystr.
Variable b64decode : pystr -> outcome (list byte).
Variable lower : pystr -> pystr.
Variable path_join : pystr -> pystr -> pystr.
Variable piexif_insert : list byte -> outcome (list byte).

Variable cfg : config.

(** *** [init_imgsList] *)

Definition fetch_images (w : world) : world * outcome (list pystr) :=
  let '(rep, w) := requests_post GetImageIndexURL [] w in
  match rep with
  | NetRaise x =>
      (if is_RequestException x then emit (LogWarning ListFetch) w else w, Raised x)
  | NetResp res =>
      if negb (status_code res =? 200)%Z
      then (emit (LogWarning ListFetch) w, Raised HTTPError)
      else (w, Returned (json_images res))
  end.

Definition fetch_tokens (imgs_urls : list pystr) (w : world)
  : world * outcome (list token_entry) :=
  let '(rep, w) := requests_post ImageTokenURL imgs_urls w in
  match rep with
  | NetRaise x =>
      (if is_RequestException x then emit (LogWarning TokenFetch) w else w, Raised x)
  | NetResp res =>
      if negb (status_code res =? 200)%Z || negb (json_code res =? 0)%Z
      then (emit (LogWarning TokenFetch) w, Raised HTTPError)
      else (w, Returned (json_tokens res))
  end.

(** [[img_url + img_format_list[img_format] for img_url in imgs_urls]]:
    the subscript is evaluated once per element; a missing key is a
    [KeyError] ([None]). *)
Definition add_suffix (fmt : pystr) (imgs_urls : list pystr) : option (list pystr) :=
  mapM (fun img_url => sfx ← img_format_list !! fmt; Some (img_url ++ sfx)) imgs_urls.

(** ["token=" not in u], a [TypeError] ([None]) when [u] is [None]. *)
Definition lacks_token (u : option pystr) : option bool :=
  u ← u; Some (negb (contains (py "token=") u)).

Definition init_imgsList (e : Episode) (w : world)
  : world * Episode * outcome bool :=
  match retry MAX_RETRY_SMALL fetch_images w with
  | (w, Raised x) =>
      if is_RequestException x
      then (emits [LogError ListFetch; LogException ListFetch; WarningBox ListFetch] w,
            e, Returned false)
      else (w, e, Raised x)
  | (w, Returned imgs_urls) =>
      let fmt := default (py "default") (img_format cfg) in
      match add_suffix fmt imgs_urls with
      | None => (w, e, Raised KeyError)
      | Some imgs_urls =>
          match retry MAX_RETRY_SMALL (fetch_tokens imgs_urls) w with
          | (w, Raised x) =>
              if is_RequestException x
              then (emits [LogError TokenFetch; LogException TokenFetch;
                           WarningBox TokenFetch] w, e, Returned false)
              else (w, e, Raised x)
          | (w, Returned tokens) =>
              let e := set_imgs_token e tokens in
              if need_sms_verify w then (w, e, Returned false)
              else
                match tokens with
                | [] => (w, e, Raised IndexError)
                | first_img :: _ =>
                    let locked := emit ConfirmBox (set_need_sms_verify true w) in
                    match lacks_token (complete_url first_img) with
                    | None => (w, e, Raised TypeError)
                    | Some false => (w, e, Returned true)
                    | Some true =>
                        match lacks_token (url first_img) with
                        | None => (w, e, Raised TypeError)
                        | Some false => (w, e, Returned true)
                        | Some true => (locked, e, Returned false)
                        end
                    end
                end
          end
      end
  end.

(** *** [clearAfterSave] and [clear]

    Both walk [reversed(imgs_path)] while removing from [imgs_path]: the
    reverse iterator holds an index, starting at the last position, and
    stops as soon as the index is no longer inside the list. [k] is that
    index plus one. *)

Fixpoint clearAfterSave_loop (k : nat) (st : world * list pystr)
  : (world * list pystr) * outcome unit :=
  match k with
  | O => (st, Returned ())
  | S i =>
      let '(w, imgs_path) := st in
      match imgs_path !! i with
      | None => (st, Returned ())
      | Some img =>
          let '(w, r) := os_remove img w in
          let r :=
            match r with
            | Returned _ => if os_path_exists img w then Raised OSError else Returned ()
            | Raised x => Raised x
            end in
          match r with
          | Raised x =>
              ((if is_OSError x then emit (LogWarning TempRemove) w else w, imgs_path),
               Raised x)
          | Returned _ => clearAfterSave_loop i (w, remove_first img imgs_path)
          end
      end
  end.

Definition clearAfterSave (imgs_path : list pystr) (w : world)
  : (world * list pystr) * outcome unit :=
  match retry (stop_max_attempt_number 3)
              (fun st => clearAfterSave_loop (length st.2) st) (w, imgs_path) with
  | ((w, imgs_path), Raised x) =>
      if is_OSError x
      then ((emits [LogError TempRemove; LogException TempRemove;
                    WarningBox TempRemove] w, imgs_path), Returned ())
      else ((w, imgs_path), Raised x)
  | (st, Returned _) => (st, Returned ())
  end.

Fixpoint clear_loop (k : nat) (st : world * list pystr)
  : (world * list pystr) * outcome unit :=
  match k with
  | O => (st, Returned ())
  | S i =>
      let '(w, imgs_path) := st in
      match imgs_path !! i with
      | None => (st, Returned ())
      | Some img =>
          match os_remove img w with
          | (w, Raised x) => ((w, imgs_path), Raised x)
          | (w, Returned _) => clear_loop i (w, remove_first img imgs_path)
          end
      end
  end.

Definition clear (imgs_path : list pystr) (w : world)
  : (world * list pystr) * outcome unit :=
  clear_loop (length imgs_path) (w, imgs_path).

(** *** [saveToFolder] *)

(** [jpg_exif]: [piexif.insert] rewrites the file in place. *)
Definition jpg_exif (img_path : pystr) (w : world) : world * outcome unit :=
  let '(f, w) := pop_fault w in
  if f then (w, Raised PermissionError)
  else match files w !! img_path with
       | None => (w, Raised FileNotFoundError)
       | Some data =>
           match piexif_insert data with
           | Raised x => (w, Raised x)
           | Returned data => (set_files (<[img_path := data]> (files w)) w, Returned ())
           end
       end.

(** The name a staged file gets in the chapter folder. *)
Definition folder_name (index : N) (img_path : pystr) : pystr :=
  zfill 3 (str_N index) ++ [c_dot] ++ last_field (split_char c_dot img_path).

(** The metadata step of one turn: only with [exif_setting], only for
    [jpg], and an [InvalidImageDataError] is logged and skipped. *)
Definition embed_exif (e : Episode) (img_path : pystr) (w : world)
  : world * outcome unit :=
  let img_format := last_field (split_char c_dot img_path) in
  if exif_setting e then
    if str_eqb img_format (py "jpg") then
      match jpg_exif img_path w with
      | (w, Raised InvalidImageDataError) =>
          (emits [LogWarning ExifInsert; LogException ExifInsert] w, Returned ())
      | r => r
      end
    else (w, Returned ())
  else (w, Returned ()).

(** The body of the [for index, img_path in enumerate(imgs_path, start=1)]
    loop, from [index] on. *)
Fixpoint saveToFolder_loop (e : Episode) (index : N) (imgs_path : list pystr)
  (w : world) : world * outcome unit :=
  match imgs_path with
  | [] => (w, Returned ())
  | img_path :: rest =>
      match embed_exif e img_path w with
      | (w, Raised x) => (w, Raised x)
      | (w, Returned _) =>
          match shutil_move img_path
                  (path_join (epi_path e) (folder_name index img_path)) w with
          | (w, Raised x) => (w, Raised x)
          | (w, Returned _) => saveToFolder_loop e (N.succ index) rest w
          end
      end
  end.

(** The paths the loop moves to, in order, and what a staged file holds
    when it is moved. *)
Fixpoint destinations_from (e : Episode) (index : N) (imgs_path : list pystr)
  : list pystr :=
  match imgs_path with
  | [] => []
  | img_path :: rest =>
      path_join (epi_path e) (folder_name index img_path)
        :: destinations_from e (N.succ index) rest
  end.

Definition destinations (e : Episode) (imgs_path : list pystr) : list pystr :=
  destinations_from e 1%N imgs_path.

Definition staged_content (e : Episode) (img_path : pystr) (data : list byte)
  : list byte :=
  if exif_setting e && str_eqb (last_field (split_char c_dot img_path)) (py "jpg")
  then match piexif_insert data with
       | Returned data => data
       | Raised _ => data
       end
  else data.

Definition saveToFolder_attempt (e : Episode) (imgs_path : list pystr) (w : world)
  : world * outcome unit :=
  match saveToFolder_loop e 1%N imgs_path w with
  | (w, Raised x) =>
      (if is_OSError x then emit (LogError FolderSave) w else w, Raised x)
  | r => r
  end.

Definition saveToFolder (e : Episode) (imgs_path : list pystr) (w : world)
  : world * outcome unit :=
  let '(w, r) :=
    if negb (os_path_exists (epi_path e) w) then os_makedirs (epi_path e) w
    else (w, Returned ()) in
  let '(w, r) :=
    match r with
    | Raised x => (w, Raised x)
    | Returned _ =>
        retry (stop_max_attempt_number 5) (saveToFolder_attempt e imgs_path) w
    end in
  match r with
  | Raised x =>
      if is_OSError x
      then (emits [LogError FolderSave; LogException FolderSave;
                   WarningBox FolderSave] w, Returned ())
      else (w, Raised x)
  | Returned _ => (w, Returned ())
  end.

(** *** [downloadImg] *)

(** The download attempt. First the request: without session headers
    when the URL carries a token, with them otherwise, and a
    [RequestException] at once for an empty URL. *)
Definition request_image (img_url : pystr) (w : world) : reply * world :=
  if contains (py "token") img_url then requests_get img_url false w
  else if negb (is_empty img_url) then requests_get img_url true w
  else (NetRaise RequestException, w).

(** Then the reply: content, [Etag] and [hit_encrypt]. *)
Definition read_image (rep : reply) (w : world)
  : world * outcome (list byte * pystr * bool) :=
  match rep with
  | NetRaise x =>
      (if is_RequestException x then emit (LogWarning ImgGet) w else w, Raised x)
  | NetResp res =>
      if negb (status_code res =? 200)%Z
      then (emit (LogWarning ImgHeader) w, Raised HTTPError)
      else
        match etag res with
        | None => (w, Raised HTTPError)
        | Some md5 =>
            if is_empty md5 then (w, Raised HTTPError)
            else
              match content_type res with
              | None => (w, Raised AttributeError)
              | Some ct =>
                  (w, Returned (content res, md5, negb (startswith ct (py "image/"))))
              end
        end
  end.

Definition get_image (img_url : pystr) (w : world)
  : world * outcome (list byte * pystr * bool) :=
  let '(rep, w) := request_image img_url w in read_image rep w.

(** The decryption step: the new value of [img]. *)
Definition decrypt (cpx : pystr) (hit_encrypt : bool) (img : list byte)
  : outcome (list byte) :=
  if is_empty cpx || negb hit_encrypt || is_empty img then Returned img
  else
    let cpx_text := unquote cpx in
    match b64decode cpx_text with
    | Raised x => Raised x
    | Returned cpx_char =>
        let iv := slice 60 76 cpx_char in
        match img with
        | [] => Raised IndexError
        | img_flag :: _ =>
            if (Byte.to_N img_flag =? 0)%N then Raised ValueError
            else
              let data_length := N.to_nat (int_from_bytes (slice 1 5 img)) in
              let key := drop (data_length + 5) img in
              let content := slice 5 (data_length + 5) img in
              match AES_CBCDecrypt (slice 0 header_window content) key iv with
              | Raised x => Raised x
              | Returned head => Returned (head ++ drop header_window content)
              end
        end
    end.

(** The reversal transform in the words of the specification, to be
    compared with [decrypt]: the buffer is one flag byte, a four-byte
    big-endian length, the ciphertext region of that length and the
    trailing key material; the initialisation vector is bytes 60 to 76 of
    the decoded key-exchange parameter; the first 20496 bytes of the
    ciphertext region are decrypted and the remainder of the region is
    appended unchanged. *)
Fixpoint big_endian (b : list byte) : N :=
  match b with
  | [] => 0%N
  | x :: r => (Byte.to_N x * 256 ^ N.of_nat (length r) + big_endian r)%N
  end.

Definition reversal_spec (cpx : pystr) (buf : list byte) : outcome (list byte) :=
  let len := N.to_nat (big_endian (firstn 4 (skipn 1 buf))) in
  let ciphertext := firstn len (skipn 5 buf) in
  let key := skipn (5 + length ciphertext) buf in
  match b64decode (unquote cpx) with
  | Raised x => Raised x
  | Returned parameter =>
      let iv := firstn 16 (skipn 60 parameter) in
      match AES_CBCDecrypt (firstn header_window ciphertext) key iv with
      | Raised x => Raised x
      | Returned head => Returned (head ++ skipn header_window ciphertext)
      end
  end.

(** The [try] block around decryption and the checksum test. *)
Definition process_image (cpx : pystr) (img : list byte) (md5 : pystr)
  (hit_encrypt : bool) (w : world) : world * outcome (list byte) :=
  let '(w, r) :=
    match retry (stop_max_attempt_number 1)
                (fun img => match decrypt cpx hit_encrypt img with
                            | Returned img => (img, Returned ())
                            | Raised x => (img, Raised x)
                            end) img with
    | (_, Raised x) => (w, Raised x)
    | (img, Returned _) =>
        if hash_check cfg then
          let '(isValid, img_md5) := isCheckSumValid md5 img in
          if negb isValid then (emit (LogWarning Checksum) w, Raised HTTPError)
          else (w, Returned img)
        else (w, Returned img)
    end in
  match r with
  | Raised x =>
      (if is_OSError x
       then emits [LogError ImgProcess; LogException ImgProcess; WarningBox ImgProcess] w
       else w, Raised x)
  | Returned img => (w, Returned img)
  end.

(** The extension of the staged file. *)
Definition url_format (img_url : pystr) : pystr :=
  remove_all (py "&append=")
    (lower (hd [] (split_char c_qmark (last_field (split_char c_dot img_url))))).

Definition save_attempt (path_to_save : pystr) (img : list byte) (w : world)
  : world * outcome unit :=
  match write_file path_to_save img w with
  | (w, Raised x) =>
      (if is_OSError x then emit (LogError ImgSave) w else w, Raised x)
  | r => r
  end.

Definition downloadImg (e : Episode) (index : Z) (img_url cpx : pystr) (w : world)
  : world * outcome (option pystr) :=
  match retry MAX_RETRY_LARGE (get_image img_url) w with
  | (w, Raised x) =>
      if is_RequestException x
      then (emits [LogError ImgGet; LogException ImgGet; WarningBox ImgGet] w,
            Returned None)
      else (w, Raised x)
  | (w, Returned (img, md5, hit_encrypt)) =>
      match process_image cpx img md5 hit_encrypt w with
      | (w, Raised x) => (w, Raised x)
      | (w, Returned img) =>
          let img_format := url_format img_url in
          let path_to_save :=
            path_join (save_path e)
              (str_Z (idx e) ++ py "_" ++ str_Z index ++ [c_dot] ++ img_format) in
          match retry (stop_max_attempt_number 5) (save_attempt path_to_save img) w with
          | (w, Raised x) =>
              if is_OSError x
              then (emits [LogError ImgSave; LogException ImgSave; WarningBox ImgSave] w,
                    Returned None)
              else (w, Raised x)
          | (w, Returned _) => (w, Returned (Some path_to_save))
          end
      end
  end.

End Core.

(** ** A small concrete environment

    Stand-ins for the imported functions, used to run the operations on
    concrete inputs: POSIX [os.path.join], ASCII [str.lower], a checksum
    that is the decimal text of the content length, a cipher that reverses
    its input, an [unquote] that finds nothing to unquote, a [b64decode]
    that reads each character as one byte, and a [piexif.insert] that
    accepts a content that starts with the markers [FF D8 FF DA], raises
    [struct.error] on any other content that starts with [FF D8] (a
    segment header that is cut short) and [InvalidImageDataError] on the
    rest. *)
Module Demo.

Definition path_join (a b : pystr) : pystr :=
  if startswith b (py "/") then b
  else if is_empty a || endswith a (py "/") then a ++ b
  else a ++ py "/" ++ b.

Definition lower (s : pystr) : pystr :=
  map (fun c => if (65 <=? c)%N && (c <=? 90)%N then (c + 32)%N else c) s.

Definition isCheckSumValid (md5 : pystr) (img : list byte) : bool * pystr :=
  let sum := str_N (N.of_nat (length img)) in (str_eqb md5 sum, sum).

Definition AES_CBCDecrypt (data key iv : list byte) : outcome (list byte) :=
  Returned (rev data).

Definition unquote (s : pystr) : pystr := s.

Definition b64decode (s : pystr) : outcome (list byte) :=
  Returned (map (fun c => default x00 (Byte.of_N c)) s).

Definition piexif_insert (data : list byte) : outcome (list byte) :=
  match data with
  | xff :: xd8 :: xff :: xda :: _ => Returned (data ++ [x45])
  | xff :: xd8 :: _ => Raised StructError
  | _ => Raised InvalidImageDataError
  end.

Definition episode (short long : pystr) : Episode :=
  let e :=
    {| idx := 7; ord := OrdInt 7; short_title := short; long_title := long;
       title := []; comic_name := py "comic";
       save_path := py "/dl/comic"; epi_path := py "/dl/comic/ch";
       exif_setting := false; imgs_token := None |} in
  set_title e (get_default_title latin_isdecimal latin_isspace e).

Definition world0 : world :=
  {| files := ∅; dirs := ∅; faults := []; net := [];
     need_sms_verify := false; trace := [] |}.

Definition with_net (n : list (option response)) (w : world) : world :=
  {| files := files w; dirs := dirs w; faults := faults w; net := n;
     need_sms_verify := need_sms_verify w; trace := trace w |}.

Definition with_faults (f : list bool) (w : world) : world := set_faults f w.

(** A 200 reply of the image endpoint. *)
Definition image_reply (tag ctype : pystr) (body : list byte) : response :=
  {| status_code := 200; etag := Some tag; content_type := Some ctype;
     content := body; json_code := 0; json_images := []; json_tokens := [] |}.

(** A 200 reply of the list endpoint. *)
Definition list_reply (paths : list pystr) : response :=
  {| status_code := 200; etag := None; content_type := None; content := [];
     json_code := 0; json_images := paths; json_tokens := [] |}.

(** A 200 reply of the token endpoint. *)
Definition token_reply (tokens : list token_entry) : response :=
  {| status_code := 200; etag := None; content_type := None; content := [];
     json_code := 0; json_images := []; json_tokens := tokens |}.

Definition episode_exif : Episode :=
  {| idx := 7; ord := OrdInt 7; short_title := py "ch"; long_title := py "ch";
     title := py "ch"; comic_name := py "comic";
     save_path := py "/dl/comic"; epi_path := py "/dl/comic/ch";
     exif_setting := true; imgs_token := None |}.

(** Three staged pages: a JPEG that is cut short after its start marker,
    a PNG and a file named [.jpg] that is no JPEG. *)
Definition staged_paths : list pystr :=
  [py "/dl/comic/7_1.jpg"; py "/dl/comic/7_2.png"; py "/dl/comic/7_3.jpg"].

Definition staged_world : world :=
  set_files (<[py "/dl/comic/7_1.jpg" := [xff; xd8]]>
               (<[py "/dl/comic/7_2.png" := [x89]]>
                  (<[py "/dl/comic/7_3.jpg" := [x00]]> ∅))) world0.

(** The same pages, the first one a whole JPEG. *)
Definition staged_jpegs : world :=
  set_files (<[py "/dl/comic/7_1.jpg" := [xff; xd8; xff; xda]]> (files staged_world))
            staged_world.

Definition locked (w : world) : world := set_need_sms_verify true w.

Definition cfg (fmt : pystr) (check : bool) : config :=
  {| rename_rule := None; img_format := Some fmt; hash_check := check |}.

(** One transport failure, then an image whose [Etag] does not match the
    stand-in checksum, then one that would match. *)
Definition w_bad : world :=
  with_net [None;
            Some (image_reply (py "9") (py "image/jpeg") [x01; x02; x03]);
            Some (image_reply (py "3") (py "image/jpeg") [x01; x02; x03])]
           world0.


(** A list endpoint that answers with one image path. *)
Definition w_listed : world :=
  with_net [Some (list_reply [py "/bfs/manga/a.jpg"])] world0.

(** The same, in a session that is already locked out. *)
Definition w_locked : world := locked w_listed.

Definition downloadImg (c : config) :=
  downloadImg 3 isCheckSumValid AES_CBCDecrypt unquote b64decode lower path_join c.

Definition init_imgsList (c : config) := init_imgsList 3 c.

Definition saveToFolder := saveToFolder path_join piexif_insert.

Definition decrypt := decrypt AES_CBCDecrypt unquote b64decode.

Definition reversal_spec := reversal_spec AES_CBCDecrypt unquote b64decode.

End Demo.

(** ** The constructor

    [Episode.__init__], for the fields of the chapter object that the
    operations above read. [myStrFilter] is imported from [src.Utils]; the
    ordinal, the two titles, the comic's title and save path come from the
    two JSON objects the constructor is given, and [exif] is
    [getConfig("exif")]. The three events are what the [except Exception]
    around [rename_title] emits. *)





Section Construction.

Variable isdecimal : char -> bool.
Variable isspace : char -> bool.
Variable myStrFilter : pystr -> pystr.
Variable path_join : pystr -> pystr -> pystr.


End Construction.


(** The tokens that the rule loop renders. *)
Definition rule_tokens : list pystr :=
  [py "default"; py "idx"; py "3idx"; py "4idx"; py "ord"; py "3ord"; py "4ord";
   py "short"; py "long"].

(** The chapter as the rule loop finds it: only the substitution of the
    short title for an empty long title can have happened. *)
Definition before_rules (rules : list pystr) (e : Episode) : Episode :=
  if is_empty (long_title e) && str_in (py "long") rules
     && negb (str_in (py "short") rules)
  then set_titles e (short_title e) (short_title e) else e.

(** The text of an integer part: an optional minus sign and digits. *)
Definition int_text (neg : bool) (ip : N) : pystr :=
  (if neg then [c_minus] else []) ++ str_N ip.


(** ** Schedules

    Ways to say what an operation has consumed and emitted. *)

Definition set_net (n : list (option response)) (w : world) : world :=
  {| files := files w; dirs := dirs w; faults := faults w; net := n;
     need_sms_verify := need_sms_verify w; trace := trace w |}.

(** [k] failed exchanges with an endpoint: each is the request and the
    warning that the retried function logs. *)
Definition failed_posts (u : endpoint) (urls : list pystr) (s : site) (k : nat)
  : list event :=
  concat (replicate k [Post u urls; LogWarning s]).

(** The same for the image download. *)
Definition failed_gets (img_url : pystr) (session_headers : bool) (k : nat)
  : list event :=
  concat (replicate k [Get img_url session_headers; LogWarning ImgGet]).

(** ** The writers and [save]

    [saveToPDF], [saveTo7z], [saveToZip], [saveToCbz] and the dispatch of
    [save] on [self.save_method], which the constructor reads from
    [getConfig("save_method")]. What the writers call in Pillow, pypdf,
    py7zr, zipfile and [src.ComicInfoXML] is taken as given; the order of
    the steps, the [try] blocks, the retries and the events are those of
    the source. *)

(** [with open(p, "rb") as f: f.read()] *)
Definition read_file (p : pystr) (w : world) : world * outcome (list byte) :=
  let '(f, w) := pop_fault w in
  if f then (w, Raised PermissionError)
  else match files w !! p with
       | None => (w, Raised FileNotFoundError)
       | Some data => (w, Returned data)
       end.

(** Steps that read and change the world and may raise. *)
Definition io (A : Type) : Type := world -> world * outcome A.

Definition io_ret {A} (a : A) : io A := fun w => (w, Returned a).

Definition io_lift {A} (o : outcome A) : io A := fun w => (w, o).

Definition io_bind {A B} (m : io A) (k : A -> io B) : io B :=
  fun w =>
    match m w with
    | (w, Returned a) => k a w
    | (w, Raised x) => (w, Raised x)
    end.

(** [except OSError as e: logger.error(...); raise e] around a step. *)
Definition logging_oserror {A} (s : site) (m : io A) : io A :=
  fun w =>
    match m w with
    | (w, Raised x) => (if is_OSError x then emit (LogError s) w else w, Raised x)
    | r => r
    end.

Section Writers.

Variable path_join : pystr -> pystr -> pystr.
Variable piexif_insert : list byte -> outcome (list byte).

(** Pillow: [Image.open] on the contents of a file, [img.mode],
    [img.convert("RGB")], and the bytes that
    [first.save(path, save_all=True, append_images=rest, quality=95)]
    writes. pypdf: the bytes of the document with the chapter's metadata
    added. *)
Variable image : Type.
Variable Image_open : list byte -> outcome image.
Variable Image_mode : image -> pystr.
Variable Image_convert_RGB : image -> outcome image.
Variable Image_save_pdf : image -> list image -> outcome (list byte).
Variable pdf_add_metadata : Episode -> list byte -> outcome (list byte).

(** Paths: whether a path lies in the tree under a directory (what
    [os.walk] visits and [shutil.rmtree] removes) and [os.path.basename].
    Archives: the bytes of an archive that holds the given entries, each a
    name and a content, for py7zr and for zipfile. Last,
    [self.comicinfoxml.serialize]. *)
Variable inside : pystr -> pystr -> bool.
Variable basename : pystr -> pystr.
Variable SevenZipFile_bytes ZipFile_bytes : list (pystr * list byte) -> list byte.
Variable comicinfoxml_serialize : pystr -> io unit.

(** *** [saveToPDF] *)

(** [[Image.open(x) for x in imgs_path]] *)
Fixpoint open_images (imgs_path : list pystr) : io (list image) :=
  match imgs_path with
  | [] => io_ret []
  | x :: rest =>
      io_bind (read_file x) (fun data =>
      io_bind (io_lift (Image_open data)) (fun img =>
      io_bind (open_images rest) (fun temp_imgs =>
      io_ret (img :: temp_imgs))))
  end.

(** The loop that replaces every image whose mode is not [RGB]. *)
Fixpoint convert_images (temp_imgs : list image) : outcome (list image) :=
  match temp_imgs with
  | [] => Returned []
  | img :: rest =>
      let converted :=
        if negb (str_eqb (Image_mode img) (py "RGB")) then Image_convert_RGB img
        else Returned img in
      match converted with
      | Raised x => Raised x
      | Returned img =>
          match convert_images rest with
          | Raised x => Raised x
          | Returned rest => Returned (img :: rest)
          end
      end
  end.

(** The statements of the [try] block up to the closing of the images;
    [temp_imgs[0]] is an [IndexError] on an empty list. *)
Definition merge_pdf (e : Episode) (imgs_path : list pystr) : io unit :=
  io_bind (open_images imgs_path) (fun temp_imgs =>
  io_bind (io_lift (convert_images temp_imgs)) (fun temp_imgs =>
  match temp_imgs with
  | [] => io_lift (Raised IndexError)
  | first :: rest =>
      io_bind (io_lift (Image_save_pdf first rest)) (fun data =>
      write_file (epi_path e ++ py ".pdf") data)
  end)).

(** The statements after [if not self.exif_setting: return]. *)
Definition pdf_metadata (e : Episode) : io unit :=
  io_bind (read_file (epi_path e ++ py ".pdf")) (fun data =>
  io_bind (io_lift (pdf_add_metadata e data)) (fun data =>
  write_file (epi_path e ++ py ".pdf") data)).

(** The [try] block. The state is the world and the staged list, which
    [clearAfterSave] shortens in place. *)
Definition saveToPDF_body (e : Episode) (st : world * list pystr)
  : (world * list pystr) * outcome unit :=
  let '(w, imgs_path) := st in
  match merge_pdf e imgs_path w with
  | (w, Raised x) => ((w, imgs_path), Raised x)
  | (w, Returned _) =>
      match clearAfterSave imgs_path w with
      | (st, Raised x) => (st, Raised x)
      | ((w, imgs_path), Returned _) =>
          if negb (exif_setting e) then ((w, imgs_path), Returned ())
          else let '(w, r) := pdf_metadata e w in ((w, imgs_path), r)
      end
  end.

Definition saveToPDF_attempt (e : Episode) (st : world * list pystr)
  : (world * list pystr) * outcome unit :=
  match saveToPDF_body e st with
  | ((w, imgs_path), Raised x) =>
      ((if is_OSError x then emit (LogError PdfSave) w else w, imgs_path), Raised x)
  | r => r
  end.

Definition saveToPDF (e : Episode) (imgs_path : list pystr) (w : world)
  : (world * list pystr) * outcome unit :=
  match retry (stop_max_attempt_number 5) (saveToPDF_attempt e) (w, imgs_path) with
  | ((w, imgs_path), Raised x) =>
      if is_OSError x
      then ((emits [LogError PdfSave; LogException PdfSave; WarningBox PdfSave] w,
             imgs_path), Returned ())
      else ((w, imgs_path), Raised x)
  | (st, Returned _) => (st, Returned ())
  end.

(** *** [saveTo7z], [saveToZip] and [saveToCbz] *)

(** The files [os.walk(d)] yields, in the order of the map (the order of
    [os.walk] is the file system's); nothing when [d] is no directory. *)
Definition os_walk_files (d : pystr) (w : world) : list pystr :=
  if bool_decide (d ∈ dirs w)
  then List.filter (inside d) (map fst (map_to_list (files w)))
  else [].

(** [shutil.rmtree(d)] *)
Definition shutil_rmtree (d : pystr) (w : world) : world * outcome unit :=
  let '(f, w) := pop_fault w in
  if f then (w, Raised PermissionError)
  else if bool_decide (d ∈ dirs w) then
    (set_dirs (filter (fun p => inside d p = false /\ p <> d) (dirs w))
       (set_files (filter (fun kv => inside d kv.1 = false) (files w)) w),
     Returned ())
  else if bool_decide (is_Some (files w !! d)) then (w, Raised OSError)
  else (w, Raised FileNotFoundError).

(** The [z.write] calls of the two loops: each reads the next file and
    adds it under its base name; [z] is what the archive holds so far. *)
Fixpoint write_entries (paths : list pystr) (z : list (pystr * list byte))
  (w : world) : world * list (pystr * list byte) * outcome unit :=
  match paths with
  | [] => (w, z, Returned ())
  | p :: rest =>
      match read_file p w with
      | (w, Raised x) => (w, z, Raised x)
      | (w, Returned data) => write_entries rest (z ++ [(basename p, data)]) w
      end
  end.

(** The [with] block of a writer. The archive file is created when the
    block is entered, and it holds what was written when the block is
    left, also by an exception. *)
Definition archive_body (bytes_of : list (pystr * list byte) -> list byte)
  (archive : pystr) (e : Episode) : io unit :=
  fun w =>
    match write_file archive [] w with
    | (w, Raised x) => (w, Raised x)
    | (w, Returned _) =>
        let '(w, z, r) := write_entries (os_walk_files (epi_path e) w) [] w in
        let '(w, r) :=
          match r with
          | Returned _ => shutil_rmtree (epi_path e) w
          | Raised x => (w, Raised x)
          end in
        (set_files (<[archive := bytes_of z]> (files w)) w, r)
    end.

(** The retried function of a writer and the handler around its call,
    which are the same in the three writers but for the archive class, the
    extension and the messages. *)
Definition pack (s : site) (bytes_of : list (pystr * list byte) -> list byte)
  (ext : pystr) (e : Episode) : io unit :=
  fun w =>
    match retry (stop_max_attempt_number 5)
                (logging_oserror s (archive_body bytes_of (epi_path e ++ ext) e)) w with
    | (w, Raised x) =>
        if is_OSError x
        then (emits [LogError s; LogException s; WarningBox s] w, Returned ())
        else (w, Raised x)
    | r => r
    end.

Definition saveTo7z (e : Episode) (imgs_path : list pystr) : io unit :=
  io_bind (saveToFolder path_join piexif_insert e imgs_path) (fun _ =>
  pack SevenZipSave SevenZipFile_bytes (py ".7z") e).

Definition saveToZip (e : Episode) (imgs_path : list pystr) : io unit :=
  io_bind (saveToFolder path_join piexif_insert e imgs_path) (fun _ =>
  pack ZipSave ZipFile_bytes (py ".zip") e).

Definition saveToCbz (e : Episode) (imgs_path : list pystr) : io unit :=
  io_bind (saveToFolder path_join piexif_insert e imgs_path) (fun _ =>
  io_bind (comicinfoxml_serialize (epi_path e)) (fun _ =>
  pack CbzSave ZipFile_bytes (py ".cbz") e)).

(** *** [save] *)

(** [save_path] once the writer has returned; the staged list is the
    caller's, as the writer left it. *)
Definition save_with (writer : (world * list pystr) * outcome unit) (save_path : pystr)
  : (world * list pystr) * outcome pystr :=
  match writer with
  | (st, Raised x) => (st, Raised x)
  | (st, Returned _) => (st, Returned save_path)
  end.

(** A writer that leaves the staged list alone. *)
Definition keeping (imgs_path : list pystr) (r : world * outcome unit)
  : (world * list pystr) * outcome unit :=
  ((r.1, imgs_path), r.2).

Definition save (save_method : pystr) (e : Episode) (imgs_path : list pystr) (w : world)
  : (world * list pystr) * outcome pystr :=
  if str_eqb save_method (py "PDF") then
    save_with (saveToPDF e imgs_path w) (epi_path e ++ py ".pdf")
  else if str_eqb save_method (py "文件夹-图片") then
    save_with (keeping imgs_path (saveToFolder path_join piexif_insert e imgs_path w))
              (epi_path e)
  else if str_eqb save_method (py "7z压缩包") then
    save_with (keeping imgs_path (saveTo7z e imgs_path w)) (epi_path e ++ py ".7z")
  else if str_eqb save_method (py "Zip压缩包") then
    save_with (keeping imgs_path (saveToZip e imgs_path w)) (epi_path e ++ py ".zip")
  else if str_eqb save_method (py "Cbz压缩包") then
    save_with (keeping imgs_path (saveToCbz e imgs_path w)) (epi_path e ++ py ".cbz")
  else ((w, imgs_path), Returned []).

End Writers.

(** [piexif.insert] raises nothing but [InvalidImageDataError] on a
    content. *)
Definition piexif_contained (piexif_insert : list byte -> outcome (list byte))
  (data : list byte) : Prop :=
  forall x, piexif_insert data = Raised x -> x = InvalidImageDataError.

(** The same for the staged files that the metadata step of [saveToFolder]
    rewrites: with [exif_setting], those whose extension is [jpg]. *)
Definition exif_contained (piexif_insert : list byte -> outcome (list byte))
  (e : Episode) (imgs_path : list pystr) (w : world) : Prop :=
  forall p data,
    p ∈ imgs_path -> files w !! p = Some data ->
    exif_setting e = true -> last_field (split_char c_dot p) = py "jpg" ->
    piexif_contained piexif_insert data.

Definition save_methods : list pystr :=
  [py "PDF"; py "文件夹-图片"; py "7z压缩包"; py "Zip压缩包"; py "Cbz压缩包"].

(** ** [searchComic.py]

    [SearchComic.getResults]. The world of a search is the schedule of
    replies and what the call emitted. A reply carries its status and
    what [res.json()['data']['list']] evaluates to: the list, or whatever
    the expression raises (the decode error of a body that is no JSON, the
    [KeyError] of a missing key, the [TypeError] of a [data] that is
    null). *)

Inductive search_event :=
  | SearchPost            (* requests.post *)
  | SearchLogInfo         (* logger.info *)
  | SearchLogWarning      (* logger.warning *)
  | SearchLogError        (* logger.error *)
  | SearchWarningBox.     (* QMessageBox.warning *)

Record search_response := {
  search_status : Z;
  search_list : outcome (list pystr);
}.

Record search_world := {
  search_net : list (option search_response);
  search_trace : list search_event;
}.

Definition search_emit (ev : search_event) (w : search_world) : search_world :=
  {| search_net := search_net w; search_trace := search_trace w ++ [ev] |}.

Definition search_pop (w : search_world) : option (option search_response) * search_world :=
  match search_net w with
  | [] => (None, w)
  | r :: rest => (Some r, {| search_net := rest; search_trace := search_trace w |})
  end.

(** What a call of a function wrapped by [retrying] raises once the stop
    condition holds: the last attempt's own exception, or, only under
    [wrap_exception], a [RetryError] around it. *)
Inductive raised :=
  | RetryError (last : exn)
  | Plain (x : exn).

Fixpoint retrying {St A} (wrap_exception : bool) (again : nat)
  (f : St -> St * outcome A) (s : St) : St * (A + raised) :=
  match f s with
  | (s, Returned a) => (s, inl a)
  | (s, Raised x) =>
      match again with
      | O => (s, inr (if wrap_exception then RetryError x else Plain x))
      | S n => retrying wrap_exception n f s
      end
  end.

(** The retried function. Its [except] clause names an instance,
    [requests.RequestException()], not a class: when [requests.post]
    raises, matching against it is itself a [TypeError], and the handler
    body is never entered. *)
Definition search_attempt (w : search_world) : search_world * outcome (list pystr) :=
  let '(rep, w) := search_pop (search_emit SearchPost w) in
  match rep with
  | None | Some None => (w, Raised TypeError)
  | Some (Some res) =>
      if negb (search_status res =? 200)%Z
      then (search_emit SearchLogWarning w, Raised HTTPError)
      else (w, search_list res)
  end.

(** [getResults]; [again] is the number of re-attempts that fit in
    [stop_max_delay=5000]. The decorator is used without
    [wrap_exception]. *)
Definition getResults (again : nat) (w : search_world)
  : search_world * (list pystr + raised) :=
  let w := search_emit SearchLogInfo w in
  match retrying false again search_attempt w with
  | (w, inr (RetryError _)) =>
      (search_emit SearchWarningBox (search_emit SearchLogError w), inl [])
  | (w, inr (Plain x)) => (w, inr (Plain x))
  | (w, inl data) => (search_emit SearchLogInfo w, inl data)
  end.

(** ** [MangaUI]: the chapter list and its selection counter

    The list widget of [updateComicInfo] and the handlers that
    [init_episodesDetails] binds. An item is its flags (only whether they
    are [Qt.NoItemFlags] is ever read), its check state and whether it is
    among [selectedItems()]. *)

Inductive check_state := Unchecked | PartiallyChecked | Checked.

Record list_item := {
  item_enabled : bool;          (* item.flags() != Qt.NoItemFlags *)
  item_check : check_state;     (* item.checkState() *)
  item_highlighted : bool;      (* item in selectedItems() *)
}.

Record chapter_list := {
  items : list list_item;       (* listWidget_chp_detail *)
  num_selected : Z;             (* self.num_selected *)
  num_downloaded : Z;           (* the number on label_chp_detail_num_downloaded *)
  tasks : list nat;             (* indices handed to DownloadUI.addTask, oldest first *)
}.

Definition is_checked (c : check_state) : bool :=
  match c with Checked => true | _ => false end.

Definition is_unchecked (c : check_state) : bool :=
  match c with Unchecked => true | _ => false end.

Definition set_check (c : check_state) (it : list_item) : list_item :=
  {| item_enabled := item_enabled it; item_check := c;
     item_highlighted := item_highlighted it |}.

Definition disable (it : list_item) : list_item :=
  {| item_enabled := false; item_check := item_check it;
     item_highlighted := item_highlighted it |}.

(** The item [updateComicInfo] builds for a chapter, from
    [epi.isDownloaded()] and [epi.isAvailable()]. *)
Definition new_item (downloaded available : bool) : list_item :=
  let temp := {| item_enabled := true; item_check := Unchecked;
                 item_highlighted := false |} in
  let temp := if downloaded then set_check Checked (disable temp) else temp in
  if negb available then disable temp else temp.

Definition updateComicInfo (epi_list : list (bool * bool)) (getNumDownloaded : Z)
  : chapter_list :=
  {| items := map (fun epi => new_item epi.1 epi.2) epi_list;
     num_selected := 0; num_downloaded := getNumDownloaded; tasks := [] |}.

(** A [for] loop over the items that may change each item and the
    counter. *)
Fixpoint for_items (body : list_item -> Z -> list_item * Z) (its : list list_item)
  (n : Z) : list list_item * Z :=
  match its with
  | [] => ([], n)
  | it :: rest =>
      let '(it, n) := body it n in
      let '(rest, n) := for_items body rest n in
      (it :: rest, n)
  end.

Definition with_items (u : chapter_list) (r : list list_item * Z) : chapter_list :=
  {| items := r.1; num_selected := r.2; num_downloaded := num_downloaded u;
     tasks := tasks u |}.

(** [itemClicked] on the item at position [i]. *)
Definition itemClicked (i : nat) (u : chapter_list) : chapter_list :=
  match items u !! i with
  | None => u
  | Some item =>
      if negb (item_enabled item) then u
      else if is_checked (item_check item) then
        with_items u (<[i := set_check Unchecked item]> (items u), num_selected u - 1)%Z
      else if is_unchecked (item_check item) then
        with_items u (<[i := set_check Checked item]> (items u), num_selected u + 1)%Z
      else u
  end.

Definition checkSelected (u : chapter_list) : chapter_list :=
  with_items u
    (for_items (fun item n =>
                  if item_highlighted item then
                    if item_enabled item && is_unchecked (item_check item)
                    then (set_check Checked item, n + 1)%Z else (item, n)
                  else (item, n))
               (items u) (num_selected u)).

Definition uncheckSelected (u : chapter_list) : chapter_list :=
  with_items u
    (for_items (fun item n =>
                  if item_highlighted item then
                    if item_enabled item && is_checked (item_check item)
                    then (set_check Unchecked item, n - 1)%Z else (item, n)
                  else (item, n))
               (items u) (num_selected u)).

Definition checkAll (u : chapter_list) : chapter_list :=
  with_items u
    (for_items (fun item n =>
                  if item_enabled item then (set_check Checked item, n + 1)%Z
                  else (item, n))
               (items u) 0%Z).

Definition uncheckAll (u : chapter_list) : chapter_list :=
  with_items u
    (for_items (fun item n =>
                  if item_enabled item then (set_check Unchecked item, n) else (item, n))
               (items u) 0%Z).

(** The loop of the download handler, from position [i] on: every enabled
    checked item is queued and loses its flags. *)
Fixpoint queue_checked (i : nat) (its : list list_item) (queued : list nat)
  : list list_item * list nat :=
  match its with
  | [] => ([], queued)
  | item :: rest =>
      let '(item, queued) :=
        if item_enabled item && is_checked (item_check item)
        then (disable item, queued ++ [i]) else (item, queued) in
      let '(rest, queued) := queue_checked (S i) rest queued in
      (item :: rest, queued)
  end.

Definition download_selected (u : chapter_list) : chapter_list :=
  if (num_selected u =? 0)%Z then u
  else
    let r := queue_checked 0 (items u) (tasks u) in
    {| items := r.1; num_selected := 0;
       num_downloaded := num_downloaded u + num_selected u; tasks := r.2 |}.

(** The handlers, as one step. *)
Inductive ui_action :=
  | ItemClicked (i : nat)
  | CheckSelected | UncheckSelected | CheckAll | UncheckAll
  | DownloadSelected.

Definition ui_step (a : ui_action) (u : chapter_list) : chapter_list :=
  match a with
  | ItemClicked i => itemClicked i u
  | CheckSelected => checkSelected u
  | UncheckSelected => uncheckSelected u
  | CheckAll => checkAll u
  | UncheckAll => uncheckAll u
  | DownloadSelected => download_selected u
  end.

(** The items a download would take, and what the counter should be. *)
Definition ready (item : list_item) : bool :=
  item_enabled item && is_checked (item_check item).

Definition cnt (its : list list_item) : Z :=
  Z.of_nat (length (List.filter ready its)).

Definition counted (u : chapter_list) : Prop := num_selected u = cnt (items u).

(** ** Sample runs

    Concrete chapters, replies and worlds on which the further properties
    are instantiated. *)
Module Samples.

(** Chapter 12.5 of the sample comic. *)
Definition half_chapter : Episode :=
  set_ord (Demo.episode (py "12.5") (py "番外")) (OrdFloat false 12 (py "5")).

(** A chapter whose vendor titles repeat the number. *)
Definition repeated_number : Episode :=
  Demo.episode (py "12") ([c_di] ++ py "12" ++ [c_hua] ++ py " 决战").

(** A token entry whose URLs carry the token, and one locked out. *)
Definition signed_entry : token_entry :=
  {| complete_url := Some (py "https://i0.hdslb.com/bfs/manga/a.jpg@10000w.jpg?token=abc");
     url := Some (py "https://i0.hdslb.com/bfs/manga/a.jpg@10000w.jpg") |}.

Definition unsigned_entry : token_entry :=
  {| complete_url := Some (py "https://i0.hdslb.com/bfs/manga/a.jpg@10000w.jpg");
     url := Some (py "https://i0.hdslb.com/bfs/manga/a.jpg@10000w.jpg") |}.

Definition listed : response := Demo.list_reply [py "/bfs/manga/a.jpg"].

Definition settings : config := Demo.cfg (py "jpg") true.

(** One transport failure, then the list and a signed token reply. *)
Definition w_recovering : world :=
  Demo.with_net [None; Some listed; Some (Demo.token_reply [signed_entry])] Demo.world0.

Definition w_unsigned : world :=
  Demo.with_net [Some listed; Some (Demo.token_reply [unsigned_entry])] Demo.world0.

Definition w_no_tokens : world :=
  Demo.with_net [Some listed; Some (Demo.token_reply [])] Demo.world0.

Definition w_dead : world := Demo.with_net (replicate 4 None) Demo.world0.

Definition w_dead_tokens : world :=
  Demo.with_net (Some listed :: replicate 4 None) Demo.world0.

(** The staged pages with the chapter folder in place and a lock on the
    second file operation. *)
Definition w_folder_locked : world :=
  set_dirs {[py "/dl/comic/ch"]} (set_faults [false; true] Demo.staged_world).

(** A download that fails once and then delivers three bytes with their
    checksum. *)
Definition image : response :=
  Demo.image_reply (py "3") (py "image/jpeg") [x01; x02; x03].

Definition w_image : world := Demo.with_net [None; Some image] Demo.world0.

Definition image_url : pystr := py "https://i0.hdslb.com/bfs/manga/a.JPG?token=abc".

(** The same download with locks on the first writes. *)
Definition w_write_locked (k : nat) : world :=
  set_faults (replicate k true ++ [false]) (Demo.with_net [Some image] Demo.world0).

(** Stand-ins for what the writers call: an image is its bytes, a
    document or an archive the bytes of its parts in order, and the
    chapter's [ComicInfo.xml] one byte. *)
Definition Image_open (data : list byte) : outcome (list byte) := Returned data.

Definition Image_mode (img : list byte) : pystr := py "RGB".

Definition Image_convert_RGB (img : list byte) : outcome (list byte) := Returned img.

Definition Image_save_pdf (first : list byte) (rest : list (list byte))
  : outcome (list byte) :=
  Returned (first ++ concat rest).

Definition pdf_add_metadata (e : Episode) (data : list byte) : outcome (list byte) :=
  Returned (data ++ [x45]).

Definition inside (d p : pystr) : bool := startswith p (d ++ py "/").

Definition basename (p : pystr) : pystr := last_field (split_char 47%N p).

Definition archive_bytes (z : list (pystr * list byte)) : list byte :=
  concat (map snd z).

Definition comicinfoxml_serialize (p : pystr) : io unit :=
  write_file (Demo.path_join p (py "ComicInfo.xml")) [x3c].

Definition save :=
  save Demo.path_join Demo.piexif_insert (list byte) Image_open Image_mode
    Image_convert_RGB Image_save_pdf pdf_add_metadata inside basename
    archive_bytes archive_bytes comicinfoxml_serialize.

Definition w_search_dead : search_world :=
  {| search_net := replicate 3 None; search_trace := [] |}.

(** Four chapters: free, downloaded, locked, free; all checked. *)
Definition all_checked : chapter_list :=
  checkAll (updateComicInfo [(false, true); (true, true); (false, false); (false, true)] 1).

End Samples.

(** * Properties *)

(** ** Text *)

Lemma startswith_nil_l (p : pystr) : p <> [] -> startswith [] p = false.
Proof. destruct p; [congruence | reflexivity]. Qed.

Lemma startswith_refl (s : pystr) : startswith s s = true.
Proof. induction s as [|c s IH]; simpl; [reflexivity|]. now rewrite N.eqb_refl. Qed.

Lemma startswith_app (s r : pystr) : startswith (s ++ r) s = true.
Proof. induction s as [|c s IH]; simpl; [reflexivity|]. now rewrite N.eqb_refl. Qed.

Lemma startswith_prefix (s p : pystr) :
  startswith s p = true <-> exists r, s = p ++ r.
Proof.
  split.
  - revert s. induction p as [|c p IH]; intros s H.
    + now exists s.
    + destruct s as [|d s]; simpl in H; [discriminate|].
      apply andb_true_iff in H as [Hc Hp]. apply N.eqb_eq in Hc. subst d.
      destruct (IH _ Hp) as [r ->]. now exists r.
  - intros [r ->]. apply startswith_app.
Qed.

Lemma str_eqb_eq (a b : pystr) : str_eqb a b = true <-> a = b.
Proof. unfold str_eqb. apply bool_decide_eq_true. Qed.

Lemma str_eqb_refl (a : pystr) : str_eqb a a = true.
Proof. now apply str_eqb_eq. Qed.

(** Every field of a split is free of the separator. *)
Lemma split_char_no_sep (sep : char) (s w : pystr) :
  w ∈ split_char sep s -> has_char sep w = false.
Proof.
  revert w. induction s as [|c s IH]; intros w Hw; simpl in Hw.
  - apply list_elem_of_singleton in Hw. now subst.
  - destruct (N.eqb_spec c sep) as [->|Hne].
    + apply elem_of_cons in Hw as [->|Hw]; [reflexivity | now apply IH].
    + destruct (split_char sep s) as [|w0 ws] eqn:E.
      * apply list_elem_of_singleton in Hw. subst w. simpl.
        rewrite orb_false_r. apply N.eqb_neq. congruence.
      * apply elem_of_cons in Hw as [->|Hw].
        -- simpl. apply orb_false_iff. split.
           ++ apply N.eqb_neq. congruence.
           ++ apply IH. left.
        -- apply IH. now right.
Qed.

(** The guard of the collapse in [rename_title] looks for the whole text
    [short&long] among the fields split at [&]: it never holds. *)
Lemma short_long_never_in_rules (rename_rule : pystr) :
  str_in (py "short&long") (split_char c_amp rename_rule) = false.
Proof.
  unfold str_in. apply bool_decide_eq_false. intros H.
  apply split_char_no_sep in H. vm_compute in H. discriminate.
Qed.

Lemma default_base_eq (short long : pystr) :
  default_base short long =
  if startswith long short then long else short ++ [c_space] ++ long.
Proof. unfold default_base. now destruct (startswith long short). Qed.

(** C4. The default title before the regex clean-ups, for a non-empty short
    title and an empty long title, is the short title followed by a space:
    the branch that assigns the short title alone is overwritten, because
    the test that follows it is an [if] and not an [elif]. *)
Theorem default_base_empty_long_keeps_space (short : pystr) :
  short <> [] -> default_base short [] = short ++ [c_space].
Proof.
  intros H. rewrite default_base_eq, startswith_nil_l by assumption. reflexivity.
Qed.

(** C4 at short title 第1话 and an empty long title. *)
Lemma default_base_empty_long_keeps_space_witness :
  py "第1话" <> [] /\ default_base (py "第1话") [] = py "第1话 ".
Proof.
  split; [discriminate|].
  apply (default_base_empty_long_keeps_space (py "第1话")). discriminate.
Defined.

(** The title that [get_default_title] returns there keeps the space. *)
Example get_default_title_trailing_space :
  get_default_title latin_isdecimal latin_isspace (Demo.episode (py "第1话") [])
  = py "第1话 ".
Proof. reflexivity. Qed.

(** The rule loop reassigns [ord] only. *)
Lemma rule_step_titles (e e' : Episode) (decimal acc rule : pystr)
  (r : outcome (pystr * pystr)) :
  rule_step e decimal acc rule = (e', r) ->
  short_title e' = short_title e /\ long_title e' = long_title e.
Proof.
  unfold rule_step.
  destruct (endswith rule (py "ord") && has_char c_dot (str_ord (ord e))).
  - destruct (split_char c_dot (str_ord (ord e))) as [|a [|b [|c l]]];
      try (intros [= <- <-]; auto).
    repeat match goal with
           | |- context [if ?b then _ else _] => destruct b
           end;
      try destruct (int_ord _); intros [= <- <-]; auto.
  - repeat match goal with
           | |- context [if ?b then _ else _] => destruct b
           end;
      try destruct (int_ord _); intros [= <- <-]; auto.
Qed.

Lemma rule_loop_titles (rules : list pystr) : forall (e e' : Episode)
  (decimal acc : pystr) (r : outcome pystr),
  rule_loop e decimal acc rules = (e', r) ->
  short_title e' = short_title e /\ long_title e' = long_title e.
Proof.
  induction rules as [|rule rest IH]; intros e e' decimal acc r; cbn [rule_loop].
  - intros [= <- <-]. auto.
  - destruct (rule_step e decimal acc rule) as [e1 [[d1 a1]|x]] eqn:E;
      apply rule_step_titles in E as [Hs Hl].
    + intros H. apply IH in H as [? ?]. split; congruence.
    + intros [= <- <-]. auto.
Qed.

(** C3. A rule with both [short] and [long] never collapses the titles: when
    the long title starts with the short title, [rename_title] leaves both
    as they are, because the guard of the collapse never holds
    ([short_long_never_in_rules]). With the rule [short&long], short title
    第1话 and long title 第1话 开始, the rendered title is
    第1话 第1话 开始: the short title appears twice. *)
Theorem rename_title_short_long_repeats_short :
  (forall (isspace : char -> bool) (rename_rule : pystr) (e : Episode),
     str_in (py "short") (split_char c_amp rename_rule) = true ->
     str_in (py "long") (split_char c_amp rename_rule) = true ->
     startswith (long_title e) (short_title e) = true ->
     short_title (rename_title isspace (Some rename_rule) e).1 = short_title e /\
     long_title (rename_title isspace (Some rename_rule) e).1 = long_title e) /\
  (forall (i : Z) (o : ord_val) (t cn sp ep : pystr) (ex : bool)
          (tok : option (list token_entry)),
     title (rename_title latin_isspace (Some (py "short&long"))
              {| idx := i; ord := o; short_title := py "第1话";
                 long_title := py "第1话 开始"; title := t; comic_name := cn;
                 save_path := sp; epi_path := ep; exif_setting := ex;
                 imgs_token := tok |}).1
     = py "第1话 第1话 开始").
Proof.
  split; [|reflexivity].
  intros isspace rename_rule e Hshort Hlong Hpre. unfold rename_title.
  destruct (is_empty rename_rule || str_eqb (py "default") rename_rule); [auto|].
  rewrite Hshort, Hlong, short_long_never_in_rules.
  cbn [negb]. rewrite !andb_false_r.
  destruct (rule_loop e [] [] (split_char c_amp rename_rule)) as [e1 [t|x]] eqn:E;
    apply rule_loop_titles in E as [Hs Hl];
    cbn [fst set_title short_title long_title]; auto.
Qed.

(** C3 at the rule [short&long], short title 第1话, long title 第1话 开始. *)
Lemma rename_title_short_long_repeats_short_witness :
  short_title (rename_title latin_isspace (Some (py "short&long"))
                 (Demo.episode (py "第1话") (py "第1话 开始"))).1 = py "第1话" /\
  long_title (rename_title latin_isspace (Some (py "short&long"))
                (Demo.episode (py "第1话") (py "第1话 开始"))).1 = py "第1话 开始".
Proof.
  apply (proj1 rename_title_short_long_repeats_short latin_isspace (py "short&long")
           (Demo.episode (py "第1话") (py "第1话 开始"))).
  - reflexivity.
  - reflexivity.
  - reflexivity.
Defined.

(** The rule [3idx&short] at index 7, and a fractional ordinal. *)
Example rename_title_3idx_short :
  title (rename_title latin_isspace (Some (py "3idx&short"))
           (Demo.episode (py "测试") [])).1 = py "007 测试".
Proof. reflexivity. Qed.

Example rename_title_fractional_ord :
  let e := set_ord (Demo.episode (py "测试") []) (OrdFloat false 12 (py "5")) in
  title (rename_title latin_isspace (Some (py "3ord&4ord")) e).1 = py "012.5 0012.5".
Proof. reflexivity. Qed.

(** ** Clean-ups of the default title *)

Section Cleanup.
Variable isdecimal : char -> bool.
Variable isspace : char -> bool.
Hypothesis di_not_decimal : isdecimal c_di = false.
Hypothesis te_not_decimal : isdecimal c_te = false.

Lemma many1_head_false (p : char -> bool) (c : char) (r : pystr) :
  p c = false -> many1 p (c :: r) = None.
Proof. intros H. unfold many1. simpl. now rewrite H. Qed.

Lemma cleanup_numeral_head (c : char) (r : pystr) :
  is_numlike c = false -> cleanup_numeral (c :: r) = c :: r.
Proof.
  intros H. unfold cleanup_numeral, search_numlike_hua, search_numlike_space,
    search_numlike_end. now rewrite !(many1_head_false is_numlike c r H).
Qed.

Lemma search_special_head (c : char) (r : pystr) :
  c <> c_te -> search_special isspace (c :: r) = None.
Proof.
  intros H. unfold search_special, lit, tebiepian. cbn [startswith].
  rewrite (proj2 (N.eqb_neq c_te c)) by congruence. reflexivity.
Qed.

Lemma collapse_num_di_hua_head (c : char) (r : pystr) :
  isdecimal c = false -> collapse_num_di_hua isdecimal isspace (c :: r) = c :: r.
Proof.
  intros Hd. unfold collapse_num_di_hua, search_num_di_hua.
  now rewrite (many1_head_false isdecimal c r Hd).
Qed.

Lemma collapse_num_di_head (c : char) (r : pystr) :
  isdecimal c = false -> collapse_num_di isdecimal isspace (c :: r) = c :: r.
Proof.
  intros Hd. unfold collapse_num_di, search_num_di.
  now rewrite (many1_head_false isdecimal c r Hd).
Qed.

Lemma collapse_special_none (t : pystr) :
  search_special isspace t = None -> collapse_special isspace t = t.
Proof. intros H. unfold collapse_special. now rewrite H. Qed.

Lemma cleanup_duplicates_head (c : char) (r : pystr) :
  isdecimal c = false -> search_special isspace (c :: r) = None ->
  cleanup_duplicates isdecimal isspace (c :: r) = c :: r.
Proof.
  intros Hd Hs. unfold cleanup_duplicates.
  rewrite collapse_num_di_hua_head, collapse_num_di_head by assumption.
  now apply collapse_special_none.
Qed.

(** A title that starts with 第 is left alone by every clean-up. *)
Lemma cleanup_di (r : pystr) :
  cleanup isdecimal isspace (c_di :: r) = c_di :: r.
Proof.
  unfold cleanup. rewrite cleanup_duplicates_head.
  - now apply cleanup_numeral_head.
  - assumption.
  - now apply search_special_head.
Qed.

Lemma sub_num_di_hua_shape (t : pystr) :
  sub_num_di_hua isdecimal isspace t = t \/
  exists r, sub_num_di_hua isdecimal isspace t = c_di :: r.
Proof.
  unfold sub_num_di_hua.
  destruct (many1 isdecimal t) as [[a r1]|]; [|now left]. simpl.
  destruct (many1 isspace r1) as [[b r2]|]; [|now left]. simpl.
  destruct (lit [c_di] r2) as [r3|]; [|now left]. simpl.
  destruct (many1 isdecimal r3) as [[d r4]|]; [|now left]. simpl.
  destruct (lit [c_hua] r4) as [r5|]; [|now left]. simpl.
  right. eauto.
Qed.

Lemma sub_num_di_shape (t : pystr) :
  sub_num_di isdecimal isspace t = t \/
  exists r, sub_num_di isdecimal isspace t = c_di :: r.
Proof.
  unfold sub_num_di.
  destruct (many1 isdecimal t) as [[a r1]|]; [|now left]. simpl.
  destruct (many1 isspace r1) as [[b r2]|]; [|now left]. simpl.
  destruct (lit [c_di] r2) as [r3|]; [|now left]. simpl.
  destruct (many1 isdecimal r3) as [[d r4]|]; [|now left]. simpl.
  destruct (dollar r4) as [r5|]; [|now left]. simpl.
  right. eauto.
Qed.

Lemma sub_special_shape (t : pystr) :
  sub_special isspace t = t \/ exists r, sub_special isspace t = tebiepian ++ r.
Proof.
  unfold sub_special. destruct (search_special isspace t); simpl; eauto.
Qed.

Lemma collapse_num_di_hua_cases (t : pystr) :
  collapse_num_di_hua isdecimal isspace t = t \/
  exists r, collapse_num_di_hua isdecimal isspace t = c_di :: r.
Proof.
  unfold collapse_num_di_hua.
  destruct (search_num_di_hua isdecimal isspace t) as [[g1 g2]|]; [|now left].
  destruct (str_eqb g1 g2); [apply sub_num_di_hua_shape | now left].
Qed.

Lemma collapse_num_di_cases (t : pystr) :
  collapse_num_di isdecimal isspace t = t \/
  exists r, collapse_num_di isdecimal isspace t = c_di :: r.
Proof.
  unfold collapse_num_di.
  destruct (search_num_di isdecimal isspace t) as [[g1 g2]|]; [|now left].
  destruct (str_eqb g1 g2); [apply sub_num_di_shape | now left].
Qed.

Lemma collapse_special_cases (t : pystr) :
  collapse_special isspace t = t \/
  exists r, collapse_special isspace t = tebiepian ++ r.
Proof.
  unfold collapse_special.
  destruct (search_special isspace t); [apply sub_special_shape | now left].
Qed.

(** What [cleanup_duplicates] returns: its argument, a title that starts
    with 第, or one that starts with 特别篇. *)
Lemma cleanup_duplicates_cases (t : pystr) :
  cleanup_duplicates isdecimal isspace t = t \/
  (exists r, cleanup_duplicates isdecimal isspace t = c_di :: r) \/
  (exists r, cleanup_duplicates isdecimal isspace t = tebiepian ++ r).
Proof.
  unfold cleanup_duplicates.
  destruct (collapse_num_di_hua_cases t) as [-> | [r ->]].
  - destruct (collapse_num_di_cases t) as [-> | [r ->]].
    + destruct (collapse_special_cases t) as [-> | [r ->]]; eauto.
    + rewrite collapse_special_none by (now apply search_special_head). eauto.
  - rewrite collapse_num_di_head by assumption.
    rewrite collapse_special_none by (now apply search_special_head). eauto.
Qed.

Lemma cleanup_numeral_cases (t : pystr) :
  cleanup_numeral t = t \/ exists r, cleanup_numeral t = c_di :: r.
Proof.
  unfold cleanup_numeral.
  destruct (search_numlike_hua t) as [[g r]|]; [right; simpl; eauto|].
  destruct (search_numlike_space t) as [[g r]|]; [right; simpl; eauto|].
  destruct (search_numlike_end t) as [[g r]|]; [right; simpl; eauto|].
  now left.
Qed.

Lemma cleanup_fixed_unless_special (t : pystr) :
  search_special isspace (cleanup isdecimal isspace t) = None ->
  cleanup isdecimal isspace (cleanup isdecimal isspace t) = cleanup isdecimal isspace t.
Proof.
  intros Hs.
  destruct (cleanup_numeral_cases (cleanup_duplicates isdecimal isspace t)) as [Hn | [r Hn]];
    fold (cleanup isdecimal isspace t) in Hn.
  2:{ rewrite Hn. apply cleanup_di. }
  destruct (cleanup_duplicates_cases t) as [Hd | [[r Hd] | [r Hd]]].
  - rewrite Hd in Hn. now rewrite !Hn.
  - rewrite Hd in Hn. rewrite Hn. apply cleanup_di.
  - rewrite Hd in Hn. rewrite Hn in Hs |- *.
    unfold cleanup at 1. change (tebiepian ++ r) with (c_te :: c_bie :: c_pian :: r) in *.
    rewrite cleanup_duplicates_head by assumption.
    fold (cleanup_numeral (c_te :: c_bie :: c_pian :: r)).
    apply cleanup_numeral_head. reflexivity.
Qed.
End Cleanup.

(** C9, as stated, fails: for short title 特别篇 and long title
    特别篇 特别篇 特别篇 the function returns 特别篇 特别篇, and the clean-ups
    turn that title into 特别篇; so does the function itself when its
    output is given back as both titles. *)
Lemma cleanup_repeats_special_collapse :
  let e := Demo.episode (py "特别篇") (py "特别篇 特别篇 特别篇") in
  let out := get_default_title latin_isdecimal latin_isspace e in
  out = py "特别篇 特别篇" /\
  cleanup latin_isdecimal latin_isspace out = py "特别篇" /\
  get_default_title latin_isdecimal latin_isspace (Demo.episode out out) = py "特别篇" /\
  cleanup latin_isdecimal latin_isspace out <> out.
Proof. vm_compute. repeat split; discriminate. Qed.

(** C9, amended. [get_default_title] depends on the short and the long
    title only, and the clean-ups leave a title it returned unchanged unless
    that title still starts with 特别篇, whitespace and 特别篇 (the collapse of
    a repeated 特别篇 is applied once per call). The two premises on
    [isdecimal] hold of [str.isdecimal]: 第 and 特 are no digits. *)
Theorem get_default_title_cleanup_fixed (isdecimal isspace : char -> bool)
  (e e' : Episode) :
  isdecimal c_di = false ->
  isdecimal c_te = false ->
  (short_title e' = short_title e -> long_title e' = long_title e ->
   get_default_title isdecimal isspace e' = get_default_title isdecimal isspace e) /\
  (search_special isspace (get_default_title isdecimal isspace e) = None ->
   cleanup isdecimal isspace (get_default_title isdecimal isspace e)
   = get_default_title isdecimal isspace e).
Proof.
  intros Hdi Hte. split.
  - unfold get_default_title. now intros -> ->.
  - unfold get_default_title. now apply cleanup_fixed_unless_special.
Qed.

(** C9, amended, at short title 12 and long title 第12话 重逢. *)
Lemma get_default_title_cleanup_fixed_witness :
  cleanup latin_isdecimal latin_isspace
    (get_default_title latin_isdecimal latin_isspace
       (Demo.episode (py "12") (py "第12话 重逢")))
  = get_default_title latin_isdecimal latin_isspace
      (Demo.episode (py "12") (py "第12话 重逢")).
Proof.
  apply (get_default_title_cleanup_fixed latin_isdecimal latin_isspace
           (Demo.episode (py "12") (py "第12话 重逢"))
           (Demo.episode (py "12") (py "第12话 重逢"))).
  - reflexivity.
  - reflexivity.
  - reflexivity.
Defined.

(** ** The reversal transform *)

Lemma int_from_bytes_acc (b : list byte) (acc : N) :
  fold_left (fun acc x => (acc * 256 + Byte.to_N x)%N) b acc
  = (acc * 256 ^ N.of_nat (length b) + big_endian b)%N.
Proof.
  revert acc. induction b as [|x b IH]; intros acc.
  - simpl. lia.
  - cbn [fold_left big_endian length]. rewrite IH.
    rewrite Nat2N.inj_succ, N.pow_succ_r'. lia.
Qed.

Lemma int_from_bytes_big_endian (b : list byte) : int_from_bytes b = big_endian b.
Proof. unfold int_from_bytes. rewrite int_from_bytes_acc. lia. Qed.

Lemma key_after_region {A} (n : nat) (buf : list A) :
  drop (5 + length (take n (drop 5 buf))) buf = drop (n + 5) buf.
Proof.
  rewrite length_take, length_drop.
  destruct (Nat.le_gt_cases n (length buf - 5)) as [H|H].
  - f_equal. lia.
  - rewrite !drop_ge by lia. reflexivity.
Qed.

Section Reversal.
Variable AES_CBCDecrypt : list byte -> list byte -> list byte -> outcome (list byte).
Variable unquote : pystr -> pystr.
Variable b64decode : pystr -> outcome (list byte).

(** C5. For a buffer with a non-zero flag byte (and a key-exchange
    parameter, on an obfuscated payload), the decryption step of
    [downloadImg] computes what the specification describes
    ([reversal_spec]): length from bytes 1..5 big-endian, ciphertext region,
    trailing key, initialisation vector from bytes 60..76 of the decoded
    parameter, the first 20496 bytes decrypted and the remainder appended.
    The same inputs give the same bytes. *)
Theorem decrypt_matches_reversal_spec (cpx : pystr) (flag : byte) (rest : list byte) :
  cpx <> [] -> Byte.to_N flag <> 0%N ->
  decrypt AES_CBCDecrypt unquote b64decode cpx true (flag :: rest)
  = reversal_spec AES_CBCDecrypt unquote b64decode cpx (flag :: rest)
  /\ forall cpx' img',
       cpx' = cpx -> img' = flag :: rest ->
       decrypt AES_CBCDecrypt unquote b64decode cpx' true img'
       = decrypt AES_CBCDecrypt unquote b64decode cpx true (flag :: rest).
Proof.
  intros Hcpx Hflag. split; [|now intros ? ? -> ->].
  unfold decrypt, reversal_spec.
  destruct cpx as [|c cpx]; [congruence|]. cbn [is_empty orb negb].
  destruct (b64decode (unquote (c :: cpx))) as [parameter|x]; [|reflexivity].
  rewrite (proj2 (N.eqb_neq _ _) Hflag).
  rewrite int_from_bytes_big_endian.
  unfold slice. rewrite key_after_region.
  change (76 - 60) with 16. change (5 - 1) with 4.
  rewrite Nat.sub_0_r, drop_0.
  replace (N.to_nat (big_endian (take 4 (drop 1 (flag :: rest)))) + 5 - 5)
    with (N.to_nat (big_endian (take 4 (drop 1 (flag :: rest))))) by lia.
  reflexivity.
Qed.
End Reversal.

(** C5 on a nine-byte buffer: flag 1, length 2, ciphertext [10 11], key
    [12 13]. *)
Lemma decrypt_matches_reversal_spec_witness :
  Demo.decrypt (py "AAAA") true [x01; x00; x00; x00; x02; x10; x11; x12; x13]
  = Demo.reversal_spec (py "AAAA") [x01; x00; x00; x00; x02; x10; x11; x12; x13].
Proof.
  refine (proj1 (decrypt_matches_reversal_spec Demo.AES_CBCDecrypt Demo.unquote
                   Demo.b64decode (py "AAAA") x01 [x00; x00; x00; x02; x10; x11; x12; x13]
                   _ _)).
  - discriminate.
  - vm_compute. discriminate.
Defined.

Example decrypt_example :
  Demo.decrypt (py "AAAA") true [x01; x00; x00; x00; x02; x10; x11; x12; x13]
  = Returned [x11; x10].
Proof. reflexivity. Qed.

(** ** Retry *)

Lemma retry_invariant {S A} (P : S -> Prop) (f : S -> S * outcome A) :
  (forall s s' r, P s -> f s = (s', r) -> P s') ->
  forall n s s' r, P s -> retry n f s = (s', r) -> P s'.
Proof.
  intros Hf n. induction n as [|n IH]; intros s s' r Hs; simpl;
    destruct (f s) as [s1 [a|x]] eqn:E; intros [= <- <-] || intros H; eauto.
Qed.

Lemma retry_raised {S A} (Q : exn -> Prop) (f : S -> S * outcome A) :
  (forall s s' x, f s = (s', Raised x) -> Q x) ->
  forall n s s' x, retry n f s = (s', Raised x) -> Q x.
Proof.
  intros Hf n. induction n as [|n IH]; intros s s' x; simpl;
    destruct (f s) as [s1 [a|y]] eqn:E; intros H; try discriminate.
  - injection H as <- <-. eauto.
  - eauto.
Qed.

(** ** What the primitives leave alone *)

Lemma warnings_emit (ev : event) (w : world) :
  warnings (emit ev w) = (if is_warning_box ev then S (warnings w) else warnings w).
Proof.
  unfold warnings, emit. cbn [trace]. rewrite List.filter_app, length_app.
  cbn [List.filter]. destruct (is_warning_box ev); simpl; lia.
Qed.

Lemma pop_fault_trace (w w' : world) (f : bool) :
  pop_fault w = (f, w') -> trace w' = trace w /\ files w' = files w
                           /\ need_sms_verify w' = need_sms_verify w.
Proof.
  unfold pop_fault. destruct (faults w); intros [= <- <-]; auto.
Qed.

Lemma pop_reply_trace (w w' : world) (r : reply) :
  pop_reply w = (r, w') -> trace w' = trace w /\ need_sms_verify w' = need_sms_verify w.
Proof.
  unfold pop_reply. destruct (net w); intros [= <- <-]; auto.
Qed.

Lemma pop_reply_raise (w w' : world) (x : exn) :
  pop_reply w = (NetRaise x, w') -> x = ConnectionError.
Proof.
  unfold pop_reply. destruct (net w) as [|[res|] rest]; intros [= <- <-] || intros [=]; auto.
Qed.

Lemma os_remove_trace (p : pystr) (w w' : world) (r : outcome unit) :
  os_remove p w = (w', r) -> trace w' = trace w /\ need_sms_verify w' = need_sms_verify w.
Proof.
  unfold os_remove. destruct (pop_fault w) as [f w1] eqn:E.
  apply pop_fault_trace in E as (Ht & _ & Hn).
  destruct f; [|destruct (files w1 !! p)]; intros [= <- <-]; auto.
Qed.

Lemma os_remove_raised (p : pystr) (w w' : world) (x : exn) :
  os_remove p w = (w', Raised x) -> is_OSError x = true.
Proof.
  unfold os_remove. destruct (pop_fault w) as [f w1].
  destruct f; [|destruct (files w1 !! p)]; intros [= <- <-] || intros [=]; auto.
Qed.

Lemma write_file_trace (p : pystr) (d : list byte) (w w' : world) (r : outcome unit) :
  write_file p d w = (w', r) -> trace w' = trace w /\ need_sms_verify w' = need_sms_verify w.
Proof.
  unfold write_file. destruct (pop_fault w) as [f w1] eqn:E.
  apply pop_fault_trace in E as (Ht & _ & Hn).
  destruct f; intros [= <- <-]; auto.
Qed.


Lemma warnings_trace (w w' : world) : trace w' = trace w -> warnings w' = warnings w.
Proof. unfold warnings. now intros ->. Qed.

(** ** [downloadImg] *)

Section Download.
Variable MAX_RETRY_LARGE : nat.
Variable isCheckSumValid : pystr -> list byte -> bool * pystr.
Variable AES_CBCDecrypt : list byte -> list byte -> list byte -> outcome (list byte).
Variable unquote : pystr -> pystr.
Variable b64decode : pystr -> outcome (list byte).
Variable lower : pystr -> pystr.
Variable path_join : pystr -> pystr -> pystr.
Variable cfg : config.

Local Abbreviation downloadImg' :=
  (downloadImg MAX_RETRY_LARGE isCheckSumValid AES_CBCDecrypt unquote b64decode
     lower path_join cfg).
Local Abbreviation process_image' :=
  (process_image isCheckSumValid AES_CBCDecrypt unquote b64decode cfg).
Local Abbreviation decrypt' := (decrypt AES_CBCDecrypt unquote b64decode).










(** Without the integrity check, the bytes that are staged are the bytes
    the decryption step returns. *)
Lemma process_image_decrypts (cpx : pystr) (img img' : list byte) (md5 : pystr)
  (hit_encrypt : bool) (w : world) :
  hash_check cfg = false ->
  decrypt' cpx hit_encrypt img = Returned img' ->
  process_image' cpx img md5 hit_encrypt w = (w, Returned img').
Proof.
  intros Hc Hd. unfold process_image. cbn [retry stop_max_attempt_number pred].
  now rewrite Hd, Hc.
Qed.
(** C1. With the integrity check enabled, once a download has succeeded and
    the checksum of the final bytes differs from the [Etag], [downloadImg]
    logs the mismatch, sends one warning and raises the [HTTPError]: the
    [raise] is outside every [retry], so no further request is made and no
    sentinel is returned. *)
Theorem downloadImg_checksum_mismatch_raises (e : Episode) (index : Z)
  (img_url cpx : pystr) (w w1 : world) (img img' : list byte) (md5 : pystr)
  (hit_encrypt : bool) :
  hash_check cfg = true ->
  retry MAX_RETRY_LARGE (get_image img_url) w = (w1, Returned (img, md5, hit_encrypt)) ->
  decrypt' cpx hit_encrypt img = Returned img' ->
  (isCheckSumValid md5 img').1 = false ->
  let w' := (downloadImg' e index img_url cpx w).1 in
  downloadImg' e index img_url cpx w = (w', Raised HTTPError) /\
  trace w' = trace w1 ++ [LogWarning Checksum; LogError ImgProcess;
                          LogException ImgProcess; WarningBox ImgProcess] /\
  downloads w' = downloads w1 /\
  net w' = net w1.
Proof.
  intros Hcheck Hget Hdec Hbad. unfold downloadImg.
  rewrite Hget. unfold process_image.
  cbn [retry stop_max_attempt_number pred]. rewrite Hdec, Hcheck.
  destruct (isCheckSumValid md5 img') as [isValid img_md5]. cbn in Hbad. subst isValid.
  cbn. rewrite <- !app_assoc. cbn. repeat split.
  unfold downloads. cbn. rewrite List.filter_app, length_app. cbn. lia.
Qed.
End Download.

(** C1 on a schedule of one transport failure, one image with a wrong
    [Etag] and one that would pass: the third reply is never asked for. *)
Lemma downloadImg_checksum_mismatch_raises_witness :
  let r := Demo.downloadImg (Demo.cfg (py "jpg") true) (Demo.episode [] []) 2
             (py "http://h/a.jpg?token=x") (py "k") Demo.w_bad in
  r = (r.1, Raised HTTPError) /\
  trace r.1 = trace (retry 3 (get_image (py "http://h/a.jpg?token=x")) Demo.w_bad).1
              ++ [LogWarning Checksum; LogError ImgProcess;
                  LogException ImgProcess; WarningBox ImgProcess] /\
  downloads r.1 = downloads (retry 3 (get_image (py "http://h/a.jpg?token=x")) Demo.w_bad).1 /\
  net r.1 = net (retry 3 (get_image (py "http://h/a.jpg?token=x")) Demo.w_bad).1.
Proof.
  apply (downloadImg_checksum_mismatch_raises 3 Demo.isCheckSumValid Demo.AES_CBCDecrypt
           Demo.unquote Demo.b64decode Demo.lower Demo.path_join
           (Demo.cfg (py "jpg") true) (Demo.episode [] []) 2
           (py "http://h/a.jpg?token=x") (py "k") Demo.w_bad
           (retry 3 (get_image (py "http://h/a.jpg?token=x")) Demo.w_bad).1
           [x01; x02; x03] [x01; x02; x03] (py "9") false).
  - reflexivity.
  - vm_compute. reflexivity.
  - reflexivity.
  - reflexivity.
Defined.

Example downloadImg_checksum_mismatch_example :
  let r := Demo.downloadImg (Demo.cfg (py "jpg") true) (Demo.episode [] []) 2
             (py "http://h/a.jpg?token=x") (py "k") Demo.w_bad in
  r.2 = Raised HTTPError /\ downloads r.1 = 2 /\ length (net r.1) = 1.
Proof. vm_compute. repeat split. Qed.

(** ** [clear] *)

Lemma remove_first_last (x : pystr) (l : list pystr) :
  x ∉ l -> remove_first x (l ++ [x]) = l.
Proof.
  induction l as [|y l IH]; intros Hx; simpl.
  - now rewrite str_eqb_refl.
  - apply not_elem_of_cons in Hx as [Hxy Hx].
    destruct (str_eqb x y) eqn:E; [apply str_eqb_eq in E; congruence|].
    now rewrite IH.
Qed.

Lemma clear_loop_frame (k : nat) (w w' : world) (l l' : list pystr) (r : outcome unit) :
  clear_loop k (w, l) = ((w', l'), r) ->
  trace w' = trace w /\ need_sms_verify w' = need_sms_verify w.
Proof.
  revert w l. induction k as [|k IH]; intros w l; cbn [clear_loop].
  - intros [= <- <- <-]. auto.
  - destruct (l !! k) as [img|]; [|intros [= <- <- <-]; auto].
    destruct (os_remove img w) as [w1 [[]|x]] eqn:E;
      apply os_remove_trace in E as [Ht Hn].
    + intros H. apply IH in H as [? ?]. split; congruence.
    + intros [= <- <- <-]. auto.
Qed.

Lemma clear_loop_raised (k : nat) (w w' : world) (l l' : list pystr) (x : exn) :
  clear_loop k (w, l) = ((w', l'), Raised x) -> is_OSError x = true.
Proof.
  revert w l. induction k as [|k IH]; intros w l; cbn [clear_loop].
  - intros [=].
  - destruct (l !! k) as [img|]; [|intros [=]].
    destruct (os_remove img w) as [w1 [[]|y]] eqn:E.
    + apply IH.
    + intros [= <- <- <-]. now apply os_remove_raised in E.
Qed.

(** The removal of the last path is the first: when it raises, so does
    [clear], and the list is as it was. *)
Lemma clear_last_raises (l : list pystr) (p : pystr) (w w1 : world) (x : exn) :
  os_remove p w = (w1, Raised x) ->
  clear (l ++ [p]) w = ((w1, l ++ [p]), Raised x).
Proof.
  intros H. unfold clear. rewrite length_app, Nat.add_comm. cbn [length Nat.add clear_loop].
  rewrite lookup_app_r, Nat.sub_diag by lia. cbn [lookup list_lookup]. now rewrite H.
Qed.

Lemma os_remove_ok (p : pystr) (w : world) :
  faults w = [] -> is_Some (files w !! p) ->
  os_remove p w = (set_files (delete p (files w)) w, Returned ()).
Proof.
  intros Hf [d Hd]. unfold os_remove, pop_fault. rewrite Hf. now rewrite Hd.
Qed.

Lemma clear_all (l : list pystr) (w : world) :
  faults w = [] -> NoDup l -> (forall p, p ∈ l -> is_Some (files w !! p)) ->
  clear l w = ((set_files (foldr delete (files w) l) w, []), Returned ()).
Proof.
  revert w. induction l as [|x l IH] using rev_ind; intros w Hf Hnd Hex.
  - unfold clear. cbn. destruct w; reflexivity.
  - apply NoDup_app in Hnd as (Hnd & Hdisj & _).
    assert (Hx : x ∉ l) by (intros Hin; apply (Hdisj x Hin); left).
    unfold clear. rewrite length_app, Nat.add_comm. cbn [length Nat.add clear_loop].
    rewrite lookup_app_r, Nat.sub_diag by lia. cbn [lookup list_lookup].
    rewrite os_remove_ok; [|assumption|apply Hex; apply elem_of_app; right; left].
    rewrite remove_first_last by assumption.
    fold (clear l (set_files (delete x (files w)) w)).
    rewrite IH; [|assumption|assumption|].
    + rewrite foldr_app. destruct w; reflexivity.
    + intros p Hp. cbn [files set_files]. rewrite lookup_delete_ne.
      * apply Hex. apply elem_of_app. now left.
      * intros ->. contradiction.
Qed.

Lemma os_remove_scheduled_ok (p : pystr) (w : world) (fs : list bool) :
  faults w = false :: fs -> is_Some (files w !! p) ->
  os_remove p w = (set_files (delete p (files w)) (set_faults fs w), Returned ()).
Proof.
  intros Hf [d Hd]. unfold os_remove, pop_fault. rewrite Hf.
  cbn [files set_faults]. now rewrite Hd.
Qed.

Lemma os_remove_scheduled_fault (p : pystr) (w : world) (fs : list bool) :
  faults w = true :: fs ->
  os_remove p w = (set_faults fs w, Raised PermissionError).
Proof. intros Hf. unfold os_remove, pop_fault. now rewrite Hf. Qed.

(** The pass stops at the first removal that fails: the paths after it in
    the list have been removed, it and the paths before it stay. *)
Lemma clear_stops_at_fault (l2 : list pystr) : forall (l1 : list pystr) (p : pystr)
  (w : world) (rest : list bool),
  NoDup (l1 ++ p :: l2) ->
  faults w = replicate (length l2) false ++ true :: rest ->
  (forall q, q ∈ l2 -> is_Some (files w !! q)) ->
  clear (l1 ++ p :: l2) w
  = ((set_files (foldr delete (files w) l2) (set_faults rest w), l1 ++ [p]),
     Raised PermissionError).
Proof.
  induction l2 as [|x l IH] using rev_ind; intros l1 p w rest Hnd Hf Hex.
  - cbn [length replicate app] in Hf.
    unfold clear. rewrite length_app, Nat.add_comm. cbn [length Nat.add clear_loop].
    rewrite lookup_app_r, Nat.sub_diag by lia. cbn [lookup list_lookup foldr].
    rewrite (os_remove_scheduled_fault _ _ _ Hf). destruct w; reflexivity.
  - rewrite length_app, Nat.add_comm in Hf. cbn [length Nat.add replicate app] in Hf.
    assert (Hsplit : l1 ++ p :: l ++ [x] = (l1 ++ p :: l) ++ [x])
      by now rewrite <- app_assoc.
    rewrite Hsplit in Hnd |- *.
    apply NoDup_app in Hnd as (Hnd & Hdisj & _).
    assert (Hx : x ∉ l1 ++ p :: l) by (intros Hin; apply (Hdisj x Hin); left).
    unfold clear. rewrite length_app, Nat.add_comm. cbn [length Nat.add clear_loop].
    rewrite lookup_app_r, Nat.sub_diag by lia. cbn [lookup list_lookup].
    rewrite (os_remove_scheduled_ok x w _ Hf);
      [|apply Hex; apply elem_of_app; right; left].
    rewrite remove_first_last by assumption.
    set (w1 := set_files (delete x (files w)) (set_faults _ w)).
    fold (clear (l1 ++ p :: l) w1).
    rewrite (IH l1 p w1 rest); [|assumption|reflexivity|].
    + rewrite foldr_app. destruct w; reflexivity.
    + intros q Hq. unfold w1. cbn [files set_files set_faults].
      rewrite lookup_delete_ne.
      * apply Hex. apply elem_of_app. now left.
      * intros ->. apply Hx. apply elem_of_app. right. now right.
Qed.

(** C7, amended. [clear] removes the staged files from the last to the
    first in one pass and emits no event. An exception it raises is the
    [OSError] of a failed removal, which is not caught: the pass stops at
    the first removal that meets a fault and [clear] raises its
    [PermissionError]; the paths behind the failing one have been removed,
    it and the paths before it stay in the list. When no removal fails,
    every listed file is deleted and the list is emptied. *)
Theorem clear_single_pass_raises (imgs_path : list pystr) (w : world) :
  trace (clear imgs_path w).1.1 = trace w /\
  (forall x, (clear imgs_path w).2 = Raised x -> is_OSError x = true) /\
  (forall l1 p l2 rest,
     imgs_path = l1 ++ p :: l2 -> NoDup imgs_path ->
     faults w = replicate (length l2) false ++ true :: rest ->
     (forall q, q ∈ l2 -> is_Some (files w !! q)) ->
     clear imgs_path w
     = ((set_files (foldr delete (files w) l2) (set_faults rest w), l1 ++ [p]),
        Raised PermissionError)) /\
  (faults w = [] -> NoDup imgs_path ->
   (forall p, p ∈ imgs_path -> is_Some (files w !! p)) ->
   clear imgs_path w = ((set_files (foldr delete (files w) imgs_path) w, []), Returned ())).
Proof.
  destruct (clear imgs_path w) as [[w' l'] r] eqn:E. cbn [fst snd].
  split; [|split; [|split]].
  - unfold clear in E. now apply clear_loop_frame in E.
  - intros x ->. unfold clear in E. now apply clear_loop_raised in E.
  - intros l1 p l2 rest -> Hnd Hf Hex. rewrite <- E. now apply clear_stops_at_fault.
  - intros Hf Hnd Hex. rewrite <- E. now apply clear_all.
Qed.

(** ** [clearAfterSave] *)




(** C7, as stated, fails: when the removal of the second staged file meets
    a lock, [clear] raises [PermissionError] to its caller; the third file
    is gone, the first two are still staged. *)
Lemma clear_lets_oserror_through :
  let r := clear Demo.staged_paths (Demo.with_faults [false; true] Demo.staged_world) in
  r.2 = Raised PermissionError /\
  r.1.2 = [py "/dl/comic/7_1.jpg"; py "/dl/comic/7_2.png"] /\
  files r.1.1 !! py "/dl/comic/7_3.jpg" = None /\
  files r.1.1 !! py "/dl/comic/7_2.png" = Some [x89] /\
  trace r.1.1 = [].
Proof. vm_compute. repeat split. Qed.

(** C7, amended, on three staged files and no fault. *)
Lemma clear_single_pass_raises_witness :
  clear Demo.staged_paths Demo.staged_world
  = ((set_files (foldr delete (files Demo.staged_world) Demo.staged_paths)
        Demo.staged_world, []), Returned ()).
Proof.
  refine (proj2 (proj2 (proj2
            (clear_single_pass_raises Demo.staged_paths Demo.staged_world))) _ _ _).
  - reflexivity.
  - apply (bool_decide_unpack _). vm_compute. exact I.
  - apply Forall_forall. apply (bool_decide_unpack _). vm_compute. exact I.
Defined.

(** ** [saveToFolder] *)

Lemma pop_fault_none (w : world) : faults w = [] -> pop_fault w = (false, w).
Proof. unfold pop_fault. now intros ->. Qed.

Lemma warnings_set_files (f : gmap pystr (list byte)) (w : world) :
  warnings (set_files f w) = warnings w.
Proof. reflexivity. Qed.

Section FolderLoop.
Variable path_join : pystr -> pystr -> pystr.
Variable piexif_insert : list byte -> outcome (list byte).
Variable e : Episode.

Local Abbreviation embed_exif' := (embed_exif piexif_insert e).
Local Abbreviation saveToFolder_loop' := (saveToFolder_loop path_join piexif_insert e).
Local Abbreviation destinations_from' := (destinations_from path_join e).
Local Abbreviation staged_content' := (staged_content piexif_insert e).

(** Without faults, and when [piexif.insert] raises nothing but
    [InvalidImageDataError] on the file, the metadata step returns, sends
    no warning box, and leaves in the file what [staged_content] says. *)
Lemma embed_exif_ok (p : pystr) (data : list byte) (w : world) :
  faults w = [] -> files w !! p = Some data ->
  (exif_setting e = true -> last_field (split_char c_dot p) = py "jpg" ->
   piexif_contained piexif_insert data) ->
  exists w1,
    embed_exif' p w = (w1, Returned ()) /\ faults w1 = [] /\
    warnings w1 = warnings w /\
    files w1 = <[p := staged_content' p data]> (files w).
Proof.
  intros Hf Hd Hc. unfold embed_exif, staged_content.
  destruct (exif_setting e); cbn [andb].
  2:{ exists w. now rewrite insert_id. }
  destruct (str_eqb _ (py "jpg")) eqn:Eext.
  2:{ exists w. now rewrite insert_id. }
  apply str_eqb_eq in Eext. specialize (Hc eq_refl Eext).
  unfold jpg_exif. rewrite pop_fault_none, Hd by assumption.
  destruct (piexif_insert data) as [d'|x] eqn:Ep.
  - eexists. repeat split; assumption.
  - rewrite (Hc x Ep).
    eexists. split; [reflexivity|]. cbn [emits fold_left].
    rewrite !warnings_emit. cbn. repeat split; try assumption.
    now rewrite insert_id.
Qed.

Lemma shutil_move_ok (src dst : pystr) (data : list byte) (w : world) :
  faults w = [] -> files w !! src = Some data ->
  shutil_move src dst w
  = (set_files (<[dst := data]> (delete src (files w))) w, Returned ()).
Proof.
  intros Hf Hd. unfold shutil_move. now rewrite pop_fault_none, Hd.
Qed.

Lemma saveToFolder_loop_ok (imgs : list pystr) : forall (k : N) (w : world),
  faults w = [] ->
  NoDup imgs ->
  (forall p, p ∈ imgs -> is_Some (files w !! p)) ->
  NoDup (destinations_from' k imgs) ->
  (forall p, p ∈ imgs -> p ∉ destinations_from' k imgs) ->
  exif_contained piexif_insert e imgs w ->
  exists w',
    saveToFolder_loop' k imgs w = (w', Returned ()) /\
    faults w' = [] /\ warnings w' = warnings w /\
    (forall i p d, imgs !! i = Some p -> destinations_from' k imgs !! i = Some d ->
       files w' !! d = staged_content' p <$> files w !! p) /\
    (forall p, p ∈ imgs -> files w' !! p = None) /\
    (forall q, q ∉ imgs -> q ∉ destinations_from' k imgs -> files w' !! q = files w !! q).
Proof.
  induction imgs as [|p rest IH]; intros k w Hf Hnd Hex Hdd Hdisj Hsafe.
  - exists w. cbn. repeat split; try assumption; try reflexivity.
    + intros i p d H. discriminate.
    + intros p H. now apply elem_of_nil in H.
  - cbn [saveToFolder_loop destinations_from] in *.
    set (dst := path_join (epi_path e) (folder_name k p)) in *.
    destruct (Hex p) as [data Hdata]; [left|].
    destruct (embed_exif_ok p data w Hf Hdata) as (w1 & -> & Hf1 & Hw1 & Hfiles1).
    { intros He Hext. apply (Hsafe p data); [left | assumption..]. }
    assert (Hp1 : files w1 !! p = Some (staged_content' p data))
      by (rewrite Hfiles1; apply lookup_insert_eq).
    rewrite (shutil_move_ok _ _ _ _ Hf1 Hp1).
    rewrite Hfiles1, delete_insert_eq.
    set (w2 := set_files _ w1).
    apply NoDup_cons in Hnd as [Hp_rest Hnd].
    apply NoDup_cons in Hdd as [Hdst_rest Hdd].
    assert (Hp_dst : p <> dst).
    { intros Heq. apply (Hdisj p); [left|]. rewrite Heq at 1. left. }
    assert (Hrest_ne : forall q, q ∈ rest -> q <> p /\ q <> dst).
    { intros q Hq. split; [intros ->; contradiction|].
      intros ->. apply (Hdisj dst); [now right | left]. }
    assert (Hlook2 : forall q, q <> p -> q <> dst -> files w2 !! q = files w !! q).
    { intros q H1 H2. unfold w2. cbn [files set_files].
      rewrite lookup_insert_ne, lookup_delete_ne by congruence. reflexivity. }
    destruct (IH (N.succ k) w2) as (w' & Hrun & Hf' & Hw' & Hd' & Hs' & Hu').
    + exact Hf1.
    + exact Hnd.
    + intros q Hq. destruct (Hrest_ne q Hq). rewrite Hlook2 by assumption.
      apply Hex. now right.
    + exact Hdd.
    + intros q Hq Hin. apply (Hdisj q); [now right | now right].
    + intros q d Hq Hd He Hext. destruct (Hrest_ne q Hq).
      rewrite Hlook2 in Hd by assumption.
      apply (Hsafe q d); [now right | assumption..].
    + exists w'. split; [exact Hrun|]. split; [exact Hf'|].
      split; [rewrite Hw'; exact Hw1|].
      assert (Hp_dests : p ∉ destinations_from' (N.succ k) rest).
      { intros Hin. apply (Hdisj p); [left | now right]. }
      assert (Hdst_src : dst ∉ rest).
      { intros Hin. apply (Hdisj dst); [now right | left]. }
      split; [|split].
      * intros [|i] q d Hq Hdq; cbn in Hq, Hdq.
        -- injection Hq as <-. injection Hdq as <-.
           rewrite Hu' by assumption. unfold w2. cbn [files set_files].
           rewrite lookup_insert_eq, Hdata. reflexivity.
        -- rewrite (Hd' i q d Hq Hdq).
           assert (Hqr : q ∈ rest) by (eapply list_elem_of_lookup_2; eauto).
           destruct (Hrest_ne q Hqr). now rewrite Hlook2.
      * intros q Hq. apply elem_of_cons in Hq as [-> | Hq]; [|now apply Hs'].
        rewrite Hu' by assumption. unfold w2. cbn [files set_files].
        rewrite lookup_insert_ne, lookup_delete_eq by congruence. reflexivity.
      * intros q Hq Hqd.
        apply not_elem_of_cons in Hq as [Hqp Hq].
        apply not_elem_of_cons in Hqd as [Hqdst Hqd].
        rewrite Hu' by assumption. now apply Hlook2.
Qed.
End FolderLoop.

Lemma os_makedirs_frame (p : pystr) (w w' : world) (r : outcome unit) :
  os_makedirs p w = (w', r) ->
  trace w' = trace w /\ need_sms_verify w' = need_sms_verify w /\ files w' = files w
  /\ (faults w = [] -> faults w' = [])
  /\ (forall x, r = Raised x -> is_OSError x = true).
Proof.
  unfold os_makedirs. destruct (pop_fault w) as [f w1] eqn:E.
  assert (Hfl : faults w = [] -> faults w1 = [] /\ f = false).
  { intros H. rewrite pop_fault_none in E by assumption. injection E as <- <-. auto. }
  apply pop_fault_trace in E as (Ht & Hfi & Hn).
  destruct f; [|destruct (os_path_exists p w1)]; intros [= <- <-];
    (repeat split; try assumption; try (intros H; apply Hfl in H as [? ?]; assumption || discriminate);
     try (intros x [= <-]; reflexivity); try (intros x [=])).
Qed.

Lemma shutil_move_frame (src dst : pystr) (w w' : world) (r : outcome unit) :
  shutil_move src dst w = (w', r) ->
  trace w' = trace w /\ need_sms_verify w' = need_sms_verify w
  /\ (forall x, r = Raised x -> is_OSError x = true).
Proof.
  unfold shutil_move. destruct (pop_fault w) as [f w1] eqn:E.
  apply pop_fault_trace in E as (Ht & _ & Hn).
  destruct f; [|destruct (files w1 !! src)]; intros [= <- <-];
    (repeat split; try assumption; try (intros x [= <-]; reflexivity); try (intros x [=])).
Qed.

Section Folder.
Variable path_join : pystr -> pystr -> pystr.
Variable piexif_insert : list byte -> outcome (list byte).
Variable e : Episode.

Local Abbreviation embed_exif' := (embed_exif piexif_insert e).
Local Abbreviation saveToFolder_loop' := (saveToFolder_loop path_join piexif_insert e).
Local Abbreviation saveToFolder_attempt' := (saveToFolder_attempt path_join piexif_insert e).
Local Abbreviation saveToFolder' := (saveToFolder path_join piexif_insert e).
Local Abbreviation destinations_from' := (destinations_from path_join e).
Local Abbreviation destinations' := (destinations path_join e).
Local Abbreviation staged_content' := (staged_content piexif_insert e).

Lemma jpg_exif_frame (p : pystr) (w w' : world) (r : outcome unit) :
  jpg_exif piexif_insert p w = (w', r) ->
  trace w' = trace w /\ need_sms_verify w' = need_sms_verify w
  /\ (forall x, r = Raised x ->
        is_OSError x = true \/ exists d, piexif_insert d = Raised x).
Proof.
  unfold jpg_exif. destruct (pop_fault w) as [f w1] eqn:E.
  apply pop_fault_trace in E as (Ht & _ & Hn).
  destruct f; [|destruct (files w1 !! p) as [d|];
                 [destruct (piexif_insert d) as [d'|y] eqn:Ep|]];
    intros [= <- <-];
    (repeat split; try assumption; try (intros x [= <-]; eauto); try (intros x [=])).
Qed.

(** What the metadata step lets through: an [OSError], or, with
    [exif_setting], whatever [piexif.insert] raises that is not an
    [InvalidImageDataError]. *)
Lemma embed_exif_frame (p : pystr) (w w' : world) (r : outcome unit) :
  embed_exif' p w = (w', r) ->
  warnings w' = warnings w /\ need_sms_verify w' = need_sms_verify w
  /\ (forall x, r = Raised x ->
        is_OSError x = true \/
        (exif_setting e = true /\ x <> InvalidImageDataError /\
         exists d, piexif_insert d = Raised x)).
Proof.
  unfold embed_exif.
  destruct (exif_setting e); [|intros [= <- <-]; repeat split; intros x [=]].
  destruct (str_eqb _ _); [|intros [= <- <-]; repeat split; intros x [=]].
  destruct (jpg_exif piexif_insert p w) as [w1 r1] eqn:E.
  apply jpg_exif_frame in E as (Ht & Hn & Hr). apply warnings_trace in Ht.
  destruct r1 as [[]|x].
  - intros [= <- <-]. repeat split; try assumption. intros x [=].
  - specialize (Hr x eq_refl).
    destruct x;
      try (intros [= <- <-]; repeat split; try assumption; intros y [= <-];
           destruct Hr as [Hr | Hr]; [now left | right; repeat split; [discriminate | exact Hr]]).
    intros [= <- <-]. cbn [emits fold_left]. rewrite !warnings_emit. cbn.
    repeat split; try assumption. intros y [=].
Qed.

Lemma saveToFolder_loop_frame (imgs : list pystr) : forall (k : N) (w w' : world) r,
  saveToFolder_loop' k imgs w = (w', r) ->
  warnings w' = warnings w /\ need_sms_verify w' = need_sms_verify w
  /\ (forall x, r = Raised x ->
        is_OSError x = true \/
        (exif_setting e = true /\ x <> InvalidImageDataError /\
         exists d, piexif_insert d = Raised x)).
Proof.
  induction imgs as [|p rest IH]; intros k w w' r; cbn [saveToFolder_loop].
  - intros [= <- <-]. repeat split. intros x [=].
  - destruct (embed_exif' p w) as [w1 r1] eqn:E1.
    apply embed_exif_frame in E1 as (Hw1 & Hn1 & Hr1).
    destruct r1 as [[]|x].
    2:{ intros [= <- <-]. repeat split; assumption. }
    destruct (shutil_move p _ w1) as [w2 r2] eqn:E2.
    apply shutil_move_frame in E2 as (Ht2 & Hn2 & Hr2). apply warnings_trace in Ht2.
    destruct r2 as [[]|x].
    2:{ intros [= <- <-]. repeat split; try congruence. intros y Hy. left. now apply Hr2. }
    intros H. apply IH in H as (? & ? & ?). repeat split; try congruence. assumption.
Qed.

Lemma saveToFolder_attempt_frame (imgs : list pystr) (w w' : world) r :
  saveToFolder_attempt' imgs w = (w', r) ->
  warnings w' = warnings w /\ need_sms_verify w' = need_sms_verify w
  /\ (forall x, r = Raised x ->
        is_OSError x = true \/
        (exif_setting e = true /\ x <> InvalidImageDataError /\
         exists d, piexif_insert d = Raised x)).
Proof.
  unfold saveToFolder_attempt.
  destruct (saveToFolder_loop' 1 imgs w) as [w1 r1] eqn:E.
  apply saveToFolder_loop_frame in E as (Hw & Hn & Hr).
  destruct r1 as [[]|x]; intros [= <- <-].
  - repeat split; assumption.
  - destruct (is_OSError x); [rewrite warnings_emit; cbn|]; repeat split; assumption.
Qed.

(** Whatever happens, [saveToFolder] leaves the lock-out flag alone and
    sends at most one warning; what it raises is no [OSError], and is
    something [piexif.insert] raised with [exif_setting] on. *)
Lemma saveToFolder_frame (imgs : list pystr) (w : world) :
  need_sms_verify (saveToFolder' imgs w).1 = need_sms_verify w /\
  (warnings (saveToFolder' imgs w).1 = warnings w \/
   warnings (saveToFolder' imgs w).1 = S (warnings w)) /\
  (forall x, (saveToFolder' imgs w).2 = Raised x ->
     is_OSError x = false /\ exif_setting e = true /\
     x <> InvalidImageDataError /\ exists d, piexif_insert d = Raised x).
Proof.
  unfold saveToFolder.
  set (first := if negb (os_path_exists (epi_path e) w)
                then os_makedirs (epi_path e) w else (w, Returned ())).
  assert (Hfirst : warnings first.1 = warnings w /\
                   need_sms_verify first.1 = need_sms_verify w /\
                   forall x, first.2 = Raised x -> is_OSError x = true).
  { unfold first. destruct (negb (os_path_exists (epi_path e) w)).
    - destruct (os_makedirs (epi_path e) w) as [w1 r1] eqn:E.
      apply os_makedirs_frame in E as (Ht & Hn & _ & _ & Hr).
      apply warnings_trace in Ht. auto.
    - cbn. repeat split. intros x [=]. }
  destruct first as [w1 r1]. cbn [fst snd] in Hfirst.
  destruct Hfirst as (Hw1 & Hn1 & Hr1).
  destruct r1 as [[]|x].
  - match goal with |- context [retry ?n ?f w1] =>
      destruct (retry n f w1) as [w2 r2] eqn:E end.
    assert (Hq : quiet w1 w2).
    { eapply (retry_invariant (quiet w1)) in E; [exact E| |split; reflexivity].
      intros s s' r [Hs1 Hs2] Hg. apply saveToFolder_attempt_frame in Hg as (? & ? & _).
      split; congruence. }
    destruct Hq as [Hw2 Hn2].
    destruct r2 as [[]|x].
    + cbn. split; [congruence|]. split; [left; congruence|]. intros x [=].
    + eapply (retry_raised
                (fun x => is_OSError x = true \/
                          (exif_setting e = true /\ x <> InvalidImageDataError /\
                           exists d, piexif_insert d = Raised x))) in E;
        [|intros s s' y Hy; apply saveToFolder_attempt_frame in Hy as (_ & _ & Hy);
          now apply Hy].
      destruct (is_OSError x) eqn:Ex.
      * cbn [fst snd emits fold_left]. rewrite !warnings_emit. cbn.
        split; [congruence|]. split; [right; congruence|]. intros y [=].
      * cbn [fst snd]. split; [congruence|]. split; [left; congruence|].
        intros y [= <-]. destruct E as [E | E]; [discriminate|]. tauto.
  - rewrite (Hr1 x eq_refl). cbn [fst snd emits fold_left]. rewrite !warnings_emit. cbn.
    split; [congruence|]. split; [right; congruence|]. intros y [=].
Qed.

(** When metadata embedding is off, or [piexif.insert] raises nothing but
    [InvalidImageDataError], [saveToFolder] returns; it sends at most one
    warning. *)
Lemma saveToFolder_returns (imgs : list pystr) (w : world) :
  exif_setting e = false \/ (forall d, piexif_contained piexif_insert d) ->
  (saveToFolder' imgs w).2 = Returned () /\
  need_sms_verify (saveToFolder' imgs w).1 = need_sms_verify w /\
  (warnings (saveToFolder' imgs w).1 = warnings w \/
   warnings (saveToFolder' imgs w).1 = S (warnings w)).
Proof.
  intros Hsafe. destruct (saveToFolder_frame imgs w) as (Hn & Hw & Hr).
  split; [|split; assumption].
  destruct (saveToFolder' imgs w).2 as [[]|x]; [reflexivity|].
  destruct (Hr x eq_refl) as (_ & He & Hx & d & Hd).
  destruct Hsafe as [Hoff | Hc]; [congruence|].
  destruct Hx. exact (Hc d x Hd).
Qed.

Lemma destinations_from_lookup (imgs : list pystr) : forall (k : N) (i : nat) (p : pystr),
  imgs !! i = Some p ->
  destinations_from' k imgs !! i
  = Some (path_join (epi_path e) (folder_name (k + N.of_nat i) p)).
Proof.
  induction imgs as [|q rest IH]; intros k i p H; [discriminate|].
  destruct i as [|i]; cbn in H |- *.
  - injection H as ->. now rewrite N.add_0_r.
  - rewrite (IH _ _ _ H). do 3 f_equal. lia.
Qed.

(** C8. When no file operation fails, the staged paths are distinct and
    exist, no destination is a staged path or the destination of another
    page, and [piexif.insert] raises nothing but [InvalidImageDataError] on
    the staged [jpg] files it is run on (it is run on none when metadata
    embedding is off), [saveToFolder] returns without a warning and the
    file staged at position [i] (from 0) is in the chapter folder under the
    zero-padded three-digit text of [i + 1], a dot and the text after the
    last dot of its path; the staged paths are gone and no other path is
    touched. *)
Theorem saveToFolder_moves_in_order (imgs_path : list pystr) (w : world) :
  faults w = [] ->
  NoDup imgs_path ->
  (forall p, p ∈ imgs_path -> is_Some (files w !! p)) ->
  NoDup (destinations' imgs_path) ->
  (forall p, p ∈ imgs_path -> p ∉ destinations' imgs_path) ->
  exif_contained piexif_insert e imgs_path w ->
  (saveToFolder' imgs_path w).2 = Returned () /\
  warnings (saveToFolder' imgs_path w).1 = warnings w /\
  (forall i p, imgs_path !! i = Some p ->
     files (saveToFolder' imgs_path w).1
       !! path_join (epi_path e)
            (zfill 3 (str_N (N.of_nat (S i))) ++ [c_dot]
               ++ last_field (split_char c_dot p))
     = staged_content' p <$> files w !! p) /\
  (forall p, p ∈ imgs_path -> files (saveToFolder' imgs_path w).1 !! p = None) /\
  (forall q, q ∉ imgs_path -> q ∉ destinations' imgs_path ->
     files (saveToFolder' imgs_path w).1 !! q = files w !! q).
Proof.
  intros Hf Hnd Hex Hdd Hdisj Hsafe. unfold saveToFolder.
  set (first := if negb (os_path_exists (epi_path e) w)
                then os_makedirs (epi_path e) w else (w, Returned ())).
  assert (Hfirst : exists w1, first = (w1, Returned ()) /\ faults w1 = [] /\
                     warnings w1 = warnings w /\ files w1 = files w).
  { unfold first. destruct (os_path_exists (epi_path e) w) eqn:Eex; cbn [negb].
    - exists w. auto.
    - unfold os_makedirs. rewrite pop_fault_none, Eex by assumption.
      eexists. split; [reflexivity|]. auto. }
  destruct Hfirst as (w1 & -> & Hf1 & Hw1 & Hfiles1).
  destruct (saveToFolder_loop_ok path_join piexif_insert e imgs_path 1%N w1)
    as (w' & Hrun & Hf' & Hw' & Hd' & Hs' & Hu'); try assumption.
  { intros p Hp. rewrite Hfiles1. now apply Hex. }
  { intros p d Hp Hd. rewrite Hfiles1 in Hd. now apply (Hsafe p d). }
  cbn [stop_max_attempt_number pred retry]. unfold saveToFolder_attempt.
  rewrite Hrun. cbn [fst snd].
  split; [reflexivity|]. split; [congruence|]. split; [|split].
  - intros i p Hp. rewrite <- Hfiles1.
    apply (Hd' i p); [assumption|].
    rewrite (destinations_from_lookup _ _ _ _ Hp). unfold folder_name.
    replace (1 + N.of_nat i)%N with (N.of_nat (S i)) by lia. reflexivity.
  - exact Hs'.
  - intros q Hq Hqd. rewrite <- Hfiles1. now apply Hu'.
Qed.
End Folder.

(** C8 on three staged pages, with metadata embedding on: a whole JPEG,
    which gets the metadata, a PNG, and a file named [.jpg] that is no
    JPEG, which is moved as it is. *)
Lemma saveToFolder_moves_in_order_witness :
  let r := Demo.saveToFolder Demo.episode_exif Demo.staged_paths Demo.staged_jpegs in
  r.2 = Returned () /\ warnings r.1 = 0 /\
  files r.1 !! py "/dl/comic/ch/001.jpg" = Some [xff; xd8; xff; xda; x45] /\
  files r.1 !! py "/dl/comic/ch/002.png" = Some [x89] /\
  files r.1 !! py "/dl/comic/ch/003.jpg" = Some [x00] /\
  files r.1 !! py "/dl/comic/7_1.jpg" = None.
Proof.
  destruct (saveToFolder_moves_in_order Demo.path_join Demo.piexif_insert
              Demo.episode_exif Demo.staged_paths Demo.staged_jpegs)
    as (Hr & Hw & Hd & Hs & _).
  - reflexivity.
  - apply (bool_decide_unpack _). vm_compute. exact I.
  - apply Forall_forall. apply (bool_decide_unpack _). vm_compute. exact I.
  - apply (bool_decide_unpack _). vm_compute. exact I.
  - apply Forall_forall. apply (bool_decide_unpack _). vm_compute. exact I.
  - intros p data Hp Hfile _ Hext x Hx.
    unfold Demo.staged_paths in Hp.
    repeat (apply elem_of_cons in Hp as [-> | Hp]);
      [| |  | now apply elem_of_nil in Hp];
      vm_compute in Hfile; injection Hfile as <-;
      vm_compute in Hx; vm_compute in Hext; congruence.
  - cbv zeta. split; [exact Hr|]. split; [exact Hw|].
    split; [exact (Hd 0%nat (py "/dl/comic/7_1.jpg") eq_refl)|].
    split; [exact (Hd 1%nat (py "/dl/comic/7_2.png") eq_refl)|].
    split; [exact (Hd 2%nat (py "/dl/comic/7_3.jpg") eq_refl)|].
    apply Hs. apply (bool_decide_unpack _). vm_compute. exact I.
Defined.

(** With metadata embedding on and a staged JPEG that is cut short,
    [piexif.insert] raises [struct.error], which no handler of
    [saveToFolder] catches: the call raises, sends no warning and moves
    nothing. *)
Example saveToFolder_truncated_jpeg_raises :
  let r := Demo.saveToFolder Demo.episode_exif Demo.staged_paths Demo.staged_world in
  r.2 = Raised StructError /\ warnings r.1 = 0 /\
  files r.1 = files Demo.staged_world.
Proof. vm_compute. repeat split. Qed.

Example folder_name_example :
  folder_name 1 (py "/dl/comic/7_1.jpg") = py "001.jpg" /\
  folder_name 12 (py "/dl/comic/7_12.png") = py "012.png" /\
  folder_name 1000 (py "/dl/comic/7_1000.webp") = py "1000.webp".
Proof. repeat split. Qed.

(** ** [init_imgsList] *)

Lemma requests_post_quiet (u : endpoint) (urls : list pystr) (w w' : world) (r : reply) :
  requests_post u urls w = (r, w') ->
  warnings w' = warnings w /\ need_sms_verify w' = need_sms_verify w
  /\ (forall x, r = NetRaise x -> is_RequestException x = true).
Proof.
  unfold requests_post. intros H.
  pose proof (pop_reply_trace _ _ _ H) as [Ht Hn].
  split; [|split].
  - rewrite (warnings_trace _ _ Ht), warnings_emit. reflexivity.
  - rewrite Hn. reflexivity.
  - intros x ->. now rewrite (pop_reply_raise _ _ _ H).
Qed.

Lemma fetch_images_frame (w w' : world) r :
  fetch_images w = (w', r) ->
  warnings w' = warnings w /\ need_sms_verify w' = need_sms_verify w
  /\ (forall x, r = Raised x -> is_RequestException x = true).
Proof.
  unfold fetch_images. destruct (requests_post _ _ w) as [rep w1] eqn:E.
  apply requests_post_quiet in E as (Hw & Hn & Hr).
  destruct rep as [y|res].
  - rewrite (Hr y eq_refl). intros [= <- <-]. rewrite warnings_emit. cbn.
    repeat split; try assumption. intros x [= <-]. now apply Hr.
  - destruct (negb (status_code res =? 200)%Z); intros [= <- <-];
      rewrite ?warnings_emit; cbn; repeat split; try assumption;
      intros x [= <-] || intros x [=]; reflexivity.
Qed.

Lemma fetch_tokens_frame (urls : list pystr) (w w' : world) r :
  fetch_tokens urls w = (w', r) ->
  warnings w' = warnings w /\ need_sms_verify w' = need_sms_verify w
  /\ (forall x, r = Raised x -> is_RequestException x = true).
Proof.
  unfold fetch_tokens. destruct (requests_post _ _ w) as [rep w1] eqn:E.
  apply requests_post_quiet in E as (Hw & Hn & Hr).
  destruct rep as [y|res].
  - rewrite (Hr y eq_refl). intros [= <- <-]. rewrite warnings_emit. cbn.
    repeat split; try assumption. intros x [= <-]. now apply Hr.
  - destruct (negb (status_code res =? 200)%Z || negb (json_code res =? 0)%Z);
      intros [= <- <-];
      rewrite ?warnings_emit; cbn; repeat split; try assumption;
      intros x [= <-] || intros x [=]; reflexivity.
Qed.

(** A format that the table does not hold: the first subscript raises. *)
Lemma add_suffix_missing (fmt : pystr) (imgs_urls : list pystr) :
  img_format_list !! fmt = None -> imgs_urls <> [] -> add_suffix fmt imgs_urls = None.
Proof.
  intros H Hne. destruct imgs_urls as [|u us]; [congruence|].
  unfold add_suffix. cbn [mapM]. cbv beta. now rewrite H.
Qed.

(** A format that the table holds: every path gets its suffix. *)
Lemma add_suffix_hit (fmt sfx : pystr) (imgs_urls : list pystr) :
  img_format_list !! fmt = Some sfx ->
  add_suffix fmt imgs_urls = Some (map (fun u => u ++ sfx) imgs_urls).
Proof.
  intros H. unfold add_suffix. induction imgs_urls as [|u us IH]; [reflexivity|].
  cbn [mapM map]. rewrite IH, H. reflexivity.
Qed.

Section Resolver.
Variable MAX_RETRY_SMALL : nat.
Variable cfg : config.

Local Abbreviation init_imgsList' := (init_imgsList MAX_RETRY_SMALL cfg).

Lemma retry_fetch_images (w w' : world) r :
  retry MAX_RETRY_SMALL fetch_images w = (w', r) ->
  quiet w w' /\ (forall x, r = Raised x -> is_RequestException x = true).
Proof.
  intros E. split.
  - eapply (retry_invariant (quiet w)) in E; [exact E| |split; reflexivity].
    intros s s' r0 [Hs1 Hs2] Hg. apply fetch_images_frame in Hg as (? & ? & _).
    split; congruence.
  - intros x ->.
    eapply (retry_raised (fun x => is_RequestException x = true)) in E; [exact E|].
    intros s s' y Hy. apply fetch_images_frame in Hy as (_ & _ & Hy). now apply Hy.
Qed.

Lemma retry_fetch_tokens (urls : list pystr) (w w' : world) r :
  retry MAX_RETRY_SMALL (fetch_tokens urls) w = (w', r) ->
  quiet w w' /\ (forall x, r = Raised x -> is_RequestException x = true).
Proof.
  intros E. split.
  - eapply (retry_invariant (quiet w)) in E; [exact E| |split; reflexivity].
    intros s s' r0 [Hs1 Hs2] Hg. apply fetch_tokens_frame in Hg as (? & ? & _).
    split; congruence.
  - intros x ->.
    eapply (retry_raised (fun x => is_RequestException x = true)) in E; [exact E|].
    intros s s' y Hy. apply fetch_tokens_frame in Hy as (_ & _ & Hy). now apply Hy.
Qed.

(** A format that the table does not hold: the subscript raises as soon
    as there is one image to suffix, before any token is asked for. *)
Lemma init_imgsList_table_miss (fmt : pystr) (e : Episode) (w w1 : world)
  (imgs_urls : list pystr) :
  img_format cfg = Some fmt ->
  img_format_list !! fmt = None ->
  retry MAX_RETRY_SMALL fetch_images w = (w1, Returned imgs_urls) ->
  imgs_urls <> [] ->
  init_imgsList' e w = (w1, e, Raised KeyError).
Proof.
  intros Hfmt Hmiss Hfetch Hne.
  unfold init_imgsList. rewrite Hfetch, Hfmt. cbn [default].
  now rewrite add_suffix_missing.
Qed.

(** How [init_imgsList] ends. *)
Lemma init_imgsList_outcomes (e : Episode) (w : world) :
  let '(w', _, r) := init_imgsList' e w in
  (need_sms_verify w = true -> need_sms_verify w' = true) /\
  match r with
  | Returned true =>
      need_sms_verify w = false /\ need_sms_verify w' = false /\ warnings w' = warnings w
  | Returned false =>
      need_sms_verify w' = true \/ warnings w' = S (warnings w)
  | Raised x =>
      (x = KeyError \/ x = IndexError \/ x = TypeError) /\ warnings w' = warnings w
  end.
Proof.
  unfold init_imgsList.
  destruct (retry MAX_RETRY_SMALL fetch_images w) as [w1 r1] eqn:E1.
  apply retry_fetch_images in E1 as [[Hw1 Hn1] Hr1].
  destruct r1 as [imgs_urls|x].
  2:{ rewrite (Hr1 x eq_refl). cbn [emits fold_left]. rewrite !warnings_emit. cbn.
      split; [congruence|]. right. congruence. }
  destruct (add_suffix _ imgs_urls) as [urls|].
  2:{ split; [congruence|]. split; [auto | assumption]. }
  destruct (retry MAX_RETRY_SMALL (fetch_tokens urls) w1) as [w2 r2] eqn:E2.
  apply retry_fetch_tokens in E2 as [[Hw2 Hn2] Hr2].
  destruct r2 as [tokens|x].
  2:{ rewrite (Hr2 x eq_refl). cbn [emits fold_left]. rewrite !warnings_emit. cbn.
      split; [congruence|]. right. congruence. }
  destruct (need_sms_verify w2) eqn:Eflag.
  { split; [congruence|]. now left. }
  assert (Hw0 : need_sms_verify w = false) by congruence.
  destruct tokens as [|first_img rest].
  { split; [congruence|]. split; [auto | congruence]. }
  destruct (lacks_token (complete_url first_img)) as [[|]|].
  - destruct (lacks_token (url first_img)) as [[|]|].
    + split; [reflexivity|]. left. reflexivity.
    + split; [congruence|]. repeat split; congruence.
    + split; [congruence|]. split; [auto | congruence].
  - split; [congruence|]. repeat split; congruence.
  - split; [congruence|]. split; [auto | congruence].
Qed.

(** Once the flag is set, a call whose format the table holds returns
    [False], and the flag stays set. *)
Lemma init_imgsList_locked (e : Episode) (w : world) :
  need_sms_verify w = true ->
  is_Some (img_format_list !! default (py "default") (img_format cfg)) ->
  (init_imgsList' e w).2 = Returned false /\
  need_sms_verify (init_imgsList' e w).1.1 = true.
Proof.
  intros Hflag [sfx Hsfx].
  pose proof (init_imgsList_outcomes e w) as H.
  destruct (init_imgsList' e w) as [[w' e'] r] eqn:E. cbn [fst snd].
  destruct H as [Hmono H]. split; [|now apply Hmono].
  destruct r as [[|]|x].
  - destruct H as [H _]. congruence.
  - reflexivity.
  - exfalso. revert E. unfold init_imgsList.
    destruct (retry MAX_RETRY_SMALL fetch_images w) as [w1 r1] eqn:E1.
    apply retry_fetch_images in E1 as [[Hw1 Hn1] Hr1].
    destruct r1 as [imgs_urls|y].
    2:{ now rewrite (Hr1 y eq_refl). }
    assert (Hsome : add_suffix (default (py "default") (img_format cfg)) imgs_urls
                    = Some (map (fun u => u ++ sfx) imgs_urls)).
    { now apply add_suffix_hit. }
    rewrite Hsome.
    destruct (retry MAX_RETRY_SMALL (fetch_tokens _) w1) as [w2 r2] eqn:E2.
    apply retry_fetch_tokens in E2 as [[Hw2 Hn2] Hr2].
    destruct r2 as [tokens|y].
    2:{ now rewrite (Hr2 y eq_refl). }
    assert (Hf2 : need_sms_verify w2 = true) by congruence.
    now rewrite Hf2.
Qed.

(** The first lockout: the flag is clear, the token reply is not empty and
    neither URL of its first entry carries the marker. The flag is set, the
    confirmation prompt is sent and the call returns [False]. *)
Lemma init_imgsList_sets_lockout (e : Episode) (w w1 w2 : world)
  (imgs_urls suffixed : list pystr) (first_img : token_entry)
  (rest : list token_entry) (cu u : pystr) :
  retry MAX_RETRY_SMALL fetch_images w = (w1, Returned imgs_urls) ->
  add_suffix (default (py "default") (img_format cfg)) imgs_urls = Some suffixed ->
  retry MAX_RETRY_SMALL (fetch_tokens suffixed) w1 = (w2, Returned (first_img :: rest)) ->
  need_sms_verify w2 = false ->
  complete_url first_img = Some cu -> contains (py "token=") cu = false ->
  url first_img = Some u -> contains (py "token=") u = false ->
  init_imgsList' e w
  = (emit ConfirmBox (set_need_sms_verify true w2),
     set_imgs_token e (first_img :: rest), Returned false).
Proof.
  intros H1 H2 H3 H4 H5 H6 H7 H8. unfold init_imgsList.
  rewrite H1, H2, H3, H4, H5, H7. unfold lacks_token. cbn [mbind option_bind].
  now rewrite H6, H8.
Qed.
(** C6. In a session whose lockout flag is set, a call of [init_imgsList]
    with a format that the suffix table does not hold raises [KeyError] as
    soon as the image list is not empty: the subscript comes before the test
    of the flag, so this call does not return the failure signal. The flag
    stays set. *)
Theorem init_imgsList_locked_table_miss_raises (fmt : pystr) (e : Episode)
  (w w1 : world) (imgs_urls : list pystr) :
  need_sms_verify w = true ->
  img_format cfg = Some fmt ->
  img_format_list !! fmt = None ->
  retry MAX_RETRY_SMALL fetch_images w = (w1, Returned imgs_urls) ->
  imgs_urls <> [] ->
  init_imgsList' e w = (w1, e, Raised KeyError) /\ need_sms_verify w1 = true.
Proof.
  intros Hflag Hfmt Hmiss Hfetch Hne. split.
  - now apply (init_imgsList_table_miss fmt e w w1 imgs_urls).
  - apply retry_fetch_images in Hfetch as [[_ Hn] _]. congruence.
Qed.
End Resolver.

(** C6 at the format [1100webp] in a locked session. *)
Lemma init_imgsList_locked_table_miss_raises_witness :
  Demo.init_imgsList (Demo.cfg (py "1100webp") false) (Demo.episode [] []) Demo.w_locked
  = ((retry 3 fetch_images Demo.w_locked).1, Demo.episode [] [], Raised KeyError)
  /\ need_sms_verify (retry 3 fetch_images Demo.w_locked).1 = true.
Proof.
  apply (init_imgsList_locked_table_miss_raises 3 (Demo.cfg (py "1100webp") false)
           (py "1100webp") (Demo.episode [] []) Demo.w_locked
           (retry 3 fetch_images Demo.w_locked).1 [py "/bfs/manga/a.jpg"]).
  - reflexivity.
  - reflexivity.
  - reflexivity.
  - vm_compute. reflexivity.
  - discriminate.
Defined.

(** C10. The suffix table binds [1400webp] twice, so that key maps to
    [@1100w.webp]; it has no key [1100webp]; and for a format that the table
    does not hold, [init_imgsList] raises [KeyError] at the first image to
    suffix, with no warning and no failure signal. *)
Theorem img_format_table_partial :
  length (List.filter (fun kv => str_eqb kv.1 (py "1400webp")) img_format_entries) = 2 /\
  img_format_list !! py "1400webp" = Some (py "@1100w.webp") /\
  img_format_list !! py "1100webp" = None /\
  forall (MAX_RETRY_SMALL : nat) (cfg : config) (fmt : pystr) (e : Episode)
         (w w1 : world) (imgs_urls : list pystr),
    img_format cfg = Some fmt ->
    img_format_list !! fmt = None ->
    retry MAX_RETRY_SMALL fetch_images w = (w1, Returned imgs_urls) ->
    imgs_urls <> [] ->
    init_imgsList MAX_RETRY_SMALL cfg e w = (w1, e, Raised KeyError) /\
    warnings w1 = warnings w.
Proof.
  split; [reflexivity|]. split; [reflexivity|]. split; [reflexivity|].
  intros n cfg fmt e w w1 imgs_urls Hfmt Hmiss Hfetch Hne. split.
  - now apply (init_imgsList_table_miss n cfg fmt e w w1 imgs_urls).
  - now apply retry_fetch_images in Hfetch as [[? _] _].
Qed.

(** C10 at the format [1100webp]. *)
Lemma img_format_table_partial_witness :
  Demo.init_imgsList (Demo.cfg (py "1100webp") false) (Demo.episode [] []) Demo.w_listed
  = ((retry 3 fetch_images Demo.w_listed).1, Demo.episode [] [], Raised KeyError)
  /\ warnings (retry 3 fetch_images Demo.w_listed).1 = warnings Demo.w_listed.
Proof.
  refine (proj2 (proj2 (proj2 img_format_table_partial)) 3 (Demo.cfg (py "1100webp") false)
            (py "1100webp") (Demo.episode [] []) Demo.w_listed
            (retry 3 fetch_images Demo.w_listed).1 [py "/bfs/manga/a.jpg"] _ _ _ _).
  - reflexivity.
  - reflexivity.
  - vm_compute. reflexivity.
  - discriminate.
Defined.


(** ** The writers and [save] *)

Section WriterHandlers.
Variable path_join : pystr -> pystr -> pystr.
Variable piexif_insert : list byte -> outcome (list byte).
Variable image : Type.
Variable Image_open : list byte -> outcome image.
Variable Image_mode : image -> pystr.
Variable Image_convert_RGB : image -> outcome image.
Variable Image_save_pdf : image -> list image -> outcome (list byte).
Variable pdf_add_metadata : Episode -> list byte -> outcome (list byte).
Variable inside : pystr -> pystr -> bool.
Variable basename : pystr -> pystr.
Variable SevenZipFile_bytes ZipFile_bytes : list (pystr * list byte) -> list byte.
Variable comicinfoxml_serialize : pystr -> io unit.

Local Abbreviation saveToFolder' := (saveToFolder path_join piexif_insert).
Local Abbreviation saveToPDF' :=
  (saveToPDF image Image_open Image_mode Image_convert_RGB Image_save_pdf
     pdf_add_metadata).
Local Abbreviation pack' := (pack inside basename).
Local Abbreviation save' :=
  (save path_join piexif_insert image Image_open Image_mode Image_convert_RGB
     Image_save_pdf pdf_add_metadata inside basename SevenZipFile_bytes
     ZipFile_bytes comicinfoxml_serialize).










(** The folder method when [saveToFolder] returns. *)
Lemma save_folder (e : Episode) (imgs_path : list pystr) (w : world) :
  (saveToFolder' e imgs_path w).2 = Returned () ->
  save' (py "文件夹-图片") e imgs_path w
  = (((saveToFolder' e imgs_path w).1, imgs_path), Returned (epi_path e)).
Proof.
  intros Hr. unfold save.
  replace (str_eqb (py "文件夹-图片") (py "PDF")) with false by reflexivity.
  replace (str_eqb (py "文件夹-图片") (py "文件夹-图片")) with true by reflexivity.
  unfold keeping. rewrite Hr. reflexivity.
Qed.

Lemma save_other (save_method : pystr) (e : Episode) (imgs_path : list pystr)
  (w : world) :
  save_method ∉ save_methods ->
  save' save_method e imgs_path w = ((w, imgs_path), Returned []).
Proof.
  intros Hm. unfold save.
  assert (Hne : forall t, t ∈ save_methods -> str_eqb save_method t = false).
  { intros t Ht. destruct (str_eqb save_method t) eqn:Et; [|reflexivity].
    apply str_eqb_eq in Et. subst t. contradiction. }
  rewrite !Hne by
    (unfold save_methods;
     repeat (first [apply list_elem_of_here | apply list_elem_of_further])).
  reflexivity.
Qed.
End WriterHandlers.

Section Containment.
Variable MAX_RETRY_SMALL MAX_RETRY_LARGE : nat.
Variable isCheckSumValid : pystr -> list byte -> bool * pystr.
Variable AES_CBCDecrypt : list byte -> list byte -> list byte -> outcome (list byte).
Variable unquote : pystr -> pystr.
Variable b64decode : pystr -> outcome (list byte).
Variable lower : pystr -> pystr.
Variable path_join : pystr -> pystr -> pystr.
Variable piexif_insert : list byte -> outcome (list byte).
Variable image : Type.
Variable Image_open : list byte -> outcome image.
Variable Image_mode : image -> pystr.
Variable Image_convert_RGB : image -> outcome image.
Variable Image_save_pdf : image -> list image -> outcome (list byte).
Variable pdf_add_metadata : Episode -> list byte -> outcome (list byte).
Variable inside : pystr -> pystr -> bool.
Variable basename : pystr -> pystr.
Variable SevenZipFile_bytes ZipFile_bytes : list (pystr * list byte) -> list byte.
Variable comicinfoxml_serialize : pystr -> io unit.
Variable cfg : config.

Local Abbreviation save' :=
  (save path_join piexif_insert image Image_open Image_mode Image_convert_RGB
     Image_save_pdf pdf_add_metadata inside basename SevenZipFile_bytes
     ZipFile_bytes comicinfoxml_serialize).

End Containment.

(** * Further properties *)

(** ** Integers as text *)

Lemma uint_chars_digits (u : Decimal.uint) :
  forallb is_ascii_digit (uint_chars u) = true.
Proof. induction u; cbn [uint_chars forallb]; try rewrite IHu; reflexivity. Qed.

Lemma digits_value_acc (u : Decimal.uint) : forall acc : positive,
  fold_left (fun acc c => (acc * 10 + (c - 48))%N) (uint_chars u) (Npos acc)
  = Npos (Pos.of_uint_acc u acc).
Proof.
  induction u; intros acc; cbn [uint_chars fold_left Pos.of_uint_acc];
    try reflexivity;
    match goal with
    | |- fold_left _ _ ?a = N.pos (Pos.of_uint_acc _ ?b) =>
        replace a with (N.pos b) by lia; apply IHu
    end.
Qed.

Lemma digits_value_uint (u : Decimal.uint) :
  digits_value (uint_chars u) = Pos.of_uint u.
Proof.
  unfold digits_value.
  induction u; cbn [uint_chars fold_left Pos.of_uint]; try reflexivity;
    try (exact IHu);
    match goal with
    | |- fold_left _ _ ?a = N.pos (Pos.of_uint_acc _ ?b) =>
        replace a with (N.pos b) by lia; apply digits_value_acc
    end.
Qed.

(** [int(str(n)) == n] *)
Lemma digits_value_str_N (n : N) : digits_value (str_N n) = n.
Proof.
  unfold str_N. rewrite digits_value_uint. apply (DecimalN.Unsigned.of_to n).
Qed.

Lemma str_N_nonempty (n : N) : str_N n <> [].
Proof.
  intros H. pose proof (digits_value_str_N n) as Hv. rewrite H in Hv.
  cbn in Hv. subst n. discriminate H.
Qed.

Lemma str_N_digits (n : N) : forallb is_ascii_digit (str_N n) = true.
Proof. apply uint_chars_digits. Qed.

Lemma digits_no_char (c : char) (s : pystr) :
  is_ascii_digit c = false -> forallb is_ascii_digit s = true -> has_char c s = false.
Proof.
  intros Hc. induction s as [|d s IH]; [reflexivity|]. cbn [forallb has_char existsb].
  intros H. apply andb_true_iff in H as [Hd Hs].
  destruct (N.eqb_spec c d) as [->|_]; [congruence|]. now apply IH.
Qed.

Lemma digits_value_zeros (k : nat) (s : pystr) :
  digits_value (replicate k c_zero ++ s) = digits_value s.
Proof.
  unfold digits_value. induction k as [|k IH]; [reflexivity|].
  cbn [replicate app fold_left]. exact IH.
Qed.

Lemma zfill_digits (w : nat) (s : pystr) :
  forallb is_ascii_digit s = true -> zfill w s = replicate (w - length s) c_zero ++ s.
Proof.
  intros H. unfold zfill. destruct s as [|c r]; [now rewrite app_nil_r|].
  cbn [forallb] in H. apply andb_true_iff in H as [Hc _].
  destruct (N.eqb_spec c c_minus) as [->|_]; [discriminate|].
  destruct (N.eqb_spec c c_plus) as [->|_]; [discriminate|]. reflexivity.
Qed.

Lemma zfill_str_N_value (w : nat) (n : N) : digits_value (zfill w (str_N n)) = n.
Proof.
  rewrite zfill_digits by apply str_N_digits.
  rewrite digits_value_zeros. apply digits_value_str_N.
Qed.

Lemma zfill_str_N_digits (w : nat) (n : N) :
  forallb is_ascii_digit (zfill w (str_N n)) = true.
Proof.
  rewrite zfill_digits by apply str_N_digits.
  rewrite forallb_app, str_N_digits, andb_true_r.
  induction (w - length (str_N n)) as [|k IH]; [reflexivity|]. exact IH.
Qed.

Lemma parse_int_digits (s : pystr) :
  s <> [] -> forallb is_ascii_digit s = true ->
  parse_int s = Some (Z.of_N (digits_value s)).
Proof.
  intros Hne H. unfold parse_int. destruct s as [|c r]; [congruence|].
  pose proof H as H'. cbn [forallb] in H'. apply andb_true_iff in H' as [Hc _].
  destruct (N.eqb_spec c c_minus) as [->|_]; [discriminate|].
  destruct (N.eqb_spec c c_plus) as [->|_]; [discriminate|].
  cbn [is_empty]. now rewrite H.
Qed.

Lemma parse_int_minus_digits (s : pystr) :
  s <> [] -> forallb is_ascii_digit s = true ->
  parse_int (c_minus :: s) = Some (- Z.of_N (digits_value s))%Z.
Proof.
  intros Hne H. unfold parse_int. rewrite N.eqb_refl.
  destruct s as [|c r]; [congruence|]. cbn [is_empty]. now rewrite H.
Qed.

(** [int(str(z)) == z] *)
Lemma parse_int_str_Z (z : Z) : parse_int (str_Z z) = Some z.
Proof.
  destruct z as [|p|p]; cbn [str_Z].
  - reflexivity.
  - rewrite parse_int_digits by (apply str_N_nonempty || apply str_N_digits).
    rewrite digits_value_str_N. reflexivity.
  - rewrite parse_int_minus_digits by (apply str_N_nonempty || apply str_N_digits).
    rewrite digits_value_str_N. reflexivity.
Qed.

(** ** [span] and [strip] *)

Lemma span_app (p : char -> bool) (s : pystr) : (span p s).1 ++ (span p s).2 = s.
Proof.
  induction s as [|c s IH]; [reflexivity|]. cbn [span].
  destruct (p c); [|reflexivity]. destruct (span p s) as [a b]. cbn in *. now rewrite IH.
Qed.

Lemma span_rest_head (p : char -> bool) (s : pystr) (c : char) (r : pystr) :
  (span p s).2 = c :: r -> p c = false.
Proof.
  induction s as [|d s IH]; [discriminate|]. cbn [span].
  destruct (p d) eqn:E.
  - destruct (span p s) as [a b]. exact IH.
  - cbn. intros [= <- _]. exact E.
Qed.

Lemma span_head_false (p : char -> bool) (c : char) (s : pystr) :
  p c = false -> span p (c :: s) = ([], c :: s).
Proof. intros H. cbn [span]. now rewrite H. Qed.

Lemma span_all (p : char -> bool) (a s : pystr) :
  forallb p a = true -> (s = [] \/ exists c r, s = c :: r /\ p c = false) ->
  span p (a ++ s) = (a, s).
Proof.
  intros Ha Hs. induction a as [|c a IH].
  - destruct Hs as [-> | (c & r & -> & Hc)]; [reflexivity | now apply span_head_false].
  - cbn [forallb] in Ha. apply andb_true_iff in Ha as [Hc Ha].
    cbn [app span]. rewrite Hc, (IH Ha). reflexivity.
Qed.

Section Strip.
Variable isspace : char -> bool.

(** A stripped text neither starts nor ends with whitespace. *)
Lemma strip_ends (s : pystr) (c : char) (r : pystr) :
  strip isspace s = c :: r ->
  isspace c = false /\ isspace (List.last (c :: r) c) = false.
Proof.
  unfold strip. set (t := (span isspace s).2).
  set (u := (span isspace (rev t)).2). intros H.
  assert (Hu : rev (c :: r) = u) by (rewrite <- H; apply rev_involutive).
  assert (Hrt : rev t = (span isspace (rev t)).1 ++ u) by (symmetry; apply span_app).
  split.
  - (* the head of the result is the head of [t] *)
    assert (Ht : t = rev u ++ rev (span isspace (rev t)).1).
    { rewrite <- rev_app_distr, <- Hrt. symmetry. apply rev_involutive. }
    rewrite <- Hu, rev_involutive in Ht. cbn [app] in Ht.
    unfold t in Ht. exact (span_rest_head _ _ _ _ Ht).
  - (* the last of the result is the head of [u] *)
    destruct (rev (c :: r)) as [|d u'] eqn:E.
    + apply (f_equal (@rev _)) in E. rewrite rev_involutive in E. discriminate.
    + assert (Hl : List.last (c :: r) c = d).
      { apply (f_equal (@rev _)) in E. rewrite rev_involutive in E. rewrite E.
        cbn [rev]. apply last_last. }
      rewrite Hl. unfold u in Hu. symmetry in Hu. exact (span_rest_head _ _ _ _ Hu).
Qed.

Lemma strip_space_cons (c : char) (s : pystr) :
  isspace c = true -> strip isspace (c :: s) = strip isspace s.
Proof. intros H. unfold strip. cbn [span]. rewrite H. now destruct (span isspace s). Qed.

(** A text that neither starts nor ends with whitespace is its own
    stripped text. *)
Lemma strip_fixed (c : char) (r : pystr) :
  isspace c = false -> isspace (List.last (c :: r) c) = false ->
  strip isspace (c :: r) = c :: r.
Proof.
  intros Hc Hl. unfold strip. rewrite (span_head_false _ _ _ Hc). cbn [snd].
  destruct (rev (c :: r)) as [|d u] eqn:E.
  - apply (f_equal (@rev _)) in E. rewrite rev_involutive in E. discriminate.
  - assert (Hd : List.last (c :: r) c = d).
    { apply (f_equal (@rev _)) in E. rewrite rev_involutive in E. rewrite E.
      cbn [rev]. apply last_last. }
    rewrite Hd in Hl. rewrite (span_head_false _ _ _ Hl). cbn [snd].
    rewrite <- E. apply rev_involutive.
Qed.
End Strip.

(** ** More on [rename_title] *)

Lemma rename_title_active (isspace : char -> bool) (rename_rule : pystr) (e : Episode) :
  is_empty rename_rule || str_eqb (py "default") rename_rule = false ->
  rename_title isspace (Some rename_rule) e
  = match rule_loop (before_rules (split_char c_amp rename_rule) e) [] []
            (split_char c_amp rename_rule) with
    | (e, Returned t) => (set_title e (strip isspace t), Returned ())
    | (e, Raised x) => (e, Raised x)
    end.
Proof.
  intros H. unfold rename_title, before_rules. rewrite H.
  rewrite short_long_never_in_rules, andb_false_r. reflexivity.
Qed.

Lemma split_char_none (sep : char) (s : pystr) :
  has_char sep s = false -> split_char sep s = [s].
Proof.
  induction s as [|c s IH]; [reflexivity|]. cbn [has_char existsb split_char].
  intros H. apply orb_false_iff in H as [Hc Hs].
  rewrite N.eqb_sym, Hc. fold (has_char sep s) in Hs. now rewrite (IH Hs).
Qed.

Lemma split_char_app (sep : char) (a b : pystr) :
  has_char sep a = false ->
  split_char sep (a ++ sep :: b) = a :: split_char sep b.
Proof.
  induction a as [|c a IH]; intros H.
  - cbn [app split_char]. now rewrite N.eqb_refl.
  - cbn [has_char existsb] in H. apply orb_false_iff in H as [Hc Ha].
    cbn [app split_char]. rewrite N.eqb_sym, Hc. fold (has_char sep a) in Ha.
    now rewrite (IH Ha).
Qed.

Lemma has_char_app (c : char) (a b : pystr) :
  has_char c (a ++ b) = has_char c a || has_char c b.
Proof. unfold has_char. apply existsb_app. Qed.

Lemma int_text_no_dot (neg : bool) (ip : N) : has_char c_dot (int_text neg ip) = false.
Proof.
  unfold int_text. rewrite has_char_app.
  rewrite (digits_no_char c_dot (str_N ip)) by (reflexivity || apply str_N_digits).
  now destruct neg.
Qed.

Lemma parse_int_int_text (neg : bool) (ip : N) :
  parse_int (int_text neg ip) = Some (if neg then (- Z.of_N ip)%Z else Z.of_N ip).
Proof.
  unfold int_text. destruct neg; cbn [app].
  - rewrite parse_int_minus_digits by (apply str_N_nonempty || apply str_N_digits).
    now rewrite digits_value_str_N.
  - rewrite parse_int_digits by (apply str_N_nonempty || apply str_N_digits).
    now rewrite digits_value_str_N.
Qed.





Lemma before_rules_ord (rules : list pystr) (e : Episode) :
  ord (before_rules rules e) = ord e /\ title (before_rules rules e) = title e /\
  idx (before_rules rules e) = idx e /\ save_path (before_rules rules e) = save_path e.
Proof. unfold before_rules. destruct (_ && _ && _); auto. Qed.






Section Constructor.
Variable isdecimal : char -> bool.
Variable isspace : char -> bool.
Variable myStrFilter : pystr -> pystr.
Variable path_join : pystr -> pystr -> pystr.

End Constructor.

(** ** Rendering *)

Ltac in_rule_tokens :=
  unfold rule_tokens; repeat (first [apply list_elem_of_here | apply list_elem_of_further]).

Lemma str_eqb_neq (a b : pystr) : a <> b -> str_eqb a b = false.
Proof. intros H. unfold str_eqb. now apply bool_decide_eq_false. Qed.

(** A token the loop does not know adds nothing to the title. *)
Lemma rule_step_unknown (e e' : Episode) (decimal decimal' acc acc' rule : pystr) :
  rule ∉ rule_tokens ->
  rule_step e decimal acc rule = (e', Returned (decimal', acc')) -> acc' = acc.
Proof.
  intros Hr. unfold rule_step.
  assert (Hne : forall t, t ∈ rule_tokens -> str_eqb t rule = false).
  { intros t Ht. apply str_eqb_neq. intros ->. contradiction. }
  rewrite !Hne by in_rule_tokens.
  destruct (endswith rule (py "ord") && has_char c_dot (str_ord (ord e))).
  - destruct (split_char c_dot (str_ord (ord e))) as [|a [|b [|c l]]];
      intros [= <- <- <-] || intros [=]; reflexivity.
  - intros [= <- <- <-]. reflexivity.
Qed.

Lemma rule_loop_unknown (rules : list pystr) : forall (e e' : Episode)
  (decimal acc t : pystr),
  (forall rule, rule ∈ rules -> rule ∉ rule_tokens) ->
  rule_loop e decimal acc rules = (e', Returned t) -> t = acc.
Proof.
  induction rules as [|rule rest IH]; intros e e' decimal acc t Hr; cbn [rule_loop].
  - now intros [= <- <-].
  - destruct (rule_step e decimal acc rule) as [e1 [[d1 a1]|x]] eqn:E; [|intros [=]].
    apply rule_step_unknown in E; [|apply Hr; left]. subst a1.
    apply IH. intros r Hin. apply Hr. now right.
Qed.

(** X3. A rename rule none of whose [&]-separated tokens is one of the
    nine the loop knows renders the empty title: when [rename_title]
    returns, [self.title] is the empty string. *)
Theorem rename_title_unknown_tokens_empty_title (isspace : char -> bool)
  (rename_rule : pystr) (e : Episode) :
  rename_rule <> [] ->
  (forall rule, rule ∈ split_char c_amp rename_rule -> rule ∉ rule_tokens) ->
  (rename_title isspace (Some rename_rule) e).2 = Returned () ->
  title (rename_title isspace (Some rename_rule) e).1 = [].
Proof.
  intros Hne Hr.
  assert (E : is_empty rename_rule || str_eqb (py "default") rename_rule = false).
  { destruct rename_rule as [|c r]; [congruence|]. cbn [is_empty orb].
    apply str_eqb_neq. intros Heq. rewrite <- Heq in Hr.
    apply (Hr (py "default")); [vm_compute; left | in_rule_tokens]. }
  rewrite (rename_title_active _ _ _ E).
  destruct (rule_loop _ [] [] _) as [e1 [t|x]] eqn:El; cbn [fst snd]; [|intros [=]].
  apply rule_loop_unknown in El; [|assumption]. subst t. intros _. reflexivity.
Qed.

(** X2. When a rename rule is active (neither empty nor [default]) and
    [rename_title] returns, the title it stores neither starts nor ends
    with a whitespace character. *)
Theorem rename_title_strips_whitespace (isspace : char -> bool)
  (rename_rule : pystr) (e : Episode) (c : char) (r : pystr) :
  rename_rule <> [] -> rename_rule <> py "default" ->
  (rename_title isspace (Some rename_rule) e).2 = Returned () ->
  title (rename_title isspace (Some rename_rule) e).1 = c :: r ->
  isspace c = false /\ isspace (List.last (c :: r) c) = false.
Proof.
  intros Hne Hnd.
  assert (E : is_empty rename_rule || str_eqb (py "default") rename_rule = false).
  { destruct rename_rule as [|d s]; [congruence|]. cbn [is_empty orb].
    apply str_eqb_neq. congruence. }
  rewrite (rename_title_active _ _ _ E).
  destruct (rule_loop _ [] [] _) as [e1 [t|x]] eqn:El; cbn [fst snd]; [|intros [=]].
  intros _. cbn [title set_title]. apply strip_ends.
Qed.

(** ** Padded numbers *)

Lemma last_forallb (p : char -> bool) (s : pystr) (d : char) :
  s <> [] -> forallb p s = true -> p (List.last s d) = true.
Proof.
  induction s as [|c s IH]; [congruence|]. intros _ H.
  cbn [forallb] in H. apply andb_true_iff in H as [Hc Hs].
  destruct s as [|c' s']; [exact Hc|].
  change (List.last (c :: c' :: s') d) with (List.last (c' :: s') d).
  apply IH; [discriminate | exact Hs].
Qed.

Lemma last_app_cons (a : pystr) (c : char) (b : pystr) (d : char) :
  List.last (a ++ c :: b) d = List.last (c :: b) d.
Proof.
  induction a as [|x a IH]; [reflexivity|].
  cbn [app]. destruct (a ++ c :: b) eqn:E.
  - now destruct a.
  - exact IH.
Qed.

Lemma length_zfill (w : nat) (s : pystr) : w <= length (zfill w s).
Proof.
  unfold zfill. destruct s as [|c r].
  - rewrite length_replicate. cbn. lia.
  - destruct ((c =? c_minus)%N || (c =? c_plus)%N);
      cbn [length]; rewrite length_app, length_replicate; cbn [length]; lia.
Qed.

Lemma forallb_replicate_zero (k : nat) : forallb is_ascii_digit (replicate k c_zero) = true.
Proof. induction k as [|k IH]; [reflexivity | exact IH]. Qed.

(** [f"{z:0wd}"] is a sign and digits, at least [w] characters, and
    [int] reads [z] back from it. *)
Lemma format_0d_shape (w : nat) (z : Z) :
  exists c r,
    format_0d w z = c :: r /\
    (c = c_minus \/ is_ascii_digit c = true) /\
    is_ascii_digit (List.last (c :: r) c) = true /\
    parse_int (c :: r) = Some z /\
    w <= length (c :: r).
Proof.
  pose proof (length_zfill w (str_Z z)) as Hlen. unfold format_0d in *.
  destruct z as [|p|p].
  - change (str_Z 0) with (str_N 0) in *.
    pose proof (zfill_str_N_digits w 0) as Hd.
    pose proof (zfill_str_N_value w 0) as Hv.
    destruct (zfill w (str_N 0)) as [|c r] eqn:E.
    { rewrite zfill_digits in E by apply str_N_digits.
      apply app_eq_nil in E as [_ E]. now apply str_N_nonempty in E. }
    exists c, r. split; [reflexivity|]. split; [right|split; [|split]].
    + cbn [forallb] in Hd. now apply andb_true_iff in Hd as [Hd _].
    + now apply last_forallb.
    + rewrite parse_int_digits by (discriminate || assumption). now rewrite Hv.
    + exact Hlen.
  - change (str_Z (Z.pos p)) with (str_N (N.pos p)) in *.
    pose proof (zfill_str_N_digits w (N.pos p)) as Hd.
    pose proof (zfill_str_N_value w (N.pos p)) as Hv.
    destruct (zfill w (str_N (N.pos p))) as [|c r] eqn:E.
    { rewrite zfill_digits in E by apply str_N_digits.
      apply app_eq_nil in E as [_ E]. now apply str_N_nonempty in E. }
    exists c, r. split; [reflexivity|]. split; [right|split; [|split]].
    + cbn [forallb] in Hd. now apply andb_true_iff in Hd as [Hd _].
    + now apply last_forallb.
    + rewrite parse_int_digits by (discriminate || assumption). now rewrite Hv.
    + exact Hlen.
  - cbn [str_Z] in *. unfold zfill in *. rewrite N.eqb_refl in *. cbn [orb] in *.
    set (pad := replicate _ c_zero) in *.
    assert (Hd : forallb is_ascii_digit (pad ++ str_N (N.pos p)) = true).
    { rewrite forallb_app, str_N_digits, andb_true_r. apply forallb_replicate_zero. }
    assert (Hne : pad ++ str_N (N.pos p) <> []).
    { intros E. apply app_eq_nil in E as [_ E]. now apply str_N_nonempty in E. }
    exists c_minus, (pad ++ str_N (N.pos p)). split; [reflexivity|].
    split; [now left|split; [|split]].
    + destruct (pad ++ str_N (N.pos p)) as [|c' r'] eqn:E; [congruence|].
      change (List.last (c_minus :: c' :: r') c_minus) with (List.last (c' :: r') c_minus).
      apply last_forallb; [discriminate | exact Hd].
    + rewrite parse_int_minus_digits by assumption. unfold pad.
      now rewrite digits_value_zeros, digits_value_str_N.
    + exact Hlen.
Qed.

Section Rendering.
Variable isspace : char -> bool.
Hypothesis space_is_space : isspace c_space = true.
Hypothesis digit_not_space : forall c, is_ascii_digit c = true -> isspace c = false.
Hypothesis minus_not_space : isspace c_minus = false.

(** Stripping what the loop built from one padded number. *)
Lemma strip_format_0d (w : nat) (z : Z) :
  strip isspace (c_space :: format_0d w z) = format_0d w z.
Proof.
  rewrite strip_space_cons by assumption.
  destruct (format_0d_shape w z) as (c & r & -> & Hc & Hl & _).
  apply strip_fixed.
  - destruct Hc as [-> | Hc]; auto.
  - auto.
Qed.

Lemma rule_step_idx (wide : bool) (e : Episode) (decimal acc : pystr) :
  rule_step e decimal acc (py (if wide then "4idx" else "3idx"))
  = (e, Returned (decimal, acc ++ c_space :: format_0d (if wide then 4 else 3) (idx e))).
Proof. destruct wide; reflexivity. Qed.

(** X4. Under the rule [3idx] (or [4idx]) the title is the chapter index
    padded with zeros to three (four) characters: it has at least that many
    characters and [int] reads the index back from it. Whitespace is taken
    to contain the space and neither the ASCII digits nor the minus
    sign. *)
Theorem rename_title_padded_index_reads_back (wide : bool) (e : Episode) :
  let w := if wide then 4 else 3 in
  let e' := (rename_title isspace (Some (py (if wide then "4idx" else "3idx"))) e).1 in
  title e' = format_0d w (idx e) /\
  parse_int (title e') = Some (idx e) /\
  w <= length (title e').
Proof.
  cbv zeta.
  assert (E : forall rr, rr = py (if wide then "4idx" else "3idx") ->
            is_empty rr || str_eqb (py "default") rr = false /\
            split_char c_amp rr = [rr]).
  { intros rr ->. destruct wide; split; reflexivity. }
  destruct (E _ eq_refl) as [E1 E2].
  rewrite (rename_title_active _ _ _ E1), E2. cbn [rule_loop].
  rewrite rule_step_idx. cbn [fst title set_title app].
  destruct (before_rules_ord [py (if wide then "4idx" else "3idx")] e) as (_ & _ & -> & _).
  rewrite strip_format_0d.
  destruct (format_0d_shape (if wide then 4 else 3) (idx e)) as (c & r & -> & _ & _ & Hp & Hl).
  auto.
Qed.

Lemma rule_step_ord_split (wide : bool) (e : Episode) (neg : bool) (ip : N)
  (frac decimal acc : pystr) :
  ord e = OrdFloat neg ip frac -> has_char c_dot frac = false ->
  rule_step e decimal acc (py (if wide then "4ord" else "3ord"))
  = (set_ord e (OrdStr (int_text neg ip)),
     Returned (c_dot :: frac,
               acc ++ c_space :: format_0d (if wide then 4 else 3)
                                   (if neg then (- Z.of_N ip)%Z else Z.of_N ip)
                   ++ c_dot :: frac)).
Proof.
  intros Ho Hf. unfold rule_step. rewrite Ho. cbn [str_ord].
  change ((if neg then [c_minus] else []) ++ str_N ip ++ c_dot :: frac)
    with ((if neg then [c_minus] else []) ++ (str_N ip ++ c_dot :: frac)).
  rewrite app_assoc. fold (int_text neg ip).
  rewrite has_char_app. cbn [has_char existsb]. rewrite N.eqb_refl, orb_true_r.
  rewrite split_char_app by apply int_text_no_dot.
  rewrite (split_char_none _ _ Hf).
  assert (Hend : endswith (py (if wide then "4ord" else "3ord")) (py "ord") = true)
    by (destruct wide; reflexivity).
  rewrite Hend. cbn [andb]. cbv beta iota zeta. cbn [int_ord ord set_ord].
  rewrite parse_int_int_text.
  destruct wide; reflexivity.
Qed.

(** X5. Under the rule [3ord] (or [4ord]) a fractional ordinal is rendered
    as its integer part padded to the width, a dot and the fraction; the
    call returns, and it leaves [self.ord] as the text of the integer
    part. *)
Theorem rename_title_fractional_ordinal (wide : bool) (e : Episode)
  (neg : bool) (ip : N) (frac : pystr) :
  ord e = OrdFloat neg ip frac ->
  frac <> [] -> forallb is_ascii_digit frac = true ->
  let r := rename_title isspace (Some (py (if wide then "4ord" else "3ord"))) e in
  r.2 = Returned () /\
  title r.1 = format_0d (if wide then 4 else 3)
                (if neg then (- Z.of_N ip)%Z else Z.of_N ip) ++ c_dot :: frac /\
  ord r.1 = OrdStr (int_text neg ip).
Proof.
  intros Ho Hne Hd. cbv zeta.
  assert (E : forall rr, rr = py (if wide then "4ord" else "3ord") ->
            is_empty rr || str_eqb (py "default") rr = false /\
            split_char c_amp rr = [rr]).
  { intros rr ->. destruct wide; split; reflexivity. }
  destruct (E _ eq_refl) as [E1 E2].
  rewrite (rename_title_active _ _ _ E1), E2. cbn [rule_loop].
  destruct (before_rules_ord [py (if wide then "4ord" else "3ord")] e) as (Ho' & _).
  rewrite (rule_step_ord_split wide _ neg ip frac);
    [|now rewrite Ho' | apply digits_no_char; [reflexivity | assumption]].
  cbn [fst snd title set_title ord set_ord app]. split; [reflexivity|]. split; [|reflexivity].
  rewrite strip_space_cons by assumption.
  destruct (format_0d_shape (if wide then 4 else 3)
              (if neg then (- Z.of_N ip)%Z else Z.of_N ip)) as (c & r & -> & Hc & _).
  cbn [app]. apply strip_fixed.
  - destruct Hc as [-> | Hc]; auto.
  - apply digit_not_space.
    change (c :: r ++ c_dot :: frac) with ((c :: r) ++ c_dot :: frac).
    rewrite last_app_cons.
    destruct frac as [|f fs]; [congruence|].
    change (List.last (c_dot :: f :: fs) c) with (List.last (f :: fs) c).
    apply last_forallb; [discriminate | assumption].
Qed.
End Rendering.

(** ** The default title *)

(** X7. The title [get_default_title] returns matches none of the three
    bare-number patterns again: it does not start with a run of digits,
    [-] and [.] that is followed by 话, by a space or by the end of the
    text. *)
Theorem get_default_title_no_bare_number (isdecimal isspace : char -> bool)
  (e : Episode) :
  let t := get_default_title isdecimal isspace e in
  search_numlike_hua t = None /\ search_numlike_space t = None /\
  search_numlike_end t = None.
Proof.
  cbv zeta. unfold get_default_title, cleanup.
  set (t0 := cleanup_duplicates isdecimal isspace _).
  assert (Hdi : forall r, search_numlike_hua (c_di :: r) = None /\
                          search_numlike_space (c_di :: r) = None /\
                          search_numlike_end (c_di :: r) = None).
  { intros r. unfold search_numlike_hua, search_numlike_space, search_numlike_end.
    rewrite (many1_head_false is_numlike c_di r) by reflexivity. auto. }
  unfold cleanup_numeral.
  destruct (search_numlike_hua t0) as [[g r]|] eqn:E1; [apply Hdi|].
  destruct (search_numlike_space t0) as [[g r]|] eqn:E2; [apply Hdi|].
  destruct (search_numlike_end t0) as [[g r]|] eqn:E3; [apply Hdi|].
  auto.
Qed.

Section DefaultTitle.
Variable isdecimal : char -> bool.
Variable isspace : char -> bool.
Hypothesis space_is_space : isspace c_space = true.
Hypothesis space_not_decimal : isdecimal c_space = false.
Hypothesis di_not_space : isspace c_di = false.
Hypothesis di_not_decimal : isdecimal c_di = false.
Hypothesis hua_not_decimal : isdecimal c_hua = false.

Lemma many1_all (p : char -> bool) (a s : pystr) :
  a <> [] -> forallb p a = true ->
  (s = [] \/ exists c r, s = c :: r /\ p c = false) ->
  many1 p (a ++ s) = Some (a, s).
Proof.
  intros Hne Ha Hs. unfold many1. rewrite (span_all p a s Ha Hs).
  destruct a; [congruence | reflexivity].
Qed.

Lemma lit_one (c : char) (r : pystr) : lit [c] (c :: r) = Some r.
Proof. unfold lit. cbn [startswith length]. now rewrite N.eqb_refl. Qed.

(** X6. When the short title is a number [n] and the long title is
    第[n]话 followed by anything, [get_default_title] drops the repeated
    number: the title is the long title. The classes [\d] and [\s] are
    taken to hold of the characters of [n] and of the space, and not of
    the space, 第 and 话. *)
Theorem get_default_title_collapses_repeated_number (e : Episode)
  (n rest : pystr) :
  n <> [] -> forallb isdecimal n = true ->
  short_title e = n ->
  long_title e = [c_di] ++ n ++ [c_hua] ++ rest ->
  get_default_title isdecimal isspace e = [c_di] ++ n ++ [c_hua] ++ rest.
Proof.
  intros Hne Hn Hs Hl. unfold get_default_title. rewrite Hs, Hl, default_base_eq.
  assert (Hst : startswith ([c_di] ++ n ++ [c_hua] ++ rest) n = false).
  { destruct n as [|c n']; [congruence|]. cbn [app startswith].
    cbn [forallb] in Hn. apply andb_true_iff in Hn as [Hc _].
    destruct (N.eqb_spec c c_di) as [->|_]; [congruence | reflexivity]. }
  rewrite Hst. unfold cleanup, cleanup_duplicates.
  assert (Hcollapse :
    collapse_num_di_hua isdecimal isspace (n ++ [c_space] ++ [c_di] ++ n ++ [c_hua] ++ rest)
    = [c_di] ++ n ++ [c_hua] ++ rest).
  { assert (H1 : many1 isdecimal (n ++ [c_space] ++ [c_di] ++ n ++ [c_hua] ++ rest)
                 = Some (n, [c_space] ++ [c_di] ++ n ++ [c_hua] ++ rest)).
    { apply many1_all; try assumption. right. eexists _, _. split; [reflexivity|assumption]. }
    assert (H2 : many1 isspace ([c_space] ++ [c_di] ++ n ++ [c_hua] ++ rest)
                 = Some ([c_space], [c_di] ++ n ++ [c_hua] ++ rest)).
    { apply many1_all; [discriminate| |].
      - cbn. now rewrite space_is_space.
      - right. eexists _, _. split; [reflexivity|assumption]. }
    assert (H3 : many1 isdecimal (n ++ [c_hua] ++ rest) = Some (n, [c_hua] ++ rest)).
    { apply many1_all; try assumption. right. eexists _, _. split; [reflexivity|assumption]. }
    unfold collapse_num_di_hua, search_num_di_hua, sub_num_di_hua.
    rewrite H1. cbn [mbind option_bind]. rewrite H2. cbn [mbind option_bind].
    cbn [app] in H3 |- *. rewrite !lit_one. cbn [mbind option_bind].
    rewrite H3. cbn [mbind option_bind]. rewrite !lit_one. cbn [mbind option_bind default].
    rewrite str_eqb_refl. rewrite <- !app_assoc. reflexivity. }
  rewrite Hcollapse. cbn [app].
  rewrite collapse_num_di_head by assumption.
  rewrite collapse_special_none by (apply search_special_head; discriminate).
  apply cleanup_numeral_head. reflexivity.
Qed.
End DefaultTitle.

Section BareNumber.
Variable isdecimal : char -> bool.
Variable isspace : char -> bool.
Hypothesis digit_not_space : forall c, is_ascii_digit c = true -> isspace c = false.

Lemma span_suffix_forallb (p q : char -> bool) (s : pystr) :
  forallb q s = true -> forallb q (span p s).2 = true.
Proof.
  induction s as [|c s IH]; [reflexivity|]. intros H. cbn [span].
  destruct (p c); [|exact H].
  cbn [forallb] in H. apply andb_true_iff in H as [_ Hs].
  specialize (IH Hs). now destruct (span p s).
Qed.

Lemma many1_space_digits (s : pystr) :
  forallb is_ascii_digit s = true -> many1 isspace s = None.
Proof.
  destruct s as [|c r]; [reflexivity|]. cbn [forallb]. intros H.
  apply andb_true_iff in H as [Hc _]. apply many1_head_false. auto.
Qed.

(** After a run of decimals in a text of digits, no whitespace follows. *)
Lemma decimal_then_space_digits (s : pystr) :
  forallb is_ascii_digit s = true ->
  ('(_, r) ← many1 isdecimal s; many1 isspace r) = None.
Proof.
  intros H. destruct (many1 isdecimal s) as [[g r]|] eqn:E; [|reflexivity].
  cbn [mbind option_bind]. apply many1_space_digits.
  pose proof (span_suffix_forallb isdecimal is_ascii_digit s H) as Hs.
  unfold many1 in E. destruct (span isdecimal s) as [[|a1 a] b]; [discriminate|].
  injection E as _ <-. exact Hs.
Qed.

(** X8. When the short and the long title are the same text [n] of ASCII
    digits, the default title is 第[n]话. *)
Theorem get_default_title_bare_number (e : Episode) (n : pystr) :
  n <> [] -> forallb is_ascii_digit n = true ->
  short_title e = n -> long_title e = n ->
  get_default_title isdecimal isspace e = [c_di] ++ n ++ [c_hua].
Proof.
  intros Hne Hn Hs Hl. unfold get_default_title.
  rewrite Hs, Hl, default_base_eq, startswith_refl.
  unfold cleanup, cleanup_duplicates.
  pose proof (decimal_then_space_digits n Hn) as Hnone.
  assert (H1 : collapse_num_di_hua isdecimal isspace n = n).
  { unfold collapse_num_di_hua, search_num_di_hua.
    destruct (many1 isdecimal n) as [[g r]|]; [|reflexivity].
    cbn [mbind option_bind] in *. now rewrite Hnone. }
  assert (H2 : collapse_num_di isdecimal isspace n = n).
  { unfold collapse_num_di, search_num_di.
    destruct (many1 isdecimal n) as [[g r]|]; [|reflexivity].
    cbn [mbind option_bind] in *. now rewrite Hnone. }
  rewrite H1, H2.
  destruct n as [|c r] eqn:En; [congruence|].
  assert (Hc : is_ascii_digit c = true).
  { cbn [forallb] in Hn. now apply andb_true_iff in Hn as [Hc _]. }
  rewrite collapse_special_none.
  2:{ apply search_special_head. intros ->. discriminate. }
  rewrite <- En in *.
  assert (Hnum : forallb is_numlike n = true).
  { clear -Hn. induction n as [|d n IH]; [reflexivity|].
    cbn [forallb] in *. apply andb_true_iff in Hn as [Hd Hn].
    unfold is_numlike at 1. rewrite Hd. cbn [orb andb]. auto. }
  assert (Hm : many1 is_numlike n = Some (n, [])).
  { rewrite <- (app_nil_r n) at 1. apply many1_all; auto. }
  unfold cleanup_numeral, search_numlike_hua, search_numlike_space, search_numlike_end.
  rewrite Hm. cbn [mbind option_bind lit startswith dollar]. reflexivity.
Qed.
End BareNumber.

(** ** Retried exchanges *)

Lemma retry_returned {St A} (n : nat) (f : St -> St * outcome A) (s s' : St) (a : A) :
  f s = (s', Returned a) -> retry n f s = (s', Returned a).
Proof. intros H. destruct n; cbn [retry]; now rewrite H. Qed.

Lemma retry_again {St A} (n : nat) (f : St -> St * outcome A) (s s' : St) (x : exn) :
  f s = (s', Raised x) -> retry (S n) f s = retry n f s'.
Proof. intros H. cbn [retry]. now rewrite H. Qed.

Lemma retry_last {St A} (f : St -> St * outcome A) (s s' : St) (x : exn) :
  f s = (s', Raised x) -> retry 0 f s = (s', Raised x).
Proof. intros H. cbn [retry]. now rewrite H. Qed.

Lemma emits_app (a b : list event) (w : world) :
  emits (a ++ b) w = emits b (emits a w).
Proof. unfold emits. apply fold_left_app. Qed.

Lemma emits_frame (evs : list event) (w : world) :
  files (emits evs w) = files w /\ dirs (emits evs w) = dirs w /\
  faults (emits evs w) = faults w /\ net (emits evs w) = net w /\
  need_sms_verify (emits evs w) = need_sms_verify w /\
  trace (emits evs w) = trace w ++ evs.
Proof.
  revert w. induction evs as [|ev evs IH]; intros w; cbn [emits fold_left].
  - now rewrite app_nil_r.
  - fold (emits evs (emit ev w)). destruct (IH (emit ev w)) as (-> & -> & -> & -> & -> & ->).
    cbn [files dirs faults net need_sms_verify trace emit]. now rewrite <- app_assoc.
Qed.

Lemma set_net_emits (n : list (option response)) (evs : list event) (w : world) :
  set_net n (emits evs w) = emits evs (set_net n w).
Proof.
  revert w. induction evs as [|ev evs IH]; intros w; cbn [emits fold_left]; [reflexivity|].
  fold (emits evs (emit ev w)). fold (emits evs (emit ev (set_net n w))).
  now rewrite IH.
Qed.

Lemma set_net_set_net (n m : list (option response)) (w : world) :
  set_net n (set_net m w) = set_net n w.
Proof. reflexivity. Qed.

Lemma fetch_images_fails (w : world) (rest : list (option response)) :
  net w = None :: rest ->
  fetch_images w
  = (set_net rest (emits [Post GetImageIndexURL []; LogWarning ListFetch] w),
     Raised ConnectionError).
Proof.
  intros H. unfold fetch_images, requests_post, pop_reply. cbn [net emit]. now rewrite H.
Qed.

Lemma fetch_images_answers (w : world) (res : response) (rest : list (option response)) :
  net w = Some res :: rest -> status_code res = 200%Z ->
  fetch_images w
  = (set_net rest (emit (Post GetImageIndexURL []) w), Returned (json_images res)).
Proof.
  intros H Hs. unfold fetch_images, requests_post, pop_reply. cbn [net emit].
  now rewrite H, Hs.
Qed.

Lemma fetch_tokens_fails (urls : list pystr) (w : world) (rest : list (option response)) :
  net w = None :: rest ->
  fetch_tokens urls w
  = (set_net rest (emits [Post ImageTokenURL urls; LogWarning TokenFetch] w),
     Raised ConnectionError).
Proof.
  intros H. unfold fetch_tokens, requests_post, pop_reply. cbn [net emit]. now rewrite H.
Qed.

Lemma fetch_tokens_answers (urls : list pystr) (w : world) (res : response)
  (rest : list (option response)) :
  net w = Some res :: rest -> status_code res = 200%Z -> json_code res = 0%Z ->
  fetch_tokens urls w
  = (set_net rest (emit (Post ImageTokenURL urls) w), Returned (json_tokens res)).
Proof.
  intros H Hs Hc. unfold fetch_tokens, requests_post, pop_reply. cbn [net emit].
  now rewrite H, Hs, Hc.
Qed.

(** [k] transport failures and then an answer, within the retry budget. *)
Lemma retry_fetch_images_recovers (k : nat) : forall (n : nat) (w : world)
  (res : response) (rest : list (option response)),
  k <= n -> net w = replicate k None ++ Some res :: rest -> status_code res = 200%Z ->
  retry n fetch_images w
  = (set_net rest (emits (failed_posts GetImageIndexURL [] ListFetch k
                          ++ [Post GetImageIndexURL []]) w),
     Returned (json_images res)).
Proof.
  induction k as [|k IH]; intros n w res rest Hk Hnet Hs.
  - cbn [replicate app] in Hnet. apply retry_returned.
    now rewrite (fetch_images_answers w res rest).
  - destruct n as [|n]; [lia|]. cbn [replicate app] in Hnet.
    rewrite (retry_again n _ _ _ _ (fetch_images_fails w _ Hnet)).
    rewrite (IH n _ res rest); [|lia|reflexivity|assumption].
    rewrite set_net_emits, set_net_set_net, <- set_net_emits, <- emits_app.
    reflexivity.
Qed.

Lemma retry_fetch_tokens_recovers (urls : list pystr) (k : nat) : forall (n : nat)
  (w : world) (res : response) (rest : list (option response)),
  k <= n -> net w = replicate k None ++ Some res :: rest ->
  status_code res = 200%Z -> json_code res = 0%Z ->
  retry n (fetch_tokens urls) w
  = (set_net rest (emits (failed_posts ImageTokenURL urls TokenFetch k
                          ++ [Post ImageTokenURL urls]) w),
     Returned (json_tokens res)).
Proof.
  induction k as [|k IH]; intros n w res rest Hk Hnet Hs Hc.
  - cbn [replicate app] in Hnet. apply retry_returned.
    now rewrite (fetch_tokens_answers urls w res rest).
  - destruct n as [|n]; [lia|]. cbn [replicate app] in Hnet.
    rewrite (retry_again n _ _ _ _ (fetch_tokens_fails urls w _ Hnet)).
    rewrite (IH n _ res rest); [|lia|reflexivity|assumption|assumption].
    rewrite set_net_emits, set_net_set_net, <- set_net_emits, <- emits_app.
    reflexivity.
Qed.

(** One failure more than the budget allows. *)
Lemma retry_fetch_images_gives_up (n : nat) : forall (w : world)
  (rest : list (option response)),
  net w = replicate (S n) None ++ rest ->
  retry n fetch_images w
  = (set_net rest (emits (failed_posts GetImageIndexURL [] ListFetch (S n)) w),
     Raised ConnectionError).
Proof.
  induction n as [|n IH]; intros w rest Hnet; cbn [replicate app] in Hnet.
  - rewrite (retry_last _ _ _ _ (fetch_images_fails w _ Hnet)). reflexivity.
  - rewrite (retry_again n _ _ _ _ (fetch_images_fails w _ Hnet)).
    rewrite (IH _ rest); [|reflexivity].
    rewrite set_net_emits, set_net_set_net, <- set_net_emits, <- emits_app.
    reflexivity.
Qed.

Lemma retry_fetch_tokens_gives_up (urls : list pystr) (n : nat) : forall (w : world)
  (rest : list (option response)),
  net w = replicate (S n) None ++ rest ->
  retry n (fetch_tokens urls) w
  = (set_net rest (emits (failed_posts ImageTokenURL urls TokenFetch (S n)) w),
     Raised ConnectionError).
Proof.
  induction n as [|n IH]; intros w rest Hnet; cbn [replicate app] in Hnet.
  - rewrite (retry_last _ _ _ _ (fetch_tokens_fails urls w _ Hnet)). reflexivity.
  - rewrite (retry_again n _ _ _ _ (fetch_tokens_fails urls w _ Hnet)).
    rewrite (IH _ rest); [|reflexivity].
    rewrite set_net_emits, set_net_set_net, <- set_net_emits, <- emits_app.
    reflexivity.
Qed.

Section ResolverRuns.
Variable MAX_RETRY_SMALL : nat.
Variable cfg : config.

Local Abbreviation init_imgsList'' := (init_imgsList MAX_RETRY_SMALL cfg).

(** X10. [init_imgsList] recovers from [k] transport failures of the list
    endpoint when [k] is within [MAX_RETRY_SMALL]. With both answers at
    status 200 (and code 0), a format the suffix table holds, a clear
    lockout flag and a first token entry whose [complete_url] carries
    [token=], it returns [True], stores the token list, consumes the
    replies and emits exactly [k] failed list requests with their warnings,
    the list request, and one token request for the suffixed paths. *)
Theorem init_imgsList_recovers_within_budget (e : Episode) (w : world) (k : nat)
  (r1 r2 : response) (rest : list (option response)) (sfx u : pystr)
  (first_img : token_entry) (more : list token_entry) :
  k <= MAX_RETRY_SMALL ->
  net w = replicate k None ++ Some r1 :: Some r2 :: rest ->
  status_code r1 = 200%Z -> status_code r2 = 200%Z -> json_code r2 = 0%Z ->
  img_format_list !! default (py "default") (img_format cfg) = Some sfx ->
  need_sms_verify w = false ->
  json_tokens r2 = first_img :: more ->
  complete_url first_img = Some u -> contains (py "token=") u = true ->
  let urls := map (fun p => p ++ sfx) (json_images r1) in
  init_imgsList'' e w
  = (set_net rest
       (emits (failed_posts GetImageIndexURL [] ListFetch k
               ++ [Post GetImageIndexURL []; Post ImageTokenURL urls]) w),
     set_imgs_token e (first_img :: more), Returned true).
Proof.
  intros Hk Hnet Hs1 Hs2 Hc2 Hsfx Hflag Htok Hcu Hu. cbv zeta.
  unfold init_imgsList.
  rewrite (retry_fetch_images_recovers k _ w r1 (Some r2 :: rest) Hk Hnet Hs1).
  rewrite (add_suffix_hit _ sfx _ Hsfx).
  rewrite (retry_fetch_tokens_recovers _ 0 _ _ r2 rest); [|lia|reflexivity|assumption..].
  rewrite Htok. cbn [need_sms_verify set_net].
  destruct (emits_frame (failed_posts ImageTokenURL
              (map (fun u0 => u0 ++ sfx) (json_images r1)) TokenFetch 0
              ++ [Post ImageTokenURL (map (fun u0 => u0 ++ sfx) (json_images r1))])
              (set_net (Some r2 :: rest)
                 (emits (failed_posts GetImageIndexURL [] ListFetch k
                         ++ [Post GetImageIndexURL []]) w))) as (_ & _ & _ & _ & -> & _).
  cbn [need_sms_verify set_net].
  destruct (emits_frame (failed_posts GetImageIndexURL [] ListFetch k
                         ++ [Post GetImageIndexURL []]) w) as (_ & _ & _ & _ & -> & _).
  rewrite Hflag, Hcu. unfold lacks_token. cbn [mbind option_bind]. rewrite Hu. cbn [negb].
  rewrite set_net_emits, set_net_set_net, <- set_net_emits, <- emits_app, <- app_assoc.
  reflexivity.
Qed.
End ResolverRuns.

Section ResolverEdges.
Variable MAX_RETRY_SMALL : nat.
Variable cfg : config.

Local Abbreviation init_imgsList''' := (init_imgsList MAX_RETRY_SMALL cfg).

(** Both endpoints answer at once: what is left of [init_imgsList] is the
    lockout test on the token reply. *)
Lemma init_imgsList_answered (e : Episode) (w : world) (r1 r2 : response)
  (rest : list (option response)) (sfx : pystr) :
  net w = Some r1 :: Some r2 :: rest ->
  status_code r1 = 200%Z -> status_code r2 = 200%Z -> json_code r2 = 0%Z ->
  img_format_list !! default (py "default") (img_format cfg) = Some sfx ->
  need_sms_verify w = false ->
  let urls := map (fun p => p ++ sfx) (json_images r1) in
  let w2 := set_net rest (emits [Post GetImageIndexURL []; Post ImageTokenURL urls] w) in
  let e2 := set_imgs_token e (json_tokens r2) in
  init_imgsList''' e w
  = match json_tokens r2 with
    | [] => (w2, e2, Raised IndexError)
    | first_img :: _ =>
        match lacks_token (complete_url first_img) with
        | None => (w2, e2, Raised TypeError)
        | Some false => (w2, e2, Returned true)
        | Some true =>
            match lacks_token (url first_img) with
            | None => (w2, e2, Raised TypeError)
            | Some false => (w2, e2, Returned true)
            | Some true => (emit ConfirmBox (set_need_sms_verify true w2), e2, Returned false)
            end
        end
    end.
Proof.
  intros Hnet Hs1 Hs2 Hc2 Hsfx Hflag. cbv zeta. unfold init_imgsList.
  rewrite (retry_fetch_images_recovers 0 _ w r1 (Some r2 :: rest));
    [|lia|exact Hnet|assumption].
  rewrite (add_suffix_hit _ sfx _ Hsfx).
  rewrite (retry_fetch_tokens_recovers _ 0 _ _ r2 rest); [|lia|reflexivity|assumption..].
  cbn [failed_posts replicate concat app emits fold_left need_sms_verify set_net emit].
  rewrite Hflag. reflexivity.
Qed.

(** X11. The lockout trips once. When neither URL of the first token
    entry carries [token=], [init_imgsList] sets [need_sms_verify], sends
    the confirmation prompt and returns [False], with the tokens stored. In
    the world it leaves, a later call, of any chapter, with any retry
    budget and under any configuration whose format the suffix table
    holds, returns [False] and leaves the flag set, whichever of the
    replies of [response] the network then gives. Those replies all carry
    the JSON envelope: a 200 reply without [data], and a format that the
    table does not hold, make the source raise [KeyError] before it tests
    the flag, and are not covered. *)
Theorem init_imgsList_lockout_trips (e : Episode) (w : world)
  (r1 r2 : response) (rest : list (option response)) (sfx cu u : pystr)
  (first_img : token_entry) (more : list token_entry) :
  net w = Some r1 :: Some r2 :: rest ->
  status_code r1 = 200%Z -> status_code r2 = 200%Z -> json_code r2 = 0%Z ->
  img_format_list !! default (py "default") (img_format cfg) = Some sfx ->
  need_sms_verify w = false ->
  json_tokens r2 = first_img :: more ->
  complete_url first_img = Some cu -> contains (py "token=") cu = false ->
  url first_img = Some u -> contains (py "token=") u = false ->
  let urls := map (fun p => p ++ sfx) (json_images r1) in
  let w' :=
    emit ConfirmBox
      (set_need_sms_verify true
         (set_net rest (emits [Post GetImageIndexURL []; Post ImageTokenURL urls] w))) in
  init_imgsList''' e w = (w', set_imgs_token e (first_img :: more), Returned false) /\
  (forall (budget : nat) (cfg2 : config) (e2 : Episode)
          (later : list (option response)),
     is_Some (img_format_list !! default (py "default") (img_format cfg2)) ->
     (init_imgsList budget cfg2 e2 (set_net later w')).2 = Returned false /\
     need_sms_verify (init_imgsList budget cfg2 e2 (set_net later w')).1.1 = true).
Proof.
  intros Hnet Hs1 Hs2 Hc2 Hsfx Hflag Htok Hcu Hcu' Hu Hu'. cbv zeta. split.
  - rewrite (init_imgsList_answered e w r1 r2 rest sfx) by assumption.
    rewrite Htok, Hcu, Hu. unfold lacks_token. cbn [mbind option_bind].
    now rewrite Hcu', Hu'.
  - intros budget cfg2 e2 later Hfmt.
    apply init_imgsList_locked; [reflexivity | exact Hfmt].
Qed.

(** X12. A malformed token reply escapes as an exception, after the
    tokens were stored: an empty list is an [IndexError]; a first entry
    without [complete_url] is a [TypeError]; so is one whose
    [complete_url] lacks the token and that has no [url]. *)
Theorem init_imgsList_malformed_token_reply (e : Episode) (w : world)
  (r1 r2 : response) (rest : list (option response)) (sfx : pystr) :
  net w = Some r1 :: Some r2 :: rest ->
  status_code r1 = 200%Z -> status_code r2 = 200%Z -> json_code r2 = 0%Z ->
  img_format_list !! default (py "default") (img_format cfg) = Some sfx ->
  need_sms_verify w = false ->
  let urls := map (fun p => p ++ sfx) (json_images r1) in
  let w2 := set_net rest (emits [Post GetImageIndexURL []; Post ImageTokenURL urls] w) in
  let e2 := set_imgs_token e (json_tokens r2) in
  (json_tokens r2 = [] -> init_imgsList''' e w = (w2, e2, Raised IndexError)) /\
  (forall first_img more,
     json_tokens r2 = first_img :: more -> complete_url first_img = None ->
     init_imgsList''' e w = (w2, e2, Raised TypeError)) /\
  (forall first_img more cu,
     json_tokens r2 = first_img :: more ->
     complete_url first_img = Some cu -> contains (py "token=") cu = false ->
     url first_img = None ->
     init_imgsList''' e w = (w2, e2, Raised TypeError)).
Proof.
  intros Hnet Hs1 Hs2 Hc2 Hsfx Hflag. cbv zeta.
  rewrite (init_imgsList_answered e w r1 r2 rest sfx) by assumption.
  split; [|split].
  - now intros ->.
  - intros first_img more -> Hcu. now rewrite Hcu.
  - intros first_img more cu -> Hcu Hcu' Hu. rewrite Hcu, Hu. unfold lacks_token.
    cbn [mbind option_bind]. now rewrite Hcu'.
Qed.

(** X13. When the list endpoint fails [MAX_RETRY_SMALL + 1] times,
    [init_imgsList] gives up: it returns [False], leaves the chapter as it
    was, and emits exactly that many list requests with their warnings,
    then the error, the exception log and one warning box. No token
    request is made. *)
Theorem init_imgsList_list_stage_gives_up (e : Episode) (w : world)
  (rest : list (option response)) :
  net w = replicate (S MAX_RETRY_SMALL) None ++ rest ->
  init_imgsList''' e w
  = (emits (failed_posts GetImageIndexURL [] ListFetch (S MAX_RETRY_SMALL)
            ++ [LogError ListFetch; LogException ListFetch; WarningBox ListFetch])
       (set_net rest w),
     e, Returned false).
Proof.
  intros Hnet. unfold init_imgsList.
  rewrite (retry_fetch_images_gives_up _ w rest Hnet). cbn [is_RequestException].
  now rewrite set_net_emits, <- emits_app.
Qed.

(** X14. When the list endpoint answers and the token endpoint fails
    [MAX_RETRY_SMALL + 1] times, [init_imgsList] returns [False] and leaves
    [imgs_token] as it was; it emits the list request, that many token
    requests with their warnings, then the error, the exception log and
    one warning box. *)
Theorem init_imgsList_token_stage_gives_up (e : Episode) (w : world) (r1 : response)
  (rest : list (option response)) (sfx : pystr) :
  net w = Some r1 :: replicate (S MAX_RETRY_SMALL) None ++ rest ->
  status_code r1 = 200%Z ->
  img_format_list !! default (py "default") (img_format cfg) = Some sfx ->
  let urls := map (fun p => p ++ sfx) (json_images r1) in
  init_imgsList''' e w
  = (emits ([Post GetImageIndexURL []]
            ++ failed_posts ImageTokenURL urls TokenFetch (S MAX_RETRY_SMALL)
            ++ [LogError TokenFetch; LogException TokenFetch; WarningBox TokenFetch])
       (set_net rest w),
     e, Returned false).
Proof.
  intros Hnet Hs1 Hsfx. cbv zeta. unfold init_imgsList.
  rewrite (retry_fetch_images_recovers 0 _ w r1 (replicate (S MAX_RETRY_SMALL) None ++ rest));
    [|lia|exact Hnet|assumption].
  rewrite (add_suffix_hit _ sfx _ Hsfx).
  rewrite (retry_fetch_tokens_gives_up _ _ _ rest); [|reflexivity].
  cbn [is_RequestException].
  rewrite !set_net_emits, set_net_set_net, <- !emits_app. reflexivity.
Qed.
End ResolverEdges.

(** ** [clearAfterSave], pass by pass *)

Lemma os_path_exists_deleted (p : pystr) (w : world) (fs : list bool) :
  p ∉ dirs w ->
  os_path_exists p (set_files (delete p (files w)) (set_faults fs w)) = false.
Proof.
  intros Hd. unfold os_path_exists. cbn [files dirs set_files set_faults].
  rewrite lookup_delete_eq. rewrite bool_decide_eq_false_2 by (intros [? [=]]).
  now rewrite bool_decide_eq_false_2.
Qed.

(** A pass without faults removes every file and empties the list. *)
Lemma clearAfterSave_loop_all (l : list pystr) : forall (w : world),
  faults w = [] -> NoDup l ->
  (forall p, p ∈ l -> is_Some (files w !! p)) ->
  (forall p, p ∈ l -> p ∉ dirs w) ->
  clearAfterSave_loop (length l) (w, l)
  = ((set_files (foldr delete (files w) l) w, []), Returned ()).
Proof.
  induction l as [|x l IH] using rev_ind; intros w Hf Hnd Hex Hdir.
  - cbn. destruct w; reflexivity.
  - apply NoDup_app in Hnd as (Hnd & Hdisj & _).
    assert (Hx : x ∉ l) by (intros Hin; apply (Hdisj x Hin); left).
    rewrite length_app, Nat.add_comm. cbn [length Nat.add clearAfterSave_loop].
    rewrite lookup_app_r, Nat.sub_diag by lia. cbn [lookup list_lookup].
    rewrite os_remove_ok; [|assumption|apply Hex; apply elem_of_app; right; left].
    assert (Hgone : os_path_exists x (set_files (delete x (files w)) w) = false).
    { replace w with (set_faults [] w) at 2 by (destruct w; cbn in Hf; now subst).
      apply os_path_exists_deleted. apply Hdir. apply elem_of_app. right. left. }
    rewrite Hgone. rewrite remove_first_last by assumption.
    rewrite IH; [|assumption|assumption| |].
    + rewrite foldr_app. destruct w; reflexivity.
    + intros p Hp. cbn [files set_files]. rewrite lookup_delete_ne.
      * apply Hex. apply elem_of_app. now left.
      * intros ->. contradiction.
    + intros p Hp. cbn [dirs set_files]. apply Hdir. apply elem_of_app. now left.
Qed.

(** A pass stops at the first removal that meets a fault: it logs the
    warning and raises; the paths behind the failing one are gone from the
    disk and from the list. *)
Lemma clearAfterSave_loop_stops (l2 : list pystr) : forall (l1 : list pystr) (p : pystr)
  (w : world) (rest : list bool),
  NoDup (l1 ++ p :: l2) ->
  faults w = replicate (length l2) false ++ true :: rest ->
  (forall q, q ∈ l2 -> is_Some (files w !! q)) ->
  (forall q, q ∈ l2 -> q ∉ dirs w) ->
  clearAfterSave_loop (length (l1 ++ p :: l2)) (w, l1 ++ p :: l2)
  = ((emit (LogWarning TempRemove)
        (set_files (foldr delete (files w) l2) (set_faults rest w)), l1 ++ [p]),
     Raised PermissionError).
Proof.
  induction l2 as [|x l IH] using rev_ind; intros l1 p w rest Hnd Hf Hex Hdir.
  - cbn [length replicate app] in Hf.
    rewrite length_app, Nat.add_comm. cbn [length Nat.add clearAfterSave_loop].
    rewrite lookup_app_r, Nat.sub_diag by lia. cbn [lookup list_lookup foldr].
    rewrite (os_remove_scheduled_fault _ _ _ Hf). cbn [is_OSError].
    destruct w; reflexivity.
  - rewrite length_app, Nat.add_comm in Hf. cbn [length Nat.add replicate app] in Hf.
    assert (Hsplit : l1 ++ p :: l ++ [x] = (l1 ++ p :: l) ++ [x])
      by now rewrite <- app_assoc.
    rewrite Hsplit in Hnd |- *.
    apply NoDup_app in Hnd as (Hnd & Hdisj & _).
    assert (Hx : x ∉ l1 ++ p :: l) by (intros Hin; apply (Hdisj x Hin); left).
    rewrite length_app, Nat.add_comm. cbn [length Nat.add clearAfterSave_loop].
    rewrite lookup_app_r, Nat.sub_diag by lia. cbn [lookup list_lookup].
    rewrite (os_remove_scheduled_ok x w _ Hf);
      [|apply Hex; apply elem_of_app; right; left].
    rewrite os_path_exists_deleted by (apply Hdir; apply elem_of_app; right; left).
    rewrite remove_first_last by assumption.
    set (w1 := set_files (delete x (files w)) (set_faults _ w)).
    rewrite (IH l1 p w1 rest); [|assumption|reflexivity| |].
    + rewrite foldr_app. destruct w; reflexivity.
    + intros q Hq. unfold w1. cbn [files set_files set_faults].
      rewrite lookup_delete_ne.
      * apply Hex. apply elem_of_app. now left.
      * intros ->. apply Hx. apply elem_of_app. right. now right.
    + intros q Hq. unfold w1. cbn [dirs set_files set_faults].
      apply Hdir. apply elem_of_app. now left.
Qed.

(** X15. Without faults, [clearAfterSave] on distinct staged files that
    exist (and are no directories) deletes each of them, empties the list
    and emits nothing. *)
Theorem clearAfterSave_removes_all (imgs_path : list pystr) (w : world) :
  faults w = [] -> NoDup imgs_path ->
  (forall p, p ∈ imgs_path -> is_Some (files w !! p)) ->
  (forall p, p ∈ imgs_path -> p ∉ dirs w) ->
  clearAfterSave imgs_path w
  = ((set_files (foldr delete (files w) imgs_path) w, []), Returned ()).
Proof.
  intros Hf Hnd Hex Hdir. unfold clearAfterSave.
  rewrite (retry_returned _ (fun st => clearAfterSave_loop (length st.2) st) (w, imgs_path)
             _ _ (clearAfterSave_loop_all imgs_path w Hf Hnd Hex Hdir)).
  reflexivity.
Qed.

(** X16. [clearAfterSave] resumes after a transient fault. When one
    removal meets a lock, the next attempt starts from the shortened list
    and finishes: the call returns, the list is empty, every listed file is
    gone, no other file is touched, and the only event is one retry
    warning. *)
Theorem clearAfterSave_resumes_after_fault (l1 l2 : list pystr) (p : pystr) (w : world) :
  NoDup (l1 ++ p :: l2) ->
  faults w = replicate (length l2) false ++ [true] ->
  (forall q, q ∈ l1 ++ p :: l2 -> is_Some (files w !! q)) ->
  (forall q, q ∈ l1 ++ p :: l2 -> q ∉ dirs w) ->
  let r := clearAfterSave (l1 ++ p :: l2) w in
  r.2 = Returned () /\ r.1.2 = [] /\
  trace r.1.1 = trace w ++ [LogWarning TempRemove] /\
  (forall q, q ∈ l1 ++ p :: l2 -> files r.1.1 !! q = None) /\
  (forall q, q ∉ l1 ++ p :: l2 -> files r.1.1 !! q = files w !! q).
Proof.
  intros Hnd Hf Hex Hdir. cbv zeta. unfold clearAfterSave.
  cbn [stop_max_attempt_number pred].
  assert (Hex2 : forall q, q ∈ l2 -> is_Some (files w !! q)).
  { intros q Hq. apply Hex. apply elem_of_app. right. now right. }
  assert (Hdir2 : forall q, q ∈ l2 -> q ∉ dirs w).
  { intros q Hq. apply Hdir. apply elem_of_app. right. now right. }
  pose proof (clearAfterSave_loop_stops l2 l1 p w [] Hnd Hf Hex2 Hdir2) as H1.
  rewrite (retry_again 1 (fun st => clearAfterSave_loop (length st.2) st) _ _ _ H1).
  set (w1 := emit (LogWarning TempRemove) _).
  assert (Hnd1 : NoDup (l1 ++ [p])).
  { apply NoDup_app in Hnd as (Ha & Hb & Hc). apply NoDup_app. split; [assumption|].
    split.
    - intros q Hq Hq'. apply (Hb q Hq). apply list_elem_of_singleton in Hq'. subst. left.
    - apply NoDup_singleton. }
  assert (Hl2 : forall q, q ∈ l1 ++ [p] -> q ∉ l2).
  { intros q Hq Hq2. apply NoDup_app in Hnd as (Ha & Hb & Hc).
    apply elem_of_app in Hq as [Hq | Hq].
    - apply (Hb q Hq). now right.
    - apply list_elem_of_singleton in Hq. subst.
      apply NoDup_cons in Hc as [Hc _]. contradiction. }
  assert (Hin1 : forall q, q ∈ l1 ++ [p] -> q ∈ l1 ++ p :: l2).
  { intros q Hq. apply elem_of_app in Hq as [Hq | Hq]; apply elem_of_app; [now left|].
    right. apply list_elem_of_singleton in Hq. subst. left. }
  assert (H2 : clearAfterSave_loop (length (l1 ++ [p])) (w1, l1 ++ [p])
               = ((set_files (foldr delete (files w1) (l1 ++ [p])) w1, []), Returned ())).
  { apply clearAfterSave_loop_all.
    - reflexivity.
    - exact Hnd1.
    - intros q Hq. unfold w1. cbn [files emit set_files set_faults].
      rewrite lookup_foldr_delete_not_elem_of by (now apply Hl2). apply Hex. now apply Hin1.
    - intros q Hq. unfold w1. cbn [dirs emit set_files set_faults]. apply Hdir. now apply Hin1. }
  rewrite (retry_returned _ (fun st => clearAfterSave_loop (length st.2) st) _ _ _ H2).
  cbn [fst snd]. split; [reflexivity|]. split; [reflexivity|]. split; [reflexivity|].
  cbn [files set_files]. unfold w1. cbn [files emit set_files set_faults].
  rewrite <- foldr_app. split.
  - intros q Hq. apply lookup_foldr_delete.
    apply elem_of_app in Hq as [Hq | Hq]; apply elem_of_app.
    + left. apply elem_of_app. now left.
    + apply elem_of_cons in Hq as [-> | Hq]; [left; apply elem_of_app; right; left | now right].
  - intros q Hq. apply lookup_foldr_delete_not_elem_of. intros Hin. apply Hq.
    apply elem_of_app in Hin as [Hin | Hin]; [now apply Hin1|].
    apply elem_of_app. right. now right.
Qed.

Lemma os_remove_missing (p : pystr) (w : world) :
  faults w = [] -> files w !! p = None ->
  os_remove p w = (w, Raised FileNotFoundError).
Proof. intros Hf Hp. unfold os_remove. now rewrite pop_fault_none, Hp. Qed.

(** X17. A staged list whose last path does not exist defeats
    [clearAfterSave]: each of its three attempts fails at its first
    removal, so no listed file is removed and the list is left as it was;
    the call returns after three retry warnings, the error, the exception
    log and one warning box. *)
Theorem clearAfterSave_missing_last_file_gives_up (l : list pystr) (p : pystr)
  (w : world) :
  faults w = [] -> files w !! p = None ->
  clearAfterSave (l ++ [p]) w
  = ((emits (replicate 3 (LogWarning TempRemove)
             ++ [LogError TempRemove; LogException TempRemove; WarningBox TempRemove]) w,
      l ++ [p]), Returned ()).
Proof.
  intros Hf Hp. unfold clearAfterSave. cbn [stop_max_attempt_number pred].
  assert (Hpass : forall w0, faults w0 = [] -> files w0 !! p = None ->
            clearAfterSave_loop (length (l ++ [p])) (w0, l ++ [p])
            = ((emit (LogWarning TempRemove) w0, l ++ [p]), Raised FileNotFoundError)).
  { intros w0 Hf0 Hp0. rewrite length_app, Nat.add_comm.
    cbn [length Nat.add clearAfterSave_loop].
    rewrite lookup_app_r, Nat.sub_diag by lia. cbn [lookup list_lookup].
    now rewrite os_remove_missing. }
  rewrite (retry_again 1 (fun st => clearAfterSave_loop (length st.2) st) _ _ _
             (Hpass w Hf Hp)).
  rewrite (retry_again 0 (fun st => clearAfterSave_loop (length st.2) st) _ _ _
             (Hpass (emit (LogWarning TempRemove) w) Hf Hp)).
  rewrite (retry_last (fun st => clearAfterSave_loop (length st.2) st) _ _ _
             (Hpass (emit (LogWarning TempRemove) (emit (LogWarning TempRemove) w)) Hf Hp)).
  reflexivity.
Qed.

(** ** Names in the chapter folder *)

Lemma folder_name_span (index : N) (img_path : pystr) :
  span is_ascii_digit (folder_name index img_path)
  = (zfill 3 (str_N index), c_dot :: last_field (split_char c_dot img_path)).
Proof.
  unfold folder_name. apply span_all.
  - apply zfill_str_N_digits.
  - right. eexists _, _. split; reflexivity.
Qed.

Lemma folder_name_inj (i j : N) (p q : pystr) :
  folder_name i p = folder_name j q -> i = j.
Proof.
  intros H. apply (f_equal (span is_ascii_digit)) in H.
  rewrite !folder_name_span in H. injection H as H _.
  apply (f_equal digits_value) in H. now rewrite !zfill_str_N_value in H.
Qed.

Section Destinations.
Variable path_join : pystr -> pystr -> pystr.
Variable e : Episode.
Hypothesis join_names_inj : forall i j p q,
  path_join (epi_path e) (folder_name i p) = path_join (epi_path e) (folder_name j q) ->
  folder_name i p = folder_name j q.

Lemma destinations_from_elem (imgs : list pystr) : forall (k : N) (d : pystr),
  d ∈ destinations_from path_join e k imgs ->
  exists j q, (k <= j)%N /\ d = path_join (epi_path e) (folder_name j q).
Proof.
  induction imgs as [|p rest IH]; intros k d H; cbn [destinations_from] in H.
  - now apply elem_of_nil in H.
  - apply elem_of_cons in H as [-> | H].
    + exists k, p. split; [lia | reflexivity].
    + apply IH in H as (j & q & Hj & ->). exists j, q. split; [lia | reflexivity].
Qed.

(** X18. No two pages collide in the chapter folder: the destinations of
    [saveToFolder] are pairwise distinct, whatever the staged paths, as
    soon as [os.path.join] maps distinct page names to distinct paths. *)
Theorem destinations_distinct (imgs_path : list pystr) :
  NoDup (destinations path_join e imgs_path).
Proof.
  unfold destinations. generalize 1%N as k.
  induction imgs_path as [|p rest IH]; intros k; cbn [destinations_from].
  - apply NoDup_nil_2.
  - apply NoDup_cons. split; [|apply IH].
    intros H. apply destinations_from_elem in H as (j & q & Hj & Heq).
    apply join_names_inj, folder_name_inj in Heq. lia.
Qed.
End Destinations.

(** ** A failure after the first page *)

Lemma emits_replicate_S (ev : event) (k : nat) (w : world) :
  emits (replicate k ev) (emit ev w) = emits (replicate (S k) ev) w.
Proof. reflexivity. Qed.

Section FolderRetry.
Variable path_join : pystr -> pystr -> pystr.
Variable piexif_insert : list byte -> outcome (list byte).
Variable e : Episode.
Hypothesis no_exif : exif_setting e = false.

Local Abbreviation saveToFolder_attempt'' :=
  (saveToFolder_attempt path_join piexif_insert e).

(** Once the first staged file is gone, an attempt fails at its first move. *)
Lemma saveToFolder_attempt_first_missing (p1 : pystr) (rest : list pystr) (w : world) :
  faults w = [] -> files w !! p1 = None ->
  saveToFolder_attempt'' (p1 :: rest) w
  = (emit (LogError FolderSave) w, Raised FileNotFoundError).
Proof.
  intros Hf Hp. unfold saveToFolder_attempt. cbn [saveToFolder_loop].
  unfold embed_exif. rewrite no_exif. unfold shutil_move.
  now rewrite pop_fault_none, Hp.
Qed.

Lemma retry_attempt_first_missing (n : nat) : forall (p1 : pystr) (rest : list pystr)
  (w : world),
  faults w = [] -> files w !! p1 = None ->
  retry n (saveToFolder_attempt'' (p1 :: rest)) w
  = (emits (replicate (S n) (LogError FolderSave)) w, Raised FileNotFoundError).
Proof.
  induction n as [|n IH]; intros p1 rest w Hf Hp.
  - now rewrite (retry_last _ _ _ _ (saveToFolder_attempt_first_missing p1 rest w Hf Hp)).
  - rewrite (retry_again n _ _ _ _ (saveToFolder_attempt_first_missing p1 rest w Hf Hp)).
    rewrite IH by assumption. now rewrite emits_replicate_S.
Qed.

(** X19. [saveToFolder] cannot resume. With metadata embedding off, when
    the move of the second page meets a lock, each of the four later
    attempts starts again at the first page, which has been moved already,
    and fails with [FileNotFoundError]: the call returns after five attempt
    errors, the final error, the exception log and one warning box; the
    first page is in the folder, the others stay staged. *)
Theorem saveToFolder_cannot_resume (p1 p2 : pystr) (rest : list pystr)
  (d1 : list byte) (w : world) :
  os_path_exists (epi_path e) w = true ->
  faults w = [false; true] ->
  files w !! p1 = Some d1 ->
  path_join (epi_path e) (folder_name 1 p1) <> p1 ->
  saveToFolder path_join piexif_insert e (p1 :: p2 :: rest) w
  = (emits (replicate 5 (LogError FolderSave)
            ++ [LogError FolderSave; LogException FolderSave; WarningBox FolderSave])
       (set_files (<[path_join (epi_path e) (folder_name 1 p1) := d1]>
                     (delete p1 (files w)))
          (set_faults [] w)),
     Returned ()).
Proof.
  intros Hex Hf Hp Hne. unfold saveToFolder. rewrite Hex. cbn [negb].
  cbn [stop_max_attempt_number pred].
  set (dst := path_join (epi_path e) (folder_name 1 p1)) in *.
  set (w1 := set_files (<[dst := d1]> (delete p1 (files w))) (set_faults [] w)).
  assert (H1 : saveToFolder_attempt'' (p1 :: p2 :: rest) w
               = (emit (LogError FolderSave) w1, Raised PermissionError)).
  { unfold saveToFolder_attempt. cbn [saveToFolder_loop].
    unfold embed_exif. rewrite no_exif. unfold shutil_move at 1, pop_fault.
    rewrite Hf. cbn [files set_faults]. rewrite Hp.
    unfold shutil_move, pop_fault. cbn [faults set_files set_faults]. reflexivity. }
  rewrite (retry_again 3 _ _ _ _ H1).
  rewrite retry_attempt_first_missing.
  - cbn [is_OSError]. rewrite emits_replicate_S, <- emits_app. reflexivity.
  - reflexivity.
  - unfold w1. cbn [files emit set_files]. rewrite lookup_insert_ne by assumption.
    apply lookup_delete_eq.
Qed.
End FolderRetry.

(** ** [downloadImg], run by run *)

Lemma set_faults_emits (f : list bool) (evs : list event) (w : world) :
  set_faults f (emits evs w) = emits evs (set_faults f w).
Proof.
  revert w. induction evs as [|ev evs IH]; intros w; cbn [emits fold_left]; [reflexivity|].
  fold (emits evs (emit ev w)). fold (emits evs (emit ev (set_faults f w))).
  now rewrite IH.
Qed.

Lemma get_image_fails (u : pystr) (w : world) (rest : list (option response)) :
  u <> [] -> net w = None :: rest ->
  get_image u w
  = (set_net rest (emits [Get u (negb (contains (py "token") u)); LogWarning ImgGet] w),
     Raised ConnectionError).
Proof.
  intros Hu H. unfold get_image, request_image.
  destruct (contains (py "token") u); cbn [negb].
  - unfold requests_get, pop_reply. cbn [net emit]. now rewrite H.
  - destruct u; [congruence|]. cbn [is_empty negb].
    unfold requests_get, pop_reply. cbn [net emit]. now rewrite H.
Qed.

Lemma get_image_answers (u : pystr) (w : world) (res : response)
  (rest : list (option response)) (md5 ct : pystr) :
  u <> [] -> net w = Some res :: rest -> status_code res = 200%Z ->
  etag res = Some md5 -> md5 <> [] -> content_type res = Some ct ->
  get_image u w
  = (set_net rest (emit (Get u (negb (contains (py "token") u))) w),
     Returned (content res, md5, negb (startswith ct (py "image/")))).
Proof.
  intros Hu H Hs He Hm Hc. unfold get_image, request_image.
  assert (Hread : forall w0, read_image (NetResp res) w0
            = (w0, Returned (content res, md5, negb (startswith ct (py "image/"))))).
  { intros w0. unfold read_image. rewrite Hs, He, Hc.
    destruct md5; [congruence | reflexivity]. }
  destruct (contains (py "token") u); cbn [negb].
  - unfold requests_get, pop_reply. cbn [net emit]. rewrite H. apply Hread.
  - destruct u; [congruence|]. cbn [is_empty negb].
    unfold requests_get, pop_reply. cbn [net emit]. rewrite H. apply Hread.
Qed.

Lemma retry_get_image_recovers (u : pystr) (k : nat) : forall (n : nat) (w : world)
  (res : response) (rest : list (option response)) (md5 ct : pystr),
  k <= n -> u <> [] ->
  net w = replicate k None ++ Some res :: rest -> status_code res = 200%Z ->
  etag res = Some md5 -> md5 <> [] -> content_type res = Some ct ->
  retry n (get_image u) w
  = (set_net rest
       (emits (failed_gets u (negb (contains (py "token") u)) k
               ++ [Get u (negb (contains (py "token") u))]) w),
     Returned (content res, md5, negb (startswith ct (py "image/")))).
Proof.
  induction k as [|k IH]; intros n w res rest md5 ct Hk Hu Hnet Hs He Hm Hc.
  - cbn [replicate app] in Hnet. apply retry_returned.
    now rewrite (get_image_answers u w res rest md5 ct).
  - destruct n as [|n]; [lia|]. cbn [replicate app] in Hnet.
    rewrite (retry_again n _ _ _ _ (get_image_fails u w _ Hu Hnet)).
    rewrite (IH n _ res rest md5 ct); [|lia|assumption|reflexivity|assumption..].
    rewrite set_net_emits, set_net_set_net, <- set_net_emits, <- emits_app.
    reflexivity.
Qed.

Lemma write_file_ok (p : pystr) (d : list byte) (w : world) (fs : list bool) :
  faults w = false :: fs ->
  write_file p d w = (set_files (<[p := d]> (files w)) (set_faults fs w), Returned ()).
Proof. intros Hf. unfold write_file, pop_fault. now rewrite Hf. Qed.

Lemma write_file_ok_nil (p : pystr) (d : list byte) (w : world) :
  faults w = [] ->
  write_file p d w = (set_files (<[p := d]> (files w)) w, Returned ()).
Proof. intros Hf. unfold write_file. now rewrite pop_fault_none. Qed.

Lemma save_attempt_fault (p : pystr) (d : list byte) (w : world) (fs : list bool) :
  faults w = true :: fs ->
  save_attempt p d w = (emit (LogError ImgSave) (set_faults fs w), Raised PermissionError).
Proof. intros Hf. unfold save_attempt, write_file, pop_fault. now rewrite Hf. Qed.

(** [k] write faults and then a write that goes through, within the five
    attempts. *)
Lemma retry_save_recovers (p : pystr) (d : list byte) (k : nat) : forall (n : nat)
  (w : world) (fs : list bool),
  k <= n -> faults w = replicate k true ++ false :: fs ->
  retry n (save_attempt p d) w
  = (set_files (<[p := d]> (files w))
       (set_faults fs (emits (replicate k (LogError ImgSave)) w)), Returned ()).
Proof.
  induction k as [|k IH]; intros n w fs Hk Hf.
  - cbn [replicate app] in Hf. apply retry_returned. unfold save_attempt.
    now rewrite (write_file_ok p d w fs Hf).
  - destruct n as [|n]; [lia|]. cbn [replicate app] in Hf.
    rewrite (retry_again n _ _ _ _ (save_attempt_fault p d w _ Hf)).
    rewrite (IH n _ fs); [|lia|reflexivity].
    rewrite emits_replicate_S, !set_faults_emits. reflexivity.
Qed.

Lemma retry_save_gives_up (p : pystr) (d : list byte) (n : nat) : forall (w : world)
  (fs : list bool),
  faults w = replicate (S n) true ++ fs ->
  retry n (save_attempt p d) w
  = (emits (replicate (S n) (LogError ImgSave)) (set_faults fs w), Raised PermissionError).
Proof.
  induction n as [|n IH]; intros w fs Hf; cbn [replicate app] in Hf.
  - now rewrite (retry_last _ _ _ _ (save_attempt_fault p d w _ Hf)).
  - rewrite (retry_again n _ _ _ _ (save_attempt_fault p d w _ Hf)).
    rewrite (IH _ fs); [|reflexivity].
    match goal with |- context [set_faults fs (emit ?ev (set_faults ?X w))] =>
      change (set_faults fs (emit ev (set_faults X w))) with (emit ev (set_faults fs w))
    end.
    rewrite emits_replicate_S. reflexivity.
Qed.

Section DownloadRuns.
Variable MAX_RETRY_LARGE : nat.
Variable isCheckSumValid : pystr -> list byte -> bool * pystr.
Variable AES_CBCDecrypt : list byte -> list byte -> list byte -> outcome (list byte).
Variable unquote : pystr -> pystr.
Variable b64decode : pystr -> outcome (list byte).
Variable lower : pystr -> pystr.
Variable path_join : pystr -> pystr -> pystr.
Variable cfg : config.

Local Abbreviation downloadImg'' :=
  (downloadImg MAX_RETRY_LARGE isCheckSumValid AES_CBCDecrypt unquote b64decode
     lower path_join cfg).
Local Abbreviation process_image'' :=
  (process_image isCheckSumValid AES_CBCDecrypt unquote b64decode cfg).
Local Abbreviation decrypt'' := (decrypt AES_CBCDecrypt unquote b64decode).

Lemma process_image_passes (cpx : pystr) (img img' : list byte) (md5 : pystr)
  (hit_encrypt : bool) (w : world) :
  decrypt'' cpx hit_encrypt img = Returned img' ->
  hash_check cfg = false \/ (isCheckSumValid md5 img').1 = true ->
  process_image'' cpx img md5 hit_encrypt w = (w, Returned img').
Proof.
  intros Hd Hc. unfold process_image. cbn [retry stop_max_attempt_number pred].
  rewrite Hd. destruct (hash_check cfg); [|reflexivity].
  destruct Hc as [Hc | Hc]; [discriminate|].
  destruct (isCheckSumValid md5 img') as [v s]. cbn in Hc. now subst.
Qed.

(** X20. [downloadImg] recovers from [k] transport failures when [k] is
    within [MAX_RETRY_LARGE]. With an answer at status 200 that carries an
    [Etag] and a content type, a decryption step that returns, a checksum
    that is valid or not checked, and no file fault, it writes the
    processed bytes to [save_path/idx_index.format] and returns that path;
    it emits [k] failed requests with their warnings and the request that
    succeeded, with the session headers exactly when the URL carries no
    [token]. *)
Theorem downloadImg_recovers_within_budget (e : Episode) (index : Z)
  (img_url cpx : pystr) (w : world) (k : nat) (res : response)
  (rest : list (option response)) (md5 ct : pystr) (img' : list byte) :
  k <= MAX_RETRY_LARGE -> img_url <> [] ->
  net w = replicate k None ++ Some res :: rest -> status_code res = 200%Z ->
  etag res = Some md5 -> md5 <> [] -> content_type res = Some ct ->
  decrypt'' cpx (negb (startswith ct (py "image/"))) (content res) = Returned img' ->
  hash_check cfg = false \/ (isCheckSumValid md5 img').1 = true ->
  faults w = [] ->
  let headers := negb (contains (py "token") img_url) in
  let path_to_save :=
    path_join (save_path e)
      (str_Z (idx e) ++ py "_" ++ str_Z index ++ [c_dot] ++ url_format lower img_url) in
  downloadImg'' e index img_url cpx w
  = (set_files (<[path_to_save := img']> (files w))
       (set_net rest
          (emits (failed_gets img_url headers k ++ [Get img_url headers]) w)),
     Returned (Some path_to_save)).
Proof.
  intros Hk Hu Hnet Hs He Hm Hc Hd Hh Hf. cbv zeta. unfold downloadImg.
  rewrite (retry_get_image_recovers img_url k _ w res rest md5 ct) by assumption.
  rewrite (process_image_passes cpx _ img' md5 _ _ Hd Hh).
  cbn [stop_max_attempt_number pred].
  match goal with |- context [retry 4 (save_attempt ?p ?d) ?w0] =>
    rewrite (retry_returned 4 (save_attempt p d) w0
               (set_files (<[p := d]> (files w0)) w0) ())
  end.
  - cbn [files set_net]. destruct (emits_frame (failed_gets img_url
        (negb (contains (py "token") img_url)) k
        ++ [Get img_url (negb (contains (py "token") img_url))]) w) as (-> & _).
    reflexivity.
  - unfold save_attempt. rewrite write_file_ok_nil; [reflexivity|].
    cbn [faults set_net].
    destruct (emits_frame (failed_gets img_url
        (negb (contains (py "token") img_url)) k
        ++ [Get img_url (negb (contains (py "token") img_url))]) w) as (_ & _ & -> & _).
    exact Hf.
Qed.

Lemma retry_get_image_empty (n : nat) : forall (w : world),
  retry n (get_image []) w
  = (emits (replicate (S n) (LogWarning ImgGet)) w, Raised RequestException).
Proof.
  induction n as [|n IH]; intros w.
  - reflexivity.
  - cbn [retry]. change (get_image [] w)
      with (emit (LogWarning ImgGet) w, @Raised (list byte * pystr * bool) RequestException).
    cbv beta iota. rewrite IH. now rewrite emits_replicate_S.
Qed.

(** X21. For an empty URL [downloadImg] sends no request at all: it logs
    [MAX_RETRY_LARGE + 1] retry warnings, the error, the exception log and
    one warning box, and returns [None]. *)
Theorem downloadImg_empty_url (e : Episode) (index : Z) (cpx : pystr) (w : world) :
  downloadImg'' e index [] cpx w
  = (emits (replicate (S MAX_RETRY_LARGE) (LogWarning ImgGet)
            ++ [LogError ImgGet; LogException ImgGet; WarningBox ImgGet]) w,
     Returned None).
Proof.
  unfold downloadImg. rewrite retry_get_image_empty. cbn [is_RequestException].
  now rewrite <- emits_app.
Qed.

(** X22. Fewer than five locked writes are absorbed: after a download and
    a processing step that succeeded, [k < 5] write faults followed by a
    write that goes through leave the file written; [downloadImg] logs [k]
    attempt errors, sends no warning box and returns the path. *)
Theorem downloadImg_write_recovers (e : Episode) (index : Z) (img_url cpx : pystr)
  (w w1 : world) (img img' : list byte) (md5 : pystr) (hit_encrypt : bool)
  (k : nat) (fs : list bool) :
  retry MAX_RETRY_LARGE (get_image img_url) w = (w1, Returned (img, md5, hit_encrypt)) ->
  process_image'' cpx img md5 hit_encrypt w1 = (w1, Returned img') ->
  k < 5 -> faults w1 = replicate k true ++ false :: fs ->
  let path_to_save :=
    path_join (save_path e)
      (str_Z (idx e) ++ py "_" ++ str_Z index ++ [c_dot] ++ url_format lower img_url) in
  downloadImg'' e index img_url cpx w
  = (set_files (<[path_to_save := img']> (files w1))
       (set_faults fs (emits (replicate k (LogError ImgSave)) w1)),
     Returned (Some path_to_save)).
Proof.
  intros Hg Hp Hk Hf. cbv zeta. unfold downloadImg. rewrite Hg, Hp.
  cbn [stop_max_attempt_number pred].
  rewrite (retry_save_recovers _ _ k 4 w1 fs); [reflexivity | lia | assumption].
Qed.

(** X23. Five locked writes: [downloadImg] returns [None] and writes
    nothing; it logs five attempt errors, then the error, the exception log
    and one warning box. *)
Theorem downloadImg_write_gives_up (e : Episode) (index : Z) (img_url cpx : pystr)
  (w w1 : world) (img img' : list byte) (md5 : pystr) (hit_encrypt : bool)
  (fs : list bool) :
  retry MAX_RETRY_LARGE (get_image img_url) w = (w1, Returned (img, md5, hit_encrypt)) ->
  process_image'' cpx img md5 hit_encrypt w1 = (w1, Returned img') ->
  faults w1 = replicate 5 true ++ fs ->
  let w' := (downloadImg'' e index img_url cpx w).1 in
  downloadImg'' e index img_url cpx w = (w', Returned None) /\
  files w' = files w1 /\ faults w' = fs /\
  trace w' = trace w1 ++ replicate 5 (LogError ImgSave)
             ++ [LogError ImgSave; LogException ImgSave; WarningBox ImgSave].
Proof.
  intros Hg Hp Hf. cbv zeta. unfold downloadImg. rewrite Hg, Hp.
  cbn [stop_max_attempt_number pred].
  rewrite (retry_save_gives_up _ _ 4 w1 fs Hf). cbn [is_OSError fst].
  rewrite <- emits_app.
  match goal with |- context [emits ?evs ?w0] =>
    destruct (emits_frame evs w0) as (Hfi & _ & Hfa & _ & _ & Htr) end.
  repeat split; assumption.
Qed.
End DownloadRuns.

(** ** How many requests an image costs *)

Lemma downloads_emit (ev : event) (w : world) :
  downloads (emit ev w) = (if is_get ev then S (downloads w) else downloads w).
Proof.
  unfold downloads, emit. cbn [trace]. rewrite List.filter_app, length_app.
  cbn [List.filter]. destruct (is_get ev); simpl; lia.
Qed.

Lemma downloads_trace (w w' : world) : trace w' = trace w -> downloads w' = downloads w.
Proof. unfold downloads. now intros ->. Qed.

Lemma downloads_emits_quiet (evs : list event) (w : world) :
  forallb (fun ev => negb (is_get ev)) evs = true ->
  downloads (emits evs w) = downloads w.
Proof.
  revert w. induction evs as [|ev evs IH]; intros w H; [reflexivity|].
  cbn [forallb] in H. apply andb_true_iff in H as [Hev H].
  cbn [emits fold_left]. fold (emits evs (emit ev w)).
  rewrite (IH _ H), downloads_emit. now destruct (is_get ev).
Qed.

Lemma get_image_downloads (u : pystr) (w w' : world) r :
  get_image u w = (w', r) -> downloads w' <= S (downloads w).
Proof.
  unfold get_image. destruct (request_image u w) as [rep w1] eqn:E.
  assert (H1 : downloads w1 <= S (downloads w)).
  { revert E. unfold request_image, requests_get.
    destruct (contains (py "token") u); [|destruct (negb (is_empty u))].
    - intros E. apply pop_reply_trace in E as [Ht _].
      rewrite (downloads_trace _ _ Ht), downloads_emit. cbn. lia.
    - intros E. apply pop_reply_trace in E as [Ht _].
      rewrite (downloads_trace _ _ Ht), downloads_emit. cbn. lia.
    - intros [= <- <-]. lia. }
  unfold read_image. destruct rep as [x|res].
  - destruct (is_RequestException x); intros [= <- <-]; rewrite ?downloads_emit; cbn; lia.
  - destruct (negb (status_code res =? 200)%Z);
      [intros [= <- <-]; rewrite ?downloads_emit; cbn; lia|].
    destruct (etag res) as [md5|]; [|intros [= <- <-]; lia].
    destruct (is_empty md5); [intros [= <- <-]; lia|].
    destruct (content_type res); intros [= <- <-]; lia.
Qed.

Lemma retry_bounded {St A} (m : St -> nat) (f : St -> St * outcome A) :
  (forall s s' r, f s = (s', r) -> m s' <= S (m s)) ->
  forall n s s' r, retry n f s = (s', r) -> m s' <= m s + S n.
Proof.
  intros Hf n. induction n as [|n IH]; intros s s' r; cbn [retry];
    destruct (f s) as [s1 [a|x]] eqn:E; apply Hf in E.
  - intros [= <- <-]. lia.
  - intros [= <- <-]. lia.
  - intros [= <- <-]. lia.
  - intros H. apply IH in H. lia.
Qed.

Lemma save_attempt_downloads (p : pystr) (img : list byte) (w w' : world) r :
  save_attempt p img w = (w', r) -> downloads w' = downloads w.
Proof.
  unfold save_attempt. destruct (write_file p img w) as [w1 [[]|x]] eqn:E;
    apply write_file_trace in E as [Ht _]; intros [= <- <-].
  - now apply downloads_trace.
  - destruct (is_OSError x); rewrite ?downloads_emit; cbn; now apply downloads_trace.
Qed.

Section DownloadBound.
Variable MAX_RETRY_LARGE : nat.
Variable isCheckSumValid : pystr -> list byte -> bool * pystr.
Variable AES_CBCDecrypt : list byte -> list byte -> list byte -> outcome (list byte).
Variable unquote : pystr -> pystr.
Variable b64decode : pystr -> outcome (list byte).
Variable lower : pystr -> pystr.
Variable path_join : pystr -> pystr -> pystr.
Variable cfg : config.

Lemma process_image_downloads (cpx : pystr) (img : list byte) (md5 : pystr)
  (hit : bool) (w w' : world) (r : outcome (list byte)) :
  process_image isCheckSumValid AES_CBCDecrypt unquote b64decode cfg cpx img md5 hit w
  = (w', r) ->
  downloads w' = downloads w.
Proof.
  unfold process_image. cbn [retry stop_max_attempt_number pred].
  destruct (decrypt AES_CBCDecrypt unquote b64decode cpx hit img) as [img'|x].
  - destruct (hash_check cfg).
    + destruct (isCheckSumValid md5 img') as [isValid img_md5].
      destruct isValid; cbn [negb]; intros [= <- <-]; [reflexivity|].
      cbn [is_OSError]. now rewrite !downloads_emit.
    + now intros [= <- <-].
  - intros [= <- <-]. destruct (is_OSError x); [|reflexivity].
    cbn [emits fold_left]. now rewrite !downloads_emit.
Qed.

(** X24. Whatever the network answers, one call of [downloadImg] issues at
    most [MAX_RETRY_LARGE + 1] image requests. *)
Theorem downloadImg_request_bound (e : Episode) (index : Z) (img_url cpx : pystr)
  (w : world) :
  downloads (downloadImg MAX_RETRY_LARGE isCheckSumValid AES_CBCDecrypt unquote
               b64decode lower path_join cfg e index img_url cpx w).1
  <= downloads w + S MAX_RETRY_LARGE.
Proof.
  unfold downloadImg.
  destruct (retry MAX_RETRY_LARGE (get_image img_url) w) as [w1 r1] eqn:E1.
  apply (retry_bounded downloads) in E1; [|intros s s' r; apply get_image_downloads].
  destruct r1 as [[[img md5] hit]|x].
  2:{ destruct (is_RequestException x); cbn [fst]; [|assumption].
      now rewrite downloads_emits_quiet. }
  destruct (process_image _ _ _ _ _ cpx img md5 hit w1) as [w2 r2] eqn:E2.
  apply process_image_downloads in E2.
  destruct r2 as [img'|x]; cbn [fst]; [|lia].
  match goal with |- context [retry ?n ?f w2] =>
    destruct (retry n f w2) as [w3 r3] eqn:E3 end.
  assert (H3 : downloads w3 = downloads w2).
  { eapply (retry_invariant (fun s => downloads s = downloads w2)) in E3;
      [exact E3| |reflexivity].
    intros s s' r0 Hs Hg. apply save_attempt_downloads in Hg. congruence. }
  destruct r3 as [[]|x]; cbn [fst].
  - lia.
  - destruct (is_OSError x); cbn [fst]; rewrite ?downloads_emits_quiet by reflexivity; lia.
Qed.
End DownloadBound.

(** ** [save] *)

Section SaveDispatch.
Variable path_join : pystr -> pystr -> pystr.
Variable piexif_insert : list byte -> outcome (list byte).
Variable image : Type.
Variable Image_open : list byte -> outcome image.
Variable Image_mode : image -> pystr.
Variable Image_convert_RGB : image -> outcome image.
Variable Image_save_pdf : image -> list image -> outcome (list byte).
Variable pdf_add_metadata : Episode -> list byte -> outcome (list byte).
Variable inside : pystr -> pystr -> bool.
Variable basename : pystr -> pystr.
Variable SevenZipFile_bytes ZipFile_bytes : list (pystr * list byte) -> list byte.
Variable comicinfoxml_serialize : pystr -> io unit.

Local Abbreviation save' :=
  (save path_join piexif_insert image Image_open Image_mode Image_convert_RGB
     Image_save_pdf pdf_add_metadata inside basename SevenZipFile_bytes
     ZipFile_bytes comicinfoxml_serialize).

(** X25. When metadata embedding is off, or [piexif.insert] raises nothing
    but [InvalidImageDataError], [save] with the folder method returns the
    chapter folder path, also when [saveToFolder] failed and sent its
    warning: the result does not tell a failed save from a good one, and
    the staged list is handed back as it was. A save method that is none of
    the five returns the empty path and touches nothing. *)
Theorem save_folder_reports_no_failure (e : Episode) (imgs_path : list pystr)
  (w : world) :
  exif_setting e = false \/ (forall d, piexif_contained piexif_insert d) ->
  let r := save' (py "文件夹-图片") e imgs_path w in
  r.2 = Returned (epi_path e) /\
  r.1 = ((saveToFolder path_join piexif_insert e imgs_path w).1, imgs_path) /\
  (forall save_method, save_method ∉ save_methods ->
     save' save_method e imgs_path w = ((w, imgs_path), Returned [])).
Proof.
  intros Hsafe. cbv zeta.
  destruct (saveToFolder_returns path_join piexif_insert e imgs_path w Hsafe) as (Hr & _).
  rewrite (save_folder _ _ _ _ _ _ _ _ _ _ _ _ _ e imgs_path w Hr).
  split; [reflexivity|]. split; [reflexivity|].
  intros m Hm. now apply save_other.
Qed.
End SaveDispatch.

(** ** [SearchComic.getResults] *)




Lemma retrying_search_dead (n : nat) : forall (w : search_world)
  (rest : list (option search_response)),
  search_net w = replicate (S n) None ++ rest ->
  retrying false n search_attempt w
  = ({| search_net := rest;
        search_trace := search_trace w ++ replicate (S n) SearchPost |},
     inr (Plain TypeError)).
Proof.
  induction n as [|n IH]; intros w rest Hnet; cbn [replicate app] in Hnet;
    cbn [retrying]; unfold search_attempt at 1, search_pop;
    cbn [search_net search_emit search_trace]; rewrite Hnet.
  - reflexivity.
  - rewrite (IH _ rest) by reflexivity. cbn [search_trace].
    rewrite <- app_assoc. reflexivity.
Qed.

(** X27. When every request of a search fails in transport, [getResults]
    raises [TypeError] to its caller after [again + 1] requests. It has
    logged only its opening line: no warning, no error, no warning box, and
    it does not return the empty list. *)
Theorem getResults_transport_failure_raises (again : nat) (w : search_world)
  (rest : list (option search_response)) :
  search_net w = replicate (S again) None ++ rest ->
  getResults again w
  = ({| search_net := rest;
        search_trace := search_trace w ++ SearchLogInfo :: replicate (S again) SearchPost |},
     inr (Plain TypeError)).
Proof.
  intros Hnet. unfold getResults.
  rewrite (retrying_search_dead again _ rest) by exact Hnet.
  cbn [search_trace search_emit]. now rewrite <- app_assoc.
Qed.

(** ** The selection counter *)

Lemma cnt_cons (it : list_item) (its : list list_item) :
  cnt (it :: its) = (Z.b2z (ready it) + cnt its)%Z.
Proof. unfold cnt. cbn [List.filter]. destruct (ready it); cbn [length Z.b2z]; lia. Qed.

Lemma cnt_insert (its : list list_item) : forall (i : nat) (it it' : list_item),
  its !! i = Some it ->
  cnt (<[i := it']> its) = (cnt its - Z.b2z (ready it) + Z.b2z (ready it'))%Z.
Proof.
  induction its as [|x its IH]; intros i it it' H; [discriminate|].
  destruct i as [|i]; cbn in H.
  - injection H as ->. cbn [insert list_insert]. rewrite !cnt_cons. lia.
  - change (<[S i := it']> (x :: its)) with (x :: <[i := it']> its).
    rewrite !cnt_cons, (IH _ _ _ H). lia.
Qed.

(** A loop whose body moves the counter as it moves the readiness of the
    item keeps the counter in step. *)
Lemma for_items_delta (body : list_item -> Z -> list_item * Z) :
  (forall it n, ((body it n).2 - n = Z.b2z (ready (body it n).1) - Z.b2z (ready it))%Z) ->
  forall its n,
    ((for_items body its n).2 - n = cnt (for_items body its n).1 - cnt its)%Z.
Proof.
  intros Hb. induction its as [|it its IH]; intros n; cbn [for_items].
  - unfold cnt. cbn. lia.
  - specialize (Hb it n). destruct (body it n) as [it' n'].
    specialize (IH n'). destruct (for_items body its n') as [its' n''].
    cbv beta iota zeta. cbn [fst snd] in *. rewrite !cnt_cons. lia.
Qed.

(** A loop whose body counts the items it leaves ready ends with their
    number. *)
Lemma for_items_absolute (body : list_item -> Z -> list_item * Z) :
  (forall it n, (body it n).2 = (n + Z.b2z (ready (body it n).1))%Z) ->
  forall its n,
    (for_items body its n).2 = (n + cnt (for_items body its n).1)%Z.
Proof.
  intros Hb. induction its as [|it its IH]; intros n; cbn [for_items].
  - unfold cnt. cbn. lia.
  - specialize (Hb it n). destruct (body it n) as [it' n'].
    specialize (IH n'). destruct (for_items body its n') as [its' n''].
    cbv beta iota zeta. cbn [fst snd] in *. rewrite !cnt_cons. lia.
Qed.

Lemma queue_checked_spec (its : list list_item) : forall (i : nat) (queued : list nat),
  cnt (queue_checked i its queued).1 = 0%Z /\
  Z.of_nat (length (queue_checked i its queued).2)
  = (Z.of_nat (length queued) + cnt its)%Z.
Proof.
  induction its as [|it its IH]; intros i queued; cbn [queue_checked].
  - unfold cnt. cbn. lia.
  - assert (Hr : ready it = item_enabled it && is_checked (item_check it)) by reflexivity.
    rewrite (cnt_cons it its), Hr.
    destruct (item_enabled it && is_checked (item_check it)) eqn:E.
    + specialize (IH (S i) (queued ++ [i])).
      destruct (queue_checked (S i) its (queued ++ [i])) as [its' q'].
      cbv beta iota zeta. cbn [fst snd] in *. rewrite cnt_cons.
      rewrite length_app in IH. cbn in IH |- *. lia.
    + specialize (IH (S i) queued).
      destruct (queue_checked (S i) its queued) as [its' q'].
      cbv beta iota zeta. cbn [fst snd] in *. rewrite cnt_cons, Hr. cbn. lia.
Qed.

Lemma cnt_new_items (epi_list : list (bool * bool)) :
  cnt (map (fun epi => new_item epi.1 epi.2) epi_list) = 0%Z.
Proof.
  induction epi_list as [|[d a] l IH]; [reflexivity|].
  cbn [map]. rewrite cnt_cons, IH. now destruct d, a.
Qed.

(** X28. The selection counter. On the list [updateComicInfo] builds, and
    after every handler that [init_episodesDetails] binds (a click, check
    or uncheck of the highlighted items, check or uncheck of all, the
    download), [num_selected] is the number of enabled checked items, if
    it was before. *)
Theorem selection_counter_invariant :
  (forall epi_list n, counted (updateComicInfo epi_list n)) /\
  (forall a u, counted u -> counted (ui_step a u)).
Proof.
  split.
  - intros epi_list n. unfold counted, updateComicInfo. cbn [num_selected items].
    now rewrite cnt_new_items.
  - intros a u Hu. unfold counted in *. destruct a; cbn [ui_step].
    + unfold itemClicked. destruct (items u !! i) as [it|] eqn:E; [|assumption].
      destruct (item_enabled it) eqn:Een; cbn [negb]; [|assumption].
      destruct (item_check it) eqn:Ech; cbn [is_checked is_unchecked]; try assumption;
        cbn [with_items num_selected items fst snd];
        rewrite (cnt_insert _ _ _ _ E); unfold ready; cbn [set_check item_enabled item_check];
        rewrite Een, Ech; cbn; lia.
    + unfold checkSelected. cbn [with_items num_selected items].
      match goal with |- context [for_items ?b _ _] =>
        pose proof (for_items_delta b) as H end.
      specialize (H ltac:(
        intros it n; cbv beta; destruct (item_highlighted it); [|cbn [fst snd]; lia];
        unfold ready; destruct it as [en ch hi]; destruct en, ch; cbn; lia) (items u) (num_selected u)).
      lia.
    + unfold uncheckSelected. cbn [with_items num_selected items].
      match goal with |- context [for_items ?b _ _] =>
        pose proof (for_items_delta b) as H end.
      specialize (H ltac:(
        intros it n; cbv beta; destruct (item_highlighted it); [|cbn [fst snd]; lia];
        unfold ready; destruct it as [en ch hi]; destruct en, ch; cbn; lia) (items u) (num_selected u)).
      lia.
    + unfold checkAll. cbn [with_items num_selected items].
      match goal with |- context [for_items ?b _ _] =>
        pose proof (for_items_absolute b) as H end.
      specialize (H ltac:(
        intros it n; cbv beta; unfold ready; destruct it as [en ch hi];
        destruct en, ch; cbn; lia) (items u) 0%Z).
      lia.
    + unfold uncheckAll. cbn [with_items num_selected items].
      match goal with |- context [for_items ?b _ _] =>
        pose proof (for_items_absolute b) as H end.
      specialize (H ltac:(
        intros it n; cbv beta; unfold ready; destruct it as [en ch hi];
        destruct en, ch; cbn; lia) (items u) 0%Z).
      lia.
    + unfold download_selected. destruct (num_selected u =? 0)%Z; [assumption|].
      cbn [num_selected items].
      destruct (queue_checked_spec (items u) 0 (tasks u)) as [H _]. now rewrite H.
Qed.

(** X29. The download handler queues exactly what the counter shows: from
    a state where [num_selected] is the number of enabled checked items, it
    adds that many tasks, adds that number to the downloaded count, resets
    the counter to 0 and leaves no enabled checked item. *)
Theorem download_selected_queues_what_is_counted (u : chapter_list) :
  counted u ->
  let u' := download_selected u in
  Z.of_nat (length (tasks u')) = (Z.of_nat (length (tasks u)) + num_selected u)%Z /\
  num_downloaded u' = (num_downloaded u + num_selected u)%Z /\
  num_selected u' = 0%Z /\
  cnt (items u') = 0%Z.
Proof.
  intros Hu. cbv zeta. unfold counted in Hu. unfold download_selected.
  destruct (Z.eqb_spec (num_selected u) 0) as [E|E].
  - rewrite E. repeat split; lia.
  - cbn [tasks num_downloaded num_selected items].
    destruct (queue_checked_spec (items u) 0 (tasks u)) as [H1 H2].
    repeat split; try assumption. rewrite H2. lia.
Qed.

(** ** Instances *)

Ltac py_neq := let H := fresh in intros H; vm_compute in H; discriminate H.

Lemma latin_digit_not_space (c : char) :
  is_ascii_digit c = true -> latin_isspace c = false.
Proof.
  unfold is_ascii_digit, latin_isspace. intros H.
  apply andb_true_iff in H as [H1 H2]. apply N.leb_le in H1, H2.
  apply orb_false_iff. split; apply andb_false_iff.
  - right. apply N.leb_gt. lia.
  - right. apply N.leb_gt. lia.
Qed.


(** X2 on the rule [short&idx]. *)
Lemma rename_title_strips_whitespace_witness :
  latin_isspace c_di = false /\
  latin_isspace (List.last (c_di :: py "1话 7") c_di) = false.
Proof.
  apply (rename_title_strips_whitespace latin_isspace (py "short&idx")
           (Demo.episode (py "第1话") (py "第1话 开始")) c_di (py "1话 7")).
  - py_neq.
  - py_neq.
  - reflexivity.
  - reflexivity.
Defined.

(** X3 on the rule [vol&chapter]. *)
Lemma rename_title_unknown_tokens_empty_title_witness :
  title (rename_title latin_isspace (Some (py "vol&chapter"))
           (Demo.episode (py "第1话") (py "开始"))).1 = [].
Proof.
  apply (rename_title_unknown_tokens_empty_title latin_isspace (py "vol&chapter")
           (Demo.episode (py "第1话") (py "开始"))).
  - py_neq.
  - apply Forall_forall. apply (bool_decide_unpack _). vm_compute. exact I.
  - reflexivity.
Defined.

(** X4 on chapter index 7 and the rule [3idx]. *)
Lemma rename_title_padded_index_reads_back_witness :
  let e' := (rename_title latin_isspace (Some (py "3idx")) (Demo.episode [] [])).1 in
  title e' = format_0d 3 7 /\ parse_int (title e') = Some 7%Z /\ 3 <= length (title e').
Proof.
  apply (rename_title_padded_index_reads_back latin_isspace eq_refl
           latin_digit_not_space eq_refl false (Demo.episode [] [])).
Defined.

(** X5 on chapter 12.5 and the rule [3ord]. *)
Lemma rename_title_fractional_ordinal_witness :
  let r := rename_title latin_isspace (Some (py "3ord")) Samples.half_chapter in
  r.2 = Returned () /\
  title r.1 = format_0d 3 12 ++ c_dot :: py "5" /\
  ord r.1 = OrdStr (int_text false 12).
Proof.
  apply (rename_title_fractional_ordinal latin_isspace eq_refl
           latin_digit_not_space eq_refl false Samples.half_chapter false 12 (py "5")).
  - reflexivity.
  - py_neq.
  - reflexivity.
Defined.

(** X6 on the short title 12 and the long title 第12话 决战. *)
Lemma get_default_title_collapses_repeated_number_witness :
  get_default_title latin_isdecimal latin_isspace Samples.repeated_number
  = [c_di] ++ py "12" ++ [c_hua] ++ py " 决战".
Proof.
  apply (get_default_title_collapses_repeated_number latin_isdecimal latin_isspace
           eq_refl eq_refl eq_refl eq_refl eq_refl Samples.repeated_number
           (py "12") (py " 决战")).
  - py_neq.
  - reflexivity.
  - reflexivity.
  - reflexivity.
Defined.

(** X8 on the title 12 given twice. *)
Lemma get_default_title_bare_number_witness :
  get_default_title latin_isdecimal latin_isspace (Demo.episode (py "12") (py "12"))
  = [c_di] ++ py "12" ++ [c_hua].
Proof.
  apply (get_default_title_bare_number latin_isdecimal latin_isspace
           latin_digit_not_space (Demo.episode (py "12") (py "12")) (py "12")).
  - py_neq.
  - reflexivity.
  - reflexivity.
  - reflexivity.
Defined.

(** X10 on one transport failure before the two answers. *)
Lemma init_imgsList_recovers_within_budget_witness :
  init_imgsList 3 Samples.settings (Demo.episode [] []) Samples.w_recovering
  = (set_net []
       (emits (failed_posts GetImageIndexURL [] ListFetch 1
               ++ [Post GetImageIndexURL [];
                   Post ImageTokenURL [py "/bfs/manga/a.jpg" ++ py "@10000w.jpg"]])
          Samples.w_recovering),
     set_imgs_token (Demo.episode [] []) [Samples.signed_entry], Returned true).
Proof.
  apply (init_imgsList_recovers_within_budget 3 Samples.settings (Demo.episode [] [])
           Samples.w_recovering 1 Samples.listed
           (Demo.token_reply [Samples.signed_entry]) [] (py "@10000w.jpg")
           (py "https://i0.hdslb.com/bfs/manga/a.jpg@10000w.jpg?token=abc")
           Samples.signed_entry []).
  - lia.
  - reflexivity.
  - reflexivity.
  - reflexivity.
  - reflexivity.
  - reflexivity.
  - reflexivity.
  - reflexivity.
  - reflexivity.
  - reflexivity.
Defined.

(** X11 on a token reply whose URLs carry no token. *)
Lemma init_imgsList_lockout_trips_witness :
  (init_imgsList 3 Samples.settings (Demo.episode [] []) Samples.w_unsigned).2
  = Returned false /\
  need_sms_verify
    (init_imgsList 3 Samples.settings (Demo.episode [] []) Samples.w_unsigned).1.1 = true.
Proof.
  destruct (init_imgsList_lockout_trips 3 Samples.settings (Demo.episode [] [])
              Samples.w_unsigned Samples.listed
              (Demo.token_reply [Samples.unsigned_entry]) [] (py "@10000w.jpg")
              (py "https://i0.hdslb.com/bfs/manga/a.jpg@10000w.jpg")
              (py "https://i0.hdslb.com/bfs/manga/a.jpg@10000w.jpg")
              Samples.unsigned_entry [] eq_refl eq_refl eq_refl eq_refl eq_refl eq_refl
              eq_refl eq_refl eq_refl eq_refl eq_refl) as [H _].
  rewrite H. split; reflexivity.
Defined.

(** X12 on an empty token reply. *)
Lemma init_imgsList_malformed_token_reply_witness :
  (init_imgsList 3 Samples.settings (Demo.episode [] []) Samples.w_no_tokens).2
  = Raised IndexError.
Proof.
  rewrite (proj1 (init_imgsList_malformed_token_reply 3 Samples.settings
                    (Demo.episode [] []) Samples.w_no_tokens Samples.listed
                    (Demo.token_reply []) [] (py "@10000w.jpg")
                    eq_refl eq_refl eq_refl eq_refl eq_refl eq_refl) eq_refl).
  reflexivity.
Defined.

(** X13 on four transport failures and a budget of three re-attempts. *)
Lemma init_imgsList_list_stage_gives_up_witness :
  init_imgsList 3 Samples.settings (Demo.episode [] []) Samples.w_dead
  = (emits (failed_posts GetImageIndexURL [] ListFetch 4
            ++ [LogError ListFetch; LogException ListFetch; WarningBox ListFetch])
       (set_net [] Samples.w_dead),
     Demo.episode [] [], Returned false).
Proof.
  apply (init_imgsList_list_stage_gives_up 3 Samples.settings (Demo.episode [] [])
           Samples.w_dead []).
  reflexivity.
Defined.

(** X14 on a list answer followed by four transport failures. *)
Lemma init_imgsList_token_stage_gives_up_witness :
  init_imgsList 3 Samples.settings (Demo.episode [] []) Samples.w_dead_tokens
  = (emits ([Post GetImageIndexURL []]
            ++ failed_posts ImageTokenURL [py "/bfs/manga/a.jpg" ++ py "@10000w.jpg"]
                 TokenFetch 4
            ++ [LogError TokenFetch; LogException TokenFetch; WarningBox TokenFetch])
       (set_net [] Samples.w_dead_tokens),
     Demo.episode [] [], Returned false).
Proof.
  apply (init_imgsList_token_stage_gives_up 3 Samples.settings (Demo.episode [] [])
           Samples.w_dead_tokens Samples.listed [] (py "@10000w.jpg")).
  - reflexivity.
  - reflexivity.
  - reflexivity.
Defined.

(** X15 on the three staged pages. *)
Lemma clearAfterSave_removes_all_witness :
  clearAfterSave Demo.staged_paths Demo.staged_world
  = ((set_files (foldr delete (files Demo.staged_world) Demo.staged_paths)
        Demo.staged_world, []), Returned ()).
Proof.
  apply (clearAfterSave_removes_all Demo.staged_paths Demo.staged_world).
  - reflexivity.
  - apply (bool_decide_unpack _). vm_compute. exact I.
  - apply Forall_forall. apply (bool_decide_unpack _). vm_compute. exact I.
  - apply Forall_forall. apply (bool_decide_unpack _). vm_compute. exact I.
Defined.

(** X16 on a lock that meets the removal of the second page. *)
Lemma clearAfterSave_resumes_after_fault_witness :
  let r := clearAfterSave Demo.staged_paths
             (Demo.with_faults [false; true] Demo.staged_world) in
  r.2 = Returned () /\ r.1.2 = [] /\
  trace r.1.1 = [LogWarning TempRemove].
Proof.
  destruct (clearAfterSave_resumes_after_fault
              [py "/dl/comic/7_1.jpg"] [py "/dl/comic/7_3.jpg"] (py "/dl/comic/7_2.png")
              (Demo.with_faults [false; true] Demo.staged_world)) as (H1 & H2 & H3 & _).
  - apply (bool_decide_unpack _). vm_compute. exact I.
  - reflexivity.
  - apply Forall_forall. apply (bool_decide_unpack _). vm_compute. exact I.
  - apply Forall_forall. apply (bool_decide_unpack _). vm_compute. exact I.
  - exact (conj H1 (conj H2 H3)).
Defined.

(** X17 on a list whose last path was never staged. *)
Lemma clearAfterSave_missing_last_file_gives_up_witness :
  clearAfterSave (Demo.staged_paths ++ [py "/dl/comic/7_9.jpg"]) Demo.staged_world
  = ((emits (replicate 3 (LogWarning TempRemove)
             ++ [LogError TempRemove; LogException TempRemove; WarningBox TempRemove])
        Demo.staged_world,
      Demo.staged_paths ++ [py "/dl/comic/7_9.jpg"]), Returned ()).
Proof.
  apply (clearAfterSave_missing_last_file_gives_up Demo.staged_paths
           (py "/dl/comic/7_9.jpg") Demo.staged_world).
  - reflexivity.
  - reflexivity.
Defined.

Lemma folder_name_head (i : N) (p : pystr) :
  exists c r, folder_name i p = c :: r /\ is_ascii_digit c = true.
Proof.
  unfold folder_name. pose proof (zfill_str_N_digits 3 i) as Hd.
  destruct (zfill 3 (str_N i)) as [|c r] eqn:E.
  - rewrite zfill_digits in E by apply str_N_digits.
    apply app_eq_nil in E as [_ E]. now apply str_N_nonempty in E.
  - cbn [forallb] in Hd. apply andb_true_iff in Hd as [Hc _].
    eexists _, _. split; [reflexivity | exact Hc].
Qed.

Lemma Demo_path_join_relative (c : char) (r : pystr) :
  is_ascii_digit c = true ->
  Demo.path_join (py "/dl/comic/ch") (c :: r) = py "/dl/comic/ch" ++ py "/" ++ c :: r.
Proof.
  intros Hc. unfold Demo.path_join.
  change (py "/") with [47%N]. cbn [startswith].
  destruct (N.eqb_spec 47 c) as [<-|_]; [discriminate Hc|].
  cbn [andb]. reflexivity.
Qed.

Lemma Demo_path_join_names_inj (i j : N) (p q : pystr) :
  Demo.path_join (py "/dl/comic/ch") (folder_name i p)
  = Demo.path_join (py "/dl/comic/ch") (folder_name j q) ->
  folder_name i p = folder_name j q.
Proof.
  destruct (folder_name_head i p) as (c & r & -> & Hc).
  destruct (folder_name_head j q) as (d & s & -> & Hd).
  rewrite !Demo_path_join_relative by assumption.
  intros H. apply app_inv_head in H. now apply app_inv_head in H.
Qed.

(** X18 on the three staged pages. *)
Lemma destinations_distinct_witness :
  NoDup (destinations Demo.path_join Demo.episode_exif Demo.staged_paths).
Proof.
  apply (destinations_distinct Demo.path_join Demo.episode_exif
           Demo_path_join_names_inj Demo.staged_paths).
Defined.

(** X19 on a lock that meets the move of the second page. *)
Lemma saveToFolder_cannot_resume_witness :
  saveToFolder Demo.path_join Demo.piexif_insert (Demo.episode [] [])
    Demo.staged_paths Samples.w_folder_locked
  = (emits (replicate 5 (LogError FolderSave)
            ++ [LogError FolderSave; LogException FolderSave; WarningBox FolderSave])
       (set_files (<[Demo.path_join (py "/dl/comic/ch")
                       (folder_name 1 (py "/dl/comic/7_1.jpg")) := [xff; xd8]]>
                     (delete (py "/dl/comic/7_1.jpg") (files Samples.w_folder_locked)))
          (set_faults [] Samples.w_folder_locked)),
     Returned ()).
Proof.
  apply (saveToFolder_cannot_resume Demo.path_join Demo.piexif_insert
           (Demo.episode [] []) eq_refl
           (py "/dl/comic/7_1.jpg") (py "/dl/comic/7_2.png") [py "/dl/comic/7_3.jpg"]
           [xff; xd8] Samples.w_folder_locked).
  - reflexivity.
  - reflexivity.
  - reflexivity.
  - py_neq.
Defined.

(** X20 on one transport failure before the image. *)
Lemma downloadImg_recovers_within_budget_witness :
  (Demo.downloadImg Samples.settings (Demo.episode [] []) 2 Samples.image_url []
     Samples.w_image).2
  = Returned (Some (py "/dl/comic/7_2.jpg")).
Proof.
  unfold Demo.downloadImg.
  rewrite (downloadImg_recovers_within_budget 3 Demo.isCheckSumValid Demo.AES_CBCDecrypt
             Demo.unquote Demo.b64decode Demo.lower Demo.path_join Samples.settings
             (Demo.episode [] []) 2 Samples.image_url [] Samples.w_image 1
             Samples.image [] (py "3") (py "image/jpeg") [x01; x02; x03]).
  - reflexivity.
  - lia.
  - py_neq.
  - reflexivity.
  - reflexivity.
  - reflexivity.
  - py_neq.
  - reflexivity.
  - reflexivity.
  - right. reflexivity.
  - reflexivity.
Defined.

(** X22 on two locked writes before the third goes through. *)
Lemma downloadImg_write_recovers_witness :
  let w1 := (retry 3 (get_image Samples.image_url) (Samples.w_write_locked 2)).1 in
  Demo.downloadImg Samples.settings (Demo.episode [] []) 2 Samples.image_url []
    (Samples.w_write_locked 2)
  = (set_files (<[py "/dl/comic/7_2.jpg" := [x01; x02; x03]]> (files w1))
       (set_faults [] (emits (replicate 2 (LogError ImgSave)) w1)),
     Returned (Some (py "/dl/comic/7_2.jpg"))).
Proof.
  apply (downloadImg_write_recovers 3 Demo.isCheckSumValid Demo.AES_CBCDecrypt
           Demo.unquote Demo.b64decode Demo.lower Demo.path_join Samples.settings
           (Demo.episode [] []) 2 Samples.image_url [] (Samples.w_write_locked 2)
           (retry 3 (get_image Samples.image_url) (Samples.w_write_locked 2)).1
           [x01; x02; x03] [x01; x02; x03] (py "3") false 2 []).
  - reflexivity.
  - reflexivity.
  - lia.
  - reflexivity.
Defined.

(** X23 on five locked writes. *)
Lemma downloadImg_write_gives_up_witness :
  let r := Demo.downloadImg Samples.settings (Demo.episode [] []) 2 Samples.image_url []
             (Samples.w_write_locked 5) in
  r.2 = Returned None /\ files r.1 = ∅ /\ faults r.1 = [false].
Proof.
  destruct (downloadImg_write_gives_up 3 Demo.isCheckSumValid Demo.AES_CBCDecrypt
              Demo.unquote Demo.b64decode Demo.lower Demo.path_join Samples.settings
              (Demo.episode [] []) 2 Samples.image_url [] (Samples.w_write_locked 5)
              (retry 3 (get_image Samples.image_url) (Samples.w_write_locked 5)).1
              [x01; x02; x03] [x01; x02; x03] (py "3") false [false]
              eq_refl eq_refl eq_refl) as (H1 & H2 & H3 & _).
  cbv zeta. unfold Demo.downloadImg. rewrite H1 at 1.
  split; [reflexivity|]. split; [exact H2 | exact H3].
Defined.

(** X25 on the three staged pages when the second file operation meets a
    lock: [saveToFolder] gives up and warns, and [save] returns the folder
    path all the same. *)
Lemma save_folder_reports_no_failure_witness :
  let r := Samples.save (py "文件夹-图片") (Demo.episode [] []) Demo.staged_paths
             Samples.w_folder_locked in
  r.2 = Returned (py "/dl/comic/ch") /\ r.1.2 = Demo.staged_paths /\
  warnings r.1.1 = 1.
Proof.
  destruct (save_folder_reports_no_failure Demo.path_join Demo.piexif_insert
              (list byte) Samples.Image_open Samples.Image_mode
              Samples.Image_convert_RGB Samples.Image_save_pdf
              Samples.pdf_add_metadata Samples.inside Samples.basename
              Samples.archive_bytes Samples.archive_bytes
              Samples.comicinfoxml_serialize (Demo.episode [] [])
              Demo.staged_paths Samples.w_folder_locked (or_introl eq_refl))
    as (Hr & Hst & _).
  cbv zeta. unfold Samples.save. split; [exact Hr|]. rewrite Hst.
  split; [reflexivity|]. vm_compute. reflexivity.
Defined.

(** X27 on three transport failures and two re-attempts. *)
Lemma getResults_transport_failure_raises_witness :
  getResults 2 Samples.w_search_dead
  = ({| search_net := [];
        search_trace := [SearchLogInfo; SearchPost; SearchPost; SearchPost] |},
     inr (Plain TypeError)).
Proof.
  apply (getResults_transport_failure_raises 2 Samples.w_search_dead []).
  reflexivity.
Defined.

(** X29 on four chapters after [checkAll]. *)
Lemma download_selected_queues_what_is_counted_witness :
  let u' := download_selected Samples.all_checked in
  Z.of_nat (length (tasks u')) = 2%Z /\ num_downloaded u' = 3%Z /\
  num_selected u' = 0%Z /\ cnt (items u') = 0%Z.
Proof.
  apply (download_selected_queues_what_is_counted Samples.all_checked).
  reflexivity.
Defined.
